(** * Grab-latest-RSS: the feed aggregation pipeline of [Github/main.go]
      and [COS/main.go]

    The two programs poll a list of RSS feeds, keep the newest entry of each
    feed, sort the resulting articles by date and publish them as JSON to a
    remote store, appending per-feed errors to a remote log.

    Go strings are byte sequences: they are modelled by [string], whose
    characters are the 256 byte values.  Library functions the programs call
    ([unicode/utf8], [regexp], [time], [net/url], [encoding/json], [sort])
    are modelled in modules named after their packages, following the
    behaviour of the Go 1.22 standard library; the network, the clock and the
    feed parser are fields of an explicit [World]. *)

From Stdlib Require Import ZArith Lia Ascii String List Bool.
From Stdlib Require Import Sorting.Permutation Sorting.Sorted.
From stdpp Require Import base decidable option list strings gmap.

Local Open Scope string_scope.
Local Open Scope Z_scope.

(** ** Bytes and strings *)

Definition byteZ (c : ascii) : Z := Z.of_N (N_of_ascii c).

Definition byte_of (z : Z) : ascii := ascii_of_N (Z.to_N z).

Fixpoint take_s (n : nat) (s : string) : string :=
  match n, s with
  | S n', String c t => String c (take_s n' t)
  | _, _ => EmptyString
  end.

Fixpoint drop_s (n : nat) (s : string) : string :=
  match n, s with
  | S n', String _ t => drop_s n' t
  | _, _ => s
  end.

(** ** unicode/utf8 *)

Module utf8.

Definition RuneError : Z := 0xFFFD.
Definition RuneSelf : Z := 0x80.

Definition locb : Z := 0x80.
Definition hicb : Z := 0xBF.
Definition maskx : Z := 0x3F.
Definition mask2 : Z := 0x1F.
Definition mask3 : Z := 0x0F.
Definition mask4 : Z := 0x07.

(* Codes of the [first] table: the low three bits hold the sequence
   length, the high nibble indexes [acceptRanges]. *)
Definition xx : Z := 0xF1.
Definition as_ : Z := 0xF0.
Definition s1 : Z := 0x02.
Definition s2 : Z := 0x13.
Definition s3 : Z := 0x03.
Definition s4 : Z := 0x23.
Definition s5 : Z := 0x34.
Definition s6 : Z := 0x04.
Definition s7 : Z := 0x44.

Definition first (b : Z) : Z :=
  if b <? 0x80 then as_
  else if b <? 0xC2 then xx
  else if b <? 0xE0 then s1
  else if b =? 0xE0 then s2
  else if b <? 0xED then s3
  else if b =? 0xED then s4
  else if b <? 0xF0 then s3
  else if b =? 0xF0 then s5
  else if b <? 0xF4 then s6
  else if b =? 0xF4 then s7
  else xx.

Definition acceptRanges (i : Z) : Z * Z :=
  if i =? 0 then (locb, hicb)
  else if i =? 1 then (0xA0, hicb)
  else if i =? 2 then (locb, 0x9F)
  else if i =? 3 then (0x90, hicb)
  else if i =? 4 then (locb, 0x8F)
  else (0, 0).

(** [utf8.DecodeRuneInString]: the first rune of [s] and its width in
    bytes; [(RuneError, 0)] on the empty string and [(RuneError, 1)] on an
    ill-formed sequence. *)
Definition DecodeRuneInString (s : string) : Z * nat :=
  match s with
  | EmptyString => (RuneError, 0%nat)
  | String c0 t0 =>
    let b0 := byteZ c0 in
    let x := first b0 in
    if as_ <=? x then
      ((if Z.testbit x 0 then RuneError else b0), 1%nat)
    else
      let sz := Z.land x 7 in
      let '(lo, hi) := acceptRanges (Z.shiftr x 4) in
      if Z.of_nat (String.length s) <? sz then (RuneError, 1%nat)
      else
        match t0 with
        | EmptyString => (RuneError, 1%nat)
        | String c1 t1 =>
          let b1 := byteZ c1 in
          if (b1 <? lo) || (hi <? b1) then (RuneError, 1%nat)
          else if sz <=? 2 then
            (Z.lor (Z.shiftl (Z.land b0 mask2) 6) (Z.land b1 maskx), 2%nat)
          else
            match t1 with
            | EmptyString => (RuneError, 1%nat)
            | String c2 t2 =>
              let b2 := byteZ c2 in
              if (b2 <? locb) || (hicb <? b2) then (RuneError, 1%nat)
              else if sz <=? 3 then
                (Z.lor (Z.lor (Z.shiftl (Z.land b0 mask3) 12)
                              (Z.shiftl (Z.land b1 maskx) 6))
                       (Z.land b2 maskx), 3%nat)
              else
                match t2 with
                | EmptyString => (RuneError, 1%nat)
                | String c3 _ =>
                  let b3 := byteZ c3 in
                  if (b3 <? locb) || (hicb <? b3) then (RuneError, 1%nat)
                  else
                    (Z.lor (Z.lor (Z.lor (Z.shiftl (Z.land b0 mask4) 18)
                                         (Z.shiftl (Z.land b1 maskx) 12))
                                  (Z.shiftl (Z.land b2 maskx) 6))
                           (Z.land b3 maskx), 4%nat)
                end
            end
        end
  end.

Global Arguments DecodeRuneInString : simpl never.

(** The decoding of a whole string: each rune with the bytes it was read
    from.  An ill-formed byte is a unit of its own, decoded as
    [RuneError]. *)
Fixpoint runes_fuel (fuel : nat) (s : string) : list (Z * string) :=
  match fuel with
  | O => []
  | S fuel' =>
    match s with
    | EmptyString => []
    | _ =>
      let '(r, w) := DecodeRuneInString s in
      (r, take_s w s) :: runes_fuel fuel' (drop_s w s)
    end
  end.

Definition runes (s : string) : list (Z * string) :=
  runes_fuel (String.length s) s.

(** [utf8.ValidString]: no position decodes to the width-1 error rune. *)
Definition ill_formed (u : Z * string) : bool :=
  (u.1 =? RuneError) && (String.length u.2 =? 1)%nat.

Definition ValidString (s : string) : bool :=
  forallb (fun u => negb (ill_formed u)) (runes s).

End utf8.

(** ** regexp

    The programs compile one expression, a character class.  A class is a
    list of inclusive rune ranges; the matcher reads its input rune by rune
    with [utf8.DecodeRuneInString], so an ill-formed byte is presented to
    the class as [utf8.RuneError]. *)

Module regexp.

Definition Regexp := list (Z * Z).

Definition matchRune (re : Regexp) (r : Z) : bool :=
  existsb (fun '(lo, hi) => (lo <=? r) && (r <=? hi)) re.

(** [Regexp.ReplaceAllString] with the empty replacement: every match
    (one rune of the class) is dropped and the bytes between the matches
    are copied unchanged. *)
Fixpoint deleteAll (fuel : nat) (re : Regexp) (src : string) : string :=
  match fuel with
  | O => EmptyString
  | S fuel' =>
    match src with
    | EmptyString => EmptyString
    | _ =>
      let '(r, w) := utf8.DecodeRuneInString src in
      if matchRune re r then deleteAll fuel' re (drop_s w src)
      else take_s w src +:+ deleteAll fuel' re (drop_s w src)
    end
  end.

Definition ReplaceAllString_empty (re : Regexp) (src : string) : string :=
  deleteAll (String.length src) re src.

End regexp.

(** ** cleanXMLContent *)

(* regexp.MustCompile(`[\x00-\x1F\x7F-\x9F]`) *)
Definition illegalChars : regexp.Regexp := [(0x00, 0x1F); (0x7F, 0x9F)].

Definition cleanXMLContent (content : string) : string :=
  regexp.ReplaceAllString_empty illegalChars content.

(** The byte-wise reading of the sanitizer, as the specification words it:
    every byte in 0x00-0x1F and 0x7F-0x9F is removed.  It is compared with
    [cleanXMLContent] below. *)
Definition is_control_byte (c : ascii) : bool :=
  let b := byteZ c in
  ((0x00 <=? b) && (b <=? 0x1F)) || ((0x7F <=? b) && (b <=? 0x9F)).

Fixpoint strip_control_bytes (s : string) : string :=
  match s with
  | EmptyString => EmptyString
  | String c t =>
    if is_control_byte c then strip_control_bytes t
    else String c (strip_control_bytes t)
  end.

Definition bytes_to_string (l : list Z) : string :=
  fold_right (fun z s => String (byte_of z) s) EmptyString l.

Definition concat_s (l : list string) : string :=
  fold_right String.append EmptyString l.

Definition is_control_rune (r : Z) : bool :=
  ((0x00 <=? r) && (r <=? 0x1F)) || ((0x7F <=? r) && (r <=? 0x9F)).

(** Sample inputs: the lead byte 0xC2, the control byte 0x01 and the
    continuation byte 0x85 (ill-formed UTF-8, as a feed body read off the
    network can be), and a well-formed text holding U+0001, U+0085 and a
    three-byte character. *)
Definition split_nel : string := bytes_to_string [0xC2; 0x01; 0x85].

Definition sample_text : string :=
  bytes_to_string [0x61; 0x01; 0xC2; 0x85; 0xE4; 0xB8; 0xAD; 0x7F; 0x62].

(** ** time

    A [Time] is an instant, counted in seconds and nanoseconds from
    January 1 of year 1, 00:00:00 UTC (the zero [Time]), together with the
    zone it is shown in.  A [Location] is a zone with one name and one
    offset, which is what [time.UTC], [time.FixedZone] and a host whose
    local zone has no transitions provide. *)

Module time.

Record Location := { zoneName : string; zoneOffset : Z }.

Definition UTC : Location := {| zoneName := "UTC"; zoneOffset := 0 |}.
Definition FixedZone (name : string) (offset : Z) : Location :=
  {| zoneName := name; zoneOffset := offset |}.

Record Time := { abs : Z; nsec : Z; loc : Location }.

(* time.Time{} *)
Definition zero : Time := {| abs := 0; nsec := 0; loc := UTC |}.

Definition After (t u : Time) : bool :=
  (abs u <? abs t) || ((abs t =? abs u) && (nsec u <? nsec t)).

Definition In (t : Time) (l : Location) : Time :=
  {| abs := abs t; nsec := nsec t; loc := l |}.

(** *** The calendar *)

Definition secondsPerDay : Z := 86400.

(* Days from January 1 of year 1 to the given day of the proleptic
   Gregorian calendar. *)
Definition daysSinceEpoch (year month day : Z) : Z :=
  let y := if month <=? 2 then year - 1 else year in
  let era := y / 400 in
  let yoe := y - era * 400 in
  let mp := if 2 <? month then month - 3 else month + 9 in
  let doy := (153 * mp + 2) / 5 + day - 1 in
  let doe := yoe * 365 + yoe / 4 - yoe / 100 + doy in
  era * 146097 + doe - 306.

(* The inverse: year, month and day of a day number. *)
Definition civil (days : Z) : Z * Z * Z :=
  let z := days + 306 in
  let era := z / 146097 in
  let doe := z - era * 146097 in
  let yoe := (doe - doe / 1460 + doe / 36524 - doe / 146096) / 365 in
  let y := yoe + era * 400 in
  let doy := doe - (365 * yoe + yoe / 4 - yoe / 100) in
  let mp := (5 * doy + 2) / 153 in
  let d := doy - (153 * mp + 2) / 5 + 1 in
  let m := if mp <? 10 then mp + 3 else mp - 9 in
  ((if m <=? 2 then y + 1 else y), m, d).

Definition isLeap (year : Z) : bool :=
  (year mod 4 =? 0) && (negb (year mod 100 =? 0) || (year mod 400 =? 0)).

Definition daysIn (month year : Z) : Z :=
  if (month =? 2) && isLeap year then 29
  else nth (Z.to_nat (month - 1))
           [31; 28; 31; 30; 31; 30; 31; 31; 30; 31; 30; 31] 0.

(* time.Date, on fields that are in range *)
Definition Date (year month day hour min sec ns : Z) (l : Location) : Time :=
  {| abs := daysSinceEpoch year month day * secondsPerDay
            + hour * 3600 + min * 60 + sec - zoneOffset l;
     nsec := ns; loc := l |}.

Definition addSec (t : Time) (d : Z) : Time :=
  {| abs := abs t + d; nsec := nsec t; loc := loc t |}.
Definition setLoc (t : Time) (l : Location) : Time :=
  {| abs := abs t; nsec := nsec t; loc := l |}.

Definition longDayNames : list string :=
  ["Sunday"; "Monday"; "Tuesday"; "Wednesday"; "Thursday"; "Friday";
   "Saturday"].
Definition shortDayNames : list string :=
  ["Sun"; "Mon"; "Tue"; "Wed"; "Thu"; "Fri"; "Sat"].
Definition shortMonthNames : list string :=
  ["Jan"; "Feb"; "Mar"; "Apr"; "May"; "Jun"; "Jul"; "Aug"; "Sep"; "Oct";
   "Nov"; "Dec"].
Definition longMonthNames : list string :=
  ["January"; "February"; "March"; "April"; "May"; "June"; "July";
   "August"; "September"; "October"; "November"; "December"].

(** *** Layouts

    [nextStdChunk] cuts a layout string into literal text and standard
    fields; a layout is kept here as the list of its chunks. *)

Inductive Std :=
| stdLongMonth        (* "January" *)
| stdMonth            (* "Jan" *)
| stdZeroMonth        (* "01" *)
| stdWeekDay          (* "Mon" *)
| stdDay              (* "2" *)
| stdZeroDay          (* "02" *)
| stdHour             (* "15" *)
| stdZeroMinute       (* "04" *)
| stdZeroSecond       (* "05" *)
| stdLongYear         (* "2006" *)
| stdTZ               (* "MST" *)
| stdISO8601ColonTZ   (* "Z07:00" *)
| stdNumTZ            (* "-0700" *)
| stdFracSecond9 (digits : nat).   (* ".999" *)

Inductive Chunk := Lit (text : string) | Field (std : Std).

Definition Layout := list Chunk.

(* "2006-01-02T15:04:05Z07:00" *)
Definition RFC3339 : Layout :=
  [Field stdLongYear; Lit "-"; Field stdZeroMonth; Lit "-";
   Field stdZeroDay; Lit "T"; Field stdHour; Lit ":"; Field stdZeroMinute;
   Lit ":"; Field stdZeroSecond; Field stdISO8601ColonTZ].

(* "2006-01-02T15:04:05.999999999Z07:00" *)
Definition RFC3339Nano : Layout :=
  [Field stdLongYear; Lit "-"; Field stdZeroMonth; Lit "-";
   Field stdZeroDay; Lit "T"; Field stdHour; Lit ":"; Field stdZeroMinute;
   Lit ":"; Field stdZeroSecond; Field (stdFracSecond9 9);
   Field stdISO8601ColonTZ].

(* "Mon, 02 Jan 2006 15:04:05 -0700" *)
Definition RFC1123Z : Layout :=
  [Field stdWeekDay; Lit ", "; Field stdZeroDay; Lit " "; Field stdMonth;
   Lit " "; Field stdLongYear; Lit " "; Field stdHour; Lit ":";
   Field stdZeroMinute; Lit ":"; Field stdZeroSecond; Lit " ";
   Field stdNumTZ].

(* "Mon, 02 Jan 2006 15:04:05 MST" *)
Definition RFC1123 : Layout :=
  [Field stdWeekDay; Lit ", "; Field stdZeroDay; Lit " "; Field stdMonth;
   Lit " "; Field stdLongYear; Lit " "; Field stdHour; Lit ":";
   Field stdZeroMinute; Lit ":"; Field stdZeroSecond; Lit " ";
   Field stdTZ].

(* "January 2, 2006" *)
Definition layoutDate : Layout :=
  [Field stdLongMonth; Lit " "; Field stdDay; Lit ", "; Field stdLongYear].

(* "Mon Jan 2 15:04:2006" *)
Definition layoutLog : Layout :=
  [Field stdWeekDay; Lit " "; Field stdMonth; Lit " "; Field stdDay;
   Lit " "; Field stdHour; Lit ":"; Field stdZeroMinute; Lit ":";
   Field stdLongYear].

(** *** Formatting *)

Fixpoint utoa_fuel (fuel : nat) (n : Z) (acc : string) : string :=
  match fuel with
  | O => acc
  | S fuel' =>
    let acc' := String (byte_of (48 + n mod 10)) acc in
    if n <? 10 then acc' else utoa_fuel fuel' (n / 10) acc'
  end.

Definition utoa (n : Z) : string :=
  utoa_fuel (S (Z.to_nat (Z.log2 n))) n EmptyString.

Fixpoint zeros (n : nat) : string :=
  match n with O => EmptyString | S n' => String "0" (zeros n') end.

(* appendInt: the decimal form of [x], zero-padded to [width] digits *)
Definition appendInt (x width : Z) : string :=
  let ds := utoa (Z.abs x) in
  (if x <? 0 then "-" else EmptyString)
    +:+ zeros (Z.to_nat width - String.length ds) +:+ ds.

Fixpoint trimZeros_rev (s : list ascii) : list ascii :=
  match s with
  | c :: t => if Ascii.eqb c "0" then trimZeros_rev t else s
  | [] => []
  end.

(* appendNano for a ".999" field: trailing zeros are trimmed, and nothing
   is printed for a whole second *)
Definition appendNano9 (nanosec : Z) (n : nat) : string :=
  if (n =? 0)%nat || (nanosec =? 0) then EmptyString
  else
    let ds := take_s n (appendInt nanosec 9) in
    let kept := rev (trimZeros_rev (rev (list_ascii_of_string ds))) in
    match kept with
    | [] => EmptyString
    | _ => String "." (string_of_list_ascii kept)
    end.

Definition appendZone (offset : Z) (colon : bool) : string :=
  let zone := Z.quot offset 60 in
  (if zone <? 0 then "-" else "+")
    +:+ appendInt (Z.quot (Z.abs zone) 60) 2
    +:+ (if colon then ":" else EmptyString)
    +:+ appendInt (Z.rem (Z.abs zone) 60) 2.

Definition appendField (std : Std) (t : Time) : string :=
  let offset := zoneOffset (loc t) in
  let wall := abs t + offset in
  let days := wall / secondsPerDay in
  let secs := wall mod secondsPerDay in
  let '(year, month, day) := civil days in
  match std with
  | stdLongMonth => nth (Z.to_nat (month - 1)) longMonthNames EmptyString
  | stdMonth => nth (Z.to_nat (month - 1)) shortMonthNames EmptyString
  | stdZeroMonth => appendInt month 2
  | stdWeekDay => nth (Z.to_nat ((days + 1) mod 7)) shortDayNames EmptyString
  | stdDay => appendInt day 0
  | stdZeroDay => appendInt day 2
  | stdHour => appendInt (secs / 3600) 2
  | stdZeroMinute => appendInt (secs mod 3600 / 60) 2
  | stdZeroSecond => appendInt (secs mod 60) 2
  | stdLongYear => appendInt year 4
  | stdTZ =>
    if negb (String.eqb (zoneName (loc t)) EmptyString)
    then zoneName (loc t)
    else appendZone offset false
  | stdISO8601ColonTZ => if offset =? 0 then "Z" else appendZone offset true
  | stdNumTZ => appendZone offset false
  | stdFracSecond9 n => appendNano9 (nsec t) n
  end.

(* Time.Format *)
Fixpoint Format (layout : Layout) (t : Time) : string :=
  match layout with
  | [] => EmptyString
  | Lit text :: rest => text +:+ Format rest t
  | Field std :: rest => appendField std t +:+ Format rest t
  end.

(** *** Parsing *)

Inductive ParseError :=
| errBad                        (* the value does not fit the layout *)
| errRange (what : string)      (* a field is out of range *)
| errExtra.                     (* text is left after the layout *)

Definition isDigitC (c : ascii) : bool :=
  (48 <=? byteZ c) && (byteZ c <=? 57).

Definition digitVal (c : ascii) : Z := byteZ c - 48.

Definition isDigit (s : string) (i : nat) : bool :=
  match String.get i s with Some c => isDigitC c | None => false end.

(* getnum: one or two digits, exactly two when [fixed] *)
Definition getnum (s : string) (fixed : bool) : option (Z * string) :=
  match s with
  | String c0 t0 =>
    if isDigitC c0 then
      match t0 with
      | String c1 t1 =>
        if isDigitC c1 then Some (digitVal c0 * 10 + digitVal c1, t1)
        else if fixed then None else Some (digitVal c0, t0)
      | EmptyString => if fixed then None else Some (digitVal c0, t0)
      end
    else None
  | EmptyString => None
  end.

(* atoi on a run of digits *)
Fixpoint digitsVal (s : string) (acc : Z) : option Z :=
  match s with
  | EmptyString => Some acc
  | String c t =>
    if isDigitC c then digitsVal t (acc * 10 + digitVal c) else None
  end.

Fixpoint cutspace (s : string) : string :=
  match s with
  | String c t => if Ascii.eqb c " " then cutspace t else s
  | EmptyString => s
  end.

(* skip: the value must start with the literal text; a space of the
   layout stands for any run of spaces *)
Fixpoint skip_fuel (fuel : nat) (value prefix : string) : option string :=
  match fuel with
  | O => Some value
  | S fuel' =>
    match prefix with
    | EmptyString => Some value
    | String p ptail =>
      if Ascii.eqb p " " then
        match value with
        | String v _ =>
          if Ascii.eqb v " "
          then skip_fuel fuel' (cutspace value) (cutspace prefix)
          else None
        | EmptyString => skip_fuel fuel' value (cutspace prefix)
        end
      else
        match value with
        | String v vtail =>
          if Ascii.eqb v p then skip_fuel fuel' vtail ptail else None
        | EmptyString => None
        end
    end
  end.

Definition skip (value prefix : string) : option string :=
  skip_fuel (String.length prefix) value prefix.

(* match: equality of two strings of one length, ignoring case *)
Fixpoint matchFold (s1 s2 : string) : bool :=
  match s1, s2 with
  | String c1 t1, String c2 t2 =>
    (if Ascii.eqb c1 c2 then true
     else
       let l1 := Z.lor (byteZ c1) 0x20 in
       let l2 := Z.lor (byteZ c2) 0x20 in
       (l1 =? l2) && (97 <=? l1) && (l1 <=? 122))
    && matchFold t1 t2
  | _, _ => true
  end.

Fixpoint lookup_from (i : Z) (tab : list string) (val : string)
  : option (Z * string) :=
  match tab with
  | [] => None
  | v :: tab' =>
    if (String.length v <=? String.length val)%nat
       && matchFold (take_s (String.length v) val) v
    then Some (i, drop_s (String.length v) val)
    else lookup_from (i + 1) tab' val
  end.

Definition lookup (tab : list string) (val : string) : option (Z * string) :=
  lookup_from 0 tab val.

Definition commaOrPeriod (c : ascii) : bool :=
  Ascii.eqb c "." || Ascii.eqb c ",".

Fixpoint countDigits (s : string) : nat :=
  match s with
  | String c t => if isDigitC c then S (countDigits t) else O
  | EmptyString => O
  end.

Fixpoint pow10 (n : nat) : Z :=
  match n with O => 1 | S n' => 10 * pow10 n' end.

(* parseNanoseconds: [value] starts with the separator, [nbytes] counts
   the separator and the digits after it *)
Definition parseNanoseconds (value : string) (nbytes : nat) : option Z :=
  let nbytes := Nat.min nbytes 10 in
  match digitsVal (take_s (nbytes - 1) (drop_s 1 value)) 0 with
  | Some ns => Some (ns * pow10 (10 - nbytes))
  | None => None
  end.

(* parseSignedOffset: the length of a sign and a number up to 23, or 0 *)
Definition parseSignedOffset (value : string) : nat :=
  match value with
  | String sign rest =>
    if Ascii.eqb sign "-" || Ascii.eqb sign "+" then
      let n := countDigits rest in
      match digitsVal (take_s n rest) 0 with
      | Some x => if (n =? 0)%nat || (23 <? x) then O else S n
      | None => O
      end
    else O
  | EmptyString => O
  end.

Definition parseGMT (value : string) : nat :=
  match drop_s 3 value with
  | EmptyString => 3
  | rest => 3 + parseSignedOffset rest
  end.

Fixpoint countUpper (fuel : nat) (s : string) : nat :=
  match fuel, s with
  | S fuel', String c t =>
    if (65 <=? byteZ c) && (byteZ c <=? 90) then S (countUpper fuel' t)
    else O
  | _, _ => O
  end.

Definition charAt (s : string) (i : nat) (c : ascii) : bool :=
  match String.get i s with Some d => Ascii.eqb c d | None => false end.

(* parseTimeZone: the length of a zone abbreviation at the start of the
   value *)
Definition parseTimeZone (value : string) : option nat :=
  if (String.length value <? 3)%nat then None
  else if String.eqb (take_s 4 value) "ChST"
          || String.eqb (take_s 4 value) "MeST" then Some 4%nat
  else if String.eqb (take_s 3 value) "GMT" then Some (parseGMT value)
  else if charAt value 0 "+" || charAt value 0 "-" then
    match parseSignedOffset value with
    | O => None
    | n => Some n
    end
  else
    match countUpper 6 value with
    | 5%nat => if charAt value 4 "T" then Some 5%nat else None
    | 4%nat =>
      if charAt value 3 "T" || String.eqb (take_s 4 value) "WITA"
      then Some 4%nat else None
    | 3%nat => Some 3%nat
    | _ => None
    end.

(* The fields collected while a value is read. *)
Record fields := {
  f_year : Z; f_month : Z; f_day : Z;
  f_hour : Z; f_min : Z; f_sec : Z; f_nsec : Z;
  f_z : option Location; f_zoneOffset : Z; f_zoneName : string }.

Definition fields0 : fields :=
  {| f_year := 0; f_month := -1; f_day := -1; f_hour := 0; f_min := 0;
     f_sec := 0; f_nsec := 0; f_z := None; f_zoneOffset := -1;
     f_zoneName := EmptyString |}.

Definition set_year v f := {| f_year := v; f_month := f_month f; f_day := f_day f; f_hour := f_hour f; f_min := f_min f; f_sec := f_sec f; f_nsec := f_nsec f; f_z := f_z f; f_zoneOffset := f_zoneOffset f; f_zoneName := f_zoneName f |}.
Definition set_month v f := {| f_year := f_year f; f_month := v; f_day := f_day f; f_hour := f_hour f; f_min := f_min f; f_sec := f_sec f; f_nsec := f_nsec f; f_z := f_z f; f_zoneOffset := f_zoneOffset f; f_zoneName := f_zoneName f |}.
Definition set_day v f := {| f_year := f_year f; f_month := f_month f; f_day := v; f_hour := f_hour f; f_min := f_min f; f_sec := f_sec f; f_nsec := f_nsec f; f_z := f_z f; f_zoneOffset := f_zoneOffset f; f_zoneName := f_zoneName f |}.
Definition set_hour v f := {| f_year := f_year f; f_month := f_month f; f_day := f_day f; f_hour := v; f_min := f_min f; f_sec := f_sec f; f_nsec := f_nsec f; f_z := f_z f; f_zoneOffset := f_zoneOffset f; f_zoneName := f_zoneName f |}.
Definition set_min v f := {| f_year := f_year f; f_month := f_month f; f_day := f_day f; f_hour := f_hour f; f_min := v; f_sec := f_sec f; f_nsec := f_nsec f; f_z := f_z f; f_zoneOffset := f_zoneOffset f; f_zoneName := f_zoneName f |}.
Definition set_sec v f := {| f_year := f_year f; f_month := f_month f; f_day := f_day f; f_hour := f_hour f; f_min := f_min f; f_sec := v; f_nsec := f_nsec f; f_z := f_z f; f_zoneOffset := f_zoneOffset f; f_zoneName := f_zoneName f |}.
Definition set_nsec v f := {| f_year := f_year f; f_month := f_month f; f_day := f_day f; f_hour := f_hour f; f_min := f_min f; f_sec := f_sec f; f_nsec := v; f_z := f_z f; f_zoneOffset := f_zoneOffset f; f_zoneName := f_zoneName f |}.
Definition set_z v f := {| f_year := f_year f; f_month := f_month f; f_day := f_day f; f_hour := f_hour f; f_min := f_min f; f_sec := f_sec f; f_nsec := f_nsec f; f_z := v; f_zoneOffset := f_zoneOffset f; f_zoneName := f_zoneName f |}.
Definition set_zoneOffset v f := {| f_year := f_year f; f_month := f_month f; f_day := f_day f; f_hour := f_hour f; f_min := f_min f; f_sec := f_sec f; f_nsec := f_nsec f; f_z := f_z f; f_zoneOffset := v; f_zoneName := f_zoneName f |}.
Definition set_zoneName v f := {| f_year := f_year f; f_month := f_month f; f_day := f_day f; f_hour := f_hour f; f_min := f_min f; f_sec := f_sec f; f_nsec := f_nsec f; f_z := f_z f; f_zoneOffset := f_zoneOffset f; f_zoneName := v |}.

(* The next standard field of the rest of the layout, if any. *)
Fixpoint nextStd (layout : Layout) : option Std :=
  match layout with
  | [] => None
  | Field std :: _ => Some std
  | Lit _ :: rest => nextStd rest
  end.

Definition isTZ_ISO (std : Std) : bool :=
  match std with stdISO8601ColonTZ => true | _ => false end.

(* A numeric zone: sign, hours and minutes, with a colon in between for
   the colon variants. *)
Definition parseNumTZ (colon : bool) (value : string)
  : (Z * string) + ParseError :=
  let width := if colon then 6%nat else 5%nat in
  if (String.length value <? width)%nat then inr errBad
  else if colon && negb (charAt value 3 ":") then inr errBad
  else
    let sign := take_s 1 value in
    let hour := take_s 2 (drop_s 1 value) in
    let min := take_s 2 (drop_s (if colon then 4 else 3) value) in
    match getnum hour true, getnum min true with
    | Some (hr, _), Some (mm, _) =>
      if 24 <? hr then inr (errRange "time zone offset hour")
      else if 60 <? mm then inr (errRange "time zone offset minute")
      else
        let off := (hr * 60 + mm) * 60 in
        if String.eqb sign "+" then inl (off, drop_s width value)
        else if String.eqb sign "-" then inl (- off, drop_s width value)
        else inr errBad
    | _, _ =>
      (* the range tests run on the fields read so far *)
      match getnum hour true with
      | Some (hr, _) =>
        if 24 <? hr then inr (errRange "time zone offset hour")
        else inr errBad
      | None => inr errBad
      end
    end.

(** One standard field is read off the value; [rest] is the layout after
    the field. *)
Definition parseField (std : Std) (rest : Layout) (f : fields)
           (value : string) : (fields * string) + ParseError :=
  match std with
  | stdLongYear =>
    if (String.length value <? 4)%nat || negb (isDigit value 0)
    then inr errBad
    else
      match digitsVal (take_s 4 value) 0 with
      | Some y => inl (set_year y f, drop_s 4 value)
      | None => inr errBad
      end
  | stdMonth =>
    match lookup shortMonthNames value with
    | Some (m, value') => inl (set_month (m + 1) f, value')
    | None => inr errBad
    end
  | stdLongMonth =>
    match lookup longMonthNames value with
    | Some (m, value') => inl (set_month (m + 1) f, value')
    | None => inr errBad
    end
  | stdZeroMonth =>
    match getnum value true with
    | Some (m, value') =>
      if (m <=? 0) || (12 <? m) then inr (errRange "month")
      else inl (set_month m f, value')
    | None => inr errBad
    end
  | stdWeekDay =>
    (* the weekday is only checked to be a weekday *)
    match lookup shortDayNames value with
    | Some (_, value') => inl (f, value')
    | None => inr errBad
    end
  | stdDay | stdZeroDay =>
    match getnum value (match std with stdZeroDay => true | _ => false end)
    with
    | Some (d, value') => inl (set_day d f, value')
    | None => inr errBad
    end
  | stdHour =>
    match getnum value false with
    | Some (h, value') =>
      if 24 <=? h then inr (errRange "hour")
      else inl (set_hour h f, value')
    | None => inr errBad
    end
  | stdZeroMinute =>
    match getnum value true with
    | Some (m, value') =>
      if 60 <=? m then inr (errRange "minute")
      else inl (set_min m f, value')
    | None => inr errBad
    end
  | stdZeroSecond =>
    match getnum value true with
    | Some (s, value') =>
      if 60 <=? s then inr (errRange "second")
      else
        let f := set_sec s f in
        (* a fractional second in the value is read even when the layout
           has none *)
        if (2 <=? String.length value')%nat
           && match value' with
              | String c _ => commaOrPeriod c
              | EmptyString => false
              end
           && isDigit value' 1
        then
          match nextStd rest with
          | Some (stdFracSecond9 _) => inl (f, value')
          | _ =>
            let n := S (countDigits (drop_s 1 value')) in
            match parseNanoseconds value' n with
            | Some ns => inl (set_nsec ns f, drop_s n value')
            | None => inr errBad
            end
          end
        else inl (f, value')
    | None => inr errBad
    end
  | stdISO8601ColonTZ =>
    if charAt value 0 "Z" then inl (set_z (Some UTC) f, drop_s 1 value)
    else
      match parseNumTZ true value with
      | inl (off, value') => inl (set_zoneOffset off f, value')
      | inr e => inr e
      end
  | stdNumTZ =>
    match parseNumTZ false value with
    | inl (off, value') => inl (set_zoneOffset off f, value')
    | inr e => inr e
    end
  | stdTZ =>
    if (3 <=? String.length value)%nat && String.eqb (take_s 3 value) "UTC"
    then inl (set_z (Some UTC) f, drop_s 3 value)
    else
      match parseTimeZone value with
      | Some n => inl (set_zoneName (take_s n value) f, drop_s n value)
      | None => inr errBad
      end
  | stdFracSecond9 _ =>
    if (String.length value <? 2)%nat
       || negb (match value with
                | String c _ => commaOrPeriod c
                | EmptyString => false
                end)
       || negb (isDigit value 1)
    then inl (f, value)          (* fractional second omitted *)
    else
      let n := S (countDigits (drop_s 1 value)) in
      match parseNanoseconds value n with
      | Some ns => inl (set_nsec ns f, drop_s n value)
      | None => inr errBad
      end
  end.

Fixpoint parseChunks (layout : Layout) (f : fields) (value : string)
  : fields + ParseError :=
  match layout with
  | [] => if (String.length value =? 0)%nat then inl f else inr errExtra
  | Lit prefix :: rest =>
    match skip value prefix with
    | Some value' => parseChunks rest f value'
    | None => inr errBad
    end
  | Field std :: rest =>
    match parseField std rest f value with
    | inl (f', value') => parseChunks rest f' value'
    | inr e => inr e
    end
  end.

(* atoi on a signed number, used for the hours of a "GMT+3" zone name *)
Definition atoiSigned (s : string) : Z :=
  match s with
  | String c t =>
    if Ascii.eqb c "-" then - default 0 (digitsVal t 0)
    else if Ascii.eqb c "+" then default 0 (digitsVal t 0)
    else default 0 (digitsVal s 0)
  | EmptyString => 0
  end.

(** The fields are checked and turned into a [Time].  [local] is the zone
    of the host, which names the result when the value carries its offset
    or its abbreviation. *)
Definition resolve (local : Location) (f : fields) : Time + ParseError :=
  let month := if f_month f <? 0 then 1 else f_month f in
  let day := if f_day f <? 0 then 1 else f_day f in
  if (day <? 1) || (daysIn month (f_year f) <? day)
  then inr (errRange "day")
  else
    let date l := Date (f_year f) month day (f_hour f) (f_min f) (f_sec f)
                       (f_nsec f) l in
    match f_z f with
    | Some z => inl (date z)
    | None =>
      if negb (f_zoneOffset f =? -1) then
        let t := addSec (date UTC) (- f_zoneOffset f) in
        if (zoneOffset local =? f_zoneOffset f)
           && (String.eqb (f_zoneName f) EmptyString
               || String.eqb (zoneName local) (f_zoneName f))
        then inl (setLoc t local)
        else inl (setLoc t (FixedZone (f_zoneName f) (f_zoneOffset f)))
      else if negb (String.eqb (f_zoneName f) EmptyString) then
        let t := date UTC in
        if String.eqb (zoneName local) (f_zoneName f)
        then inl (setLoc (addSec t (- zoneOffset local)) local)
        else
          let offset :=
            if (3 <? String.length (f_zoneName f))%nat
               && String.eqb (take_s 3 (f_zoneName f)) "GMT"
            then atoiSigned (drop_s 3 (f_zoneName f)) * 3600
            else 0 in
          inl (setLoc t (FixedZone (f_zoneName f) offset))
      else inl (date UTC)
    end.

(** [time.Parse]: the parsed time, or the zero [Time] and an error. *)
Definition Parse (local : Location) (layout : Layout) (value : string)
  : Time * option ParseError :=
  match parseChunks layout fields0 value with
  | inl f =>
    match resolve local f with
    | inl t => (t, None)
    | inr e => (zero, Some e)
    end
  | inr e => (zero, Some e)
  end.

End time.

(** ** Errors

    An [error] is what the programs can get from the libraries they call.
    Its message is only ever printed with [%v]; [Error] renders it, given
    [strconv.Quote], which is left uninterpreted. *)

Inductive error :=
| errorString (msg : string)              (* errors.New, fmt.Errorf *)
| EscapeError (s : string)                (* url.EscapeError *)
| InvalidHostError (s : string)           (* url.InvalidHostError *)
| invalidPort (colonPort : string)        (* "invalid port %q after host" *)
| urlError (op url : string) (err : error).   (* *url.Error *)

Fixpoint Error (quote : string -> string) (e : error) : string :=
  match e with
  | errorString msg => msg
  | EscapeError s => "invalid URL escape " +:+ quote s
  | InvalidHostError s => "invalid character " +:+ quote s +:+ " in host name"
  | invalidPort p => "invalid port " +:+ quote p +:+ " after host"
  | urlError op url err => op +:+ " " +:+ quote url +:+ ": " +:+ Error quote err
  end.

(** ** strings *)

Module strings.

Fixpoint IndexByte (s : string) (c : ascii) : option nat :=
  match s with
  | EmptyString => None
  | String d t =>
    if Ascii.eqb c d then Some O else S <$> IndexByte t c
  end.

Fixpoint LastIndexByte (s : string) (c : ascii) : option nat :=
  match s with
  | EmptyString => None
  | String d t =>
    match LastIndexByte t c with
    | Some i => Some (S i)
    | None => if Ascii.eqb c d then Some O else None
    end
  end.

(* strings.Cut with a one-byte separator *)
Definition Cut (s : string) (sep : ascii) : string * string * bool :=
  match IndexByte s sep with
  | Some i => (take_s i s, drop_s (S i) s, true)
  | None => (s, EmptyString, false)
  end.

Definition HasPrefix (s prefix : string) : bool := String.prefix prefix s.

Definition HasSuffix (s suffix : string) : bool :=
  (String.length suffix <=? String.length s)%nat
  && String.eqb (drop_s (String.length s - String.length suffix) s) suffix.

Fixpoint CountByte (s : string) (c : ascii) : nat :=
  match s with
  | EmptyString => O
  | String d t => ((if Ascii.eqb c d then 1 else 0) + CountByte t c)%nat
  end.

Definition ContainsByte (s : string) (c : ascii) : bool :=
  match IndexByte s c with Some _ => true | None => false end.

(* strings.ToLower, on the ASCII letters *)
Fixpoint ToLower (s : string) : string :=
  match s with
  | EmptyString => EmptyString
  | String c t =>
    String (if (65 <=? byteZ c) && (byteZ c <=? 90)
            then byte_of (byteZ c + 32) else c) (ToLower t)
  end.

End strings.

(** ** net/url *)

Module url.

Record URL := {
  Scheme : string;
  Opaque : string;
  Host : string;      (* host or host:port *)
  Path : string;
  RawQuery : string;
  Fragment : string }.

Inductive encoding :=
| encodePath | encodeUserPassword | encodeHost | encodeZone
| encodeFragment.

Definition isAlnum (c : Z) : bool :=
  ((97 <=? c) && (c <=? 122)) || ((65 <=? c) && (c <=? 90))
  || ((48 <=? c) && (c <=? 57)).

Definition oneOf (chars : string) (c : ascii) : bool :=
  strings.ContainsByte chars c.

(* The double quote, which a string literal cannot hold. *)
Definition dquote : ascii := byte_of 34.

(* shouldEscape, for the host and zone of an authority *)
Definition shouldEscapeHost (c : ascii) : bool :=
  negb (isAlnum (byteZ c)
        || oneOf "!$&'()*+,;=:[]<>" c || Ascii.eqb c dquote
        || oneOf "-_.~" c).

Definition ishex (c : ascii) : bool :=
  let b := byteZ c in
  ((48 <=? b) && (b <=? 57)) || ((97 <=? b) && (b <=? 102))
  || ((65 <=? b) && (b <=? 70)).

Definition unhex (c : ascii) : Z :=
  let b := byteZ c in
  if (48 <=? b) && (b <=? 57) then b - 48
  else if (97 <=? b) && (b <=? 102) then b - 97 + 10
  else if (65 <=? b) && (b <=? 70) then b - 65 + 10
  else 0.

(** [unescape]: percent escapes are checked and decoded; in a host, an
    escape may only stand for a non-ASCII byte and a plain byte must be
    one a host can hold. *)
Fixpoint unescape_fuel (fuel : nat) (s : string) (mode : encoding)
  : string + error :=
  match fuel with
  | O => inl EmptyString
  | S fuel' =>
    match s with
    | EmptyString => inl EmptyString
    | String c t =>
      if Ascii.eqb c "%" then
        match t with
        | String h1 (String h2 t') =>
          if negb (ishex h1 && ishex h2) then inr (EscapeError (take_s 3 s))
          else
            let v := Z.lor (Z.shiftl (unhex h1) 4) (unhex h2) in
            let bad :=
              match mode with
              | encodeHost =>
                (unhex h1 <? 8) && negb (String.eqb (take_s 3 s) "%25")
              | encodeZone =>
                negb (String.eqb (take_s 3 s) "%25") && negb (v =? 32)
                && shouldEscapeHost (byte_of v)
              | _ => false
              end in
            if bad then inr (EscapeError (take_s 3 s))
            else
              match unescape_fuel fuel' t' mode with
              | inl r => inl (String (byte_of v) r)
              | inr e => inr e
              end
        | _ => inr (EscapeError (take_s 3 s))
        end
      else
        let bad :=
          match mode with
          | encodeHost | encodeZone =>
            (byteZ c <? 0x80) && shouldEscapeHost c
          | _ => false
          end in
        if bad then inr (InvalidHostError (String c EmptyString))
        else
          match unescape_fuel fuel' t mode with
          | inl r => inl (String c r)
          | inr e => inr e
          end
    end
  end.

Definition unescape (s : string) (mode : encoding) : string + error :=
  unescape_fuel (String.length s) s mode.

Definition stringContainsCTLByte (s : string) : bool :=
  existsb (fun c => (byteZ c <? 32) || (byteZ c =? 0x7F))
          (list_ascii_of_string s).

(* getScheme: a leading "scheme:" is split off *)
Fixpoint getScheme_from (i : nat) (rawURL rest : string)
  : (string * string) + error :=
  match rest with
  | EmptyString => inl (EmptyString, rawURL)
  | String c t =>
    let b := byteZ c in
    if ((97 <=? b) && (b <=? 122)) || ((65 <=? b) && (b <=? 90)) then
      getScheme_from (S i) rawURL t
    else if ((48 <=? b) && (b <=? 57)) || oneOf "+-." c then
      match i with
      | O => inl (EmptyString, rawURL)
      | _ => getScheme_from (S i) rawURL t
      end
    else if Ascii.eqb c ":" then
      match i with
      | O => inr (errorString "missing protocol scheme")
      | _ => inl (take_s i rawURL, t)
      end
    else inl (EmptyString, rawURL)
  end.

Definition getScheme (rawURL : string) : (string * string) + error :=
  getScheme_from O rawURL rawURL.

Definition validOptionalPort (port : string) : bool :=
  match port with
  | EmptyString => true
  | String c t =>
    Ascii.eqb c ":"
    && forallb (fun d => (48 <=? byteZ d) && (byteZ d <=? 57))
               (list_ascii_of_string t)
  end.

Definition validUserinfo (s : string) : bool :=
  forallb (fun c => isAlnum (byteZ c) || oneOf "-._:~!$&'()*+,;=%@" c)
          (list_ascii_of_string s).

Definition parseHost (host : string) : string + error :=
  if strings.HasPrefix host "[" then
    match strings.LastIndexByte host "]" with
    | None => inr (errorString "missing ']' in host")
    | Some i =>
      let colonPort := drop_s (S i) host in
      if negb (validOptionalPort colonPort) then inr (invalidPort colonPort)
      else
        match String.index 0 "%25" (take_s i host) with
        | Some zone =>
          match unescape (take_s zone host) encodeHost with
          | inr e => inr e
          | inl host1 =>
            match unescape (take_s (i - zone) (drop_s zone host)) encodeZone
            with
            | inr e => inr e
            | inl host2 =>
              match unescape (drop_s i host) encodeHost with
              | inr e => inr e
              | inl host3 => inl (host1 +:+ host2 +:+ host3)
              end
            end
          end
        | None => unescape host encodeHost
        end
    end
  else
    match strings.LastIndexByte host ":" with
    | Some i =>
      let colonPort := drop_s i host in
      if negb (validOptionalPort colonPort) then inr (invalidPort colonPort)
      else unescape host encodeHost
    | None => unescape host encodeHost
    end.

(* parseAuthority: the user information is checked, the host is kept *)
Definition parseAuthority (authority : string) : string + error :=
  match strings.LastIndexByte authority "@" with
  | None => parseHost authority
  | Some i =>
    match parseHost (drop_s (S i) authority) with
    | inr e => inr e
    | inl host =>
      let userinfo := take_s i authority in
      if negb (validUserinfo userinfo)
      then inr (errorString "net/url: invalid userinfo")
      else
        let '(username, password, _) := strings.Cut userinfo ":" in
        match unescape username encodeUserPassword with
        | inr e => inr e
        | inl _ =>
          match unescape password encodeUserPassword with
          | inr e => inr e
          | inl _ => inl host
          end
        end
    end
  end.

(* parse(rawURL, false): a URL without its fragment *)
Definition parse (rawURL : string) : URL + error :=
  if stringContainsCTLByte rawURL
  then inr (errorString "net/url: invalid control character in URL")
  else if String.eqb rawURL "*" then
    inl {| Scheme := EmptyString; Opaque := EmptyString;
           Host := EmptyString; Path := "*"; RawQuery := EmptyString;
           Fragment := EmptyString |}
  else
    match getScheme rawURL with
    | inr e => inr e
    | inl (scheme, rest) =>
      let scheme := strings.ToLower scheme in
      let '(rest, query) :=
        if strings.HasSuffix rest "?"
           && (strings.CountByte rest "?" =? 1)%nat
        then (take_s (String.length rest - 1) rest, EmptyString)
        else let '(r, q, _) := strings.Cut rest "?" in (r, q) in
      let opaque := negb (strings.HasPrefix rest "/")
                    && negb (String.eqb scheme EmptyString) in
      if opaque then
        inl {| Scheme := scheme; Opaque := rest; Host := EmptyString;
               Path := EmptyString; RawQuery := query;
               Fragment := EmptyString |}
      else if negb (strings.HasPrefix rest "/")
              && strings.ContainsByte (strings.Cut rest "/").1.1 ":"
      then inr (errorString
                  "first path segment in URL cannot contain colon")
      else
        let withAuthority :=
          (negb (String.eqb scheme EmptyString)
           || negb (strings.HasPrefix rest "///"))
          && strings.HasPrefix rest "//" in
        let '(authority, rest) :=
          if withAuthority then
            let a := drop_s 2 rest in
            match strings.IndexByte a "/" with
            | Some i => (take_s i a, drop_s i a)
            | None => (a, EmptyString)
            end
          else (EmptyString, rest) in
        match (if withAuthority then parseAuthority authority
               else inl EmptyString) with
        | inr e => inr e
        | inl host =>
          match unescape rest encodePath with
          | inr e => inr e
          | inl path =>
            inl {| Scheme := scheme; Opaque := EmptyString; Host := host;
                   Path := path; RawQuery := query;
                   Fragment := EmptyString |}
          end
        end
    end.

(** [url.Parse] *)
Definition Parse (rawURL : string) : URL + error :=
  let '(u, frag, _) := strings.Cut rawURL "#" in
  match parse u with
  | inr e => inr (urlError "parse" u e)
  | inl url =>
    if String.eqb frag EmptyString then inl url
    else
      match unescape frag encodeFragment with
      | inr e => inr (urlError "parse" rawURL e)
      | inl f =>
        inl {| Scheme := Scheme url; Opaque := Opaque url;
               Host := Host url; Path := Path url;
               RawQuery := RawQuery url; Fragment := f |}
      end
  end.

(** [URL.Hostname]: the host without a valid port and without the
    brackets of an IPv6 literal. *)
Definition Hostname (u : URL) : string :=
  let host :=
    match strings.LastIndexByte (Host u) ":" with
    | Some colon =>
      if validOptionalPort (drop_s colon (Host u))
      then take_s colon (Host u) else Host u
    | None => Host u
    end in
  if strings.HasPrefix host "[" && strings.HasSuffix host "]"
  then take_s (String.length host - 2) (drop_s 1 host)
  else host.

End url.

(** ** extractDomain *)

Definition extractDomain (urlStr : string) : string * option error :=
  match url.Parse urlStr with
  | inr err => (EmptyString, Some err)
  | inl u =>
    let domain := url.Hostname u in
    let protocol :=
      if negb (String.eqb (url.Scheme u) EmptyString)
      then url.Scheme u +:+ "://" else "https://" in
    let fullURL := protocol +:+ domain in
    (fullURL, None)
  end.

(** ** Slices

    A Go slice is [nil] or holds elements; [append] to a nil slice
    allocates. *)

Inductive slice (A : Type) :=
| nil_slice
| mk_slice (elems : list A).
Arguments nil_slice {A}.
Arguments mk_slice {A} elems.

Definition elems {A} (s : slice A) : list A :=
  match s with nil_slice => [] | mk_slice l => l end.

Definition append {A} (s : slice A) (x : A) : slice A :=
  mk_slice (elems s ++ [x]).

Definition map_slice {A} (f : list A -> list A) (s : slice A) : slice A :=
  match s with nil_slice => nil_slice | mk_slice l => mk_slice (f l) end.

(** ** sort

    [sort.Slice] sorts a slice in place, given [less] on indices; in the
    programs [less i j] compares the elements at [i] and [j], so [less] is
    taken on elements.  The package documents that the result is sorted
    and that "the sort is not guaranteed to be stable"; [Sorts] states that
    contract.  [Slice] below follows the implementation (pattern-defeating
    quicksort, [pdqsort_func]). *)

Module sort.

Section Contract.
Context {A : Type}.

(* [less] is a strict weak ordering: the order of a key. *)
Definition StrictWeak (less : A -> A -> bool) : Prop :=
  (forall x, less x x = false)
  /\ (forall x y z, less x y = true -> less y z = true -> less x z = true)
  /\ (forall x y z, less x y = false -> less y z = false ->
                    less x z = false).

(* No element is followed, at any distance, by one that is less. *)
Definition IsSorted (less : A -> A -> bool) (l : list A) : Prop :=
  forall i j x y, (i < j)%nat -> l !! i = Some x -> l !! j = Some y ->
                  less y x = false.

Definition Sorts (srt : (A -> A -> bool) -> list A -> list A) : Prop :=
  forall less l,
    Permutation l (srt less l)
    /\ (StrictWeak less -> IsSorted less (srt less l)).
End Contract.

Section Impl.
Context {A : Type} (less : A -> A -> bool).

Definition Less (data : list A) (i j : nat) : bool :=
  match data !! i, data !! j with
  | Some x, Some y => less x y
  | _, _ => false
  end.

Definition Swap (data : list A) (i j : nat) : list A :=
  match data !! i, data !! j with
  | Some x, Some y => <[i := y]> (<[j := x]> data)
  | _, _ => data
  end.

(* for j := i; j > a && Less(j, j-1); j-- { Swap(j, j-1) } *)
Fixpoint insert_down (data : list A) (a j : nat) : list A :=
  match j with
  | O => data
  | S j' =>
    if (a <? j)%nat && Less data j j'
    then insert_down (Swap data j j') a j'
    else data
  end.

(* for i := a + 1; i < b; i++ { ... } *)
Fixpoint insertionSort_from (n : nat) (data : list A) (a i : nat)
  : list A :=
  match n with
  | O => data
  | S n' => insertionSort_from n' (insert_down data a i) a (S i)
  end.

Definition insertionSort_func (data : list A) (a b : nat) : list A :=
  insertionSort_from (b - (a + 1)) data a (a + 1).

Fixpoint siftDown_fuel (fuel : nat) (data : list A) (root hi first : nat)
  : list A :=
  match fuel with
  | O => data
  | S fuel' =>
    let child := (2 * root + 1)%nat in
    if (hi <=? child)%nat then data
    else
      let child :=
        if (child + 1 <? hi)%nat
           && Less data (first + child) (first + child + 1)
        then S child else child in
      if negb (Less data (first + root) (first + child)) then data
      else siftDown_fuel fuel' (Swap data (first + root) (first + child))
                         child hi first
  end.

Definition siftDown_func (data : list A) (lo hi first : nat) : list A :=
  siftDown_fuel hi data lo hi first.

(* for i := start; i >= 0; i-- { data = f data i } *)
Fixpoint downto (f : list A -> nat -> list A) (data : list A) (i : nat)
  : list A :=
  match i with
  | O => f data O
  | S i' => downto f (f data i) i'
  end.

Definition heapSort_func (data : list A) (a b : nat) : list A :=
  let first := a in
  let lo := O in
  let hi := (b - a)%nat in
  match hi with
  | O => data
  | S _ =>
    let data :=
      downto (fun d i => siftDown_func d i hi first) data ((hi - 1) / 2)
    in
    downto (fun d i => siftDown_func (Swap d first (first + i)) lo i first)
           data (hi - 1)
  end.

(* for i <= j && cond(i) { i++ }: the last value of i *)
Fixpoint scan_up (n : nat) (cond : nat -> bool) (i j : nat) : nat :=
  match n with
  | O => i
  | S n' =>
    if (i <=? j)%nat && cond i then scan_up n' cond (S i) j else i
  end.

(* for i <= j && cond(j) { j-- }: the last value of j; i is at least 1 *)
Fixpoint scan_down (n : nat) (cond : nat -> bool) (i j : nat) : nat :=
  match n with
  | O => j
  | S n' =>
    if (i <=? j)%nat && cond j then scan_down n' cond i (j - 1) else j
  end.

Fixpoint partition_loop (fuel : nat) (data : list A) (a i j : nat)
  : list A * nat :=
  match fuel with
  | O => (data, j)
  | S fuel' =>
    let i := scan_up (S j - i) (fun i => Less data i a) i j in
    let j := scan_down (S j - i) (fun j => negb (Less data j a)) i j in
    if (j <? i)%nat then (data, j)
    else partition_loop fuel' (Swap data i j) a (S i) (j - 1)
  end.

Definition partition_func (data : list A) (a b pivot : nat)
  : list A * nat * bool :=
  let data := Swap data a pivot in
  let i := (a + 1)%nat in
  let j := (b - 1)%nat in
  let i := scan_up (S j - i) (fun i => Less data i a) i j in
  let j := scan_down (S j - i) (fun j => negb (Less data j a)) i j in
  if (j <? i)%nat then (Swap data j a, j, true)
  else
    let data := Swap data i j in
    let '(data, j) := partition_loop (b - a) data a (S i) (j - 1) in
    (Swap data j a, j, false).

Fixpoint partitionEqual_loop (fuel : nat) (data : list A) (a i j : nat)
  : list A * nat :=
  match fuel with
  | O => (data, i)
  | S fuel' =>
    let i := scan_up (S j - i) (fun i => negb (Less data a i)) i j in
    let j := scan_down (S j - i) (fun j => Less data a j) i j in
    if (j <? i)%nat then (data, i)
    else partitionEqual_loop fuel' (Swap data i j) a (S i) (j - 1)
  end.

Definition partitionEqual_func (data : list A) (a b pivot : nat)
  : list A * nat :=
  let data := Swap data a pivot in
  partitionEqual_loop (b - a) data a (a + 1) (b - 1).

(* for j := i - 1; j >= 1; j-- { if !Less(j, j-1) { break }; Swap } *)
Fixpoint shift_left (data : list A) (j : nat) : list A :=
  match j with
  | O => data
  | S j' =>
    if negb (Less data j j') then data
    else shift_left (Swap data j j') j'
  end.

(* for j := i + 1; j < b; j++ { if !Less(j, j-1) { break }; Swap } *)
Fixpoint shift_right (n : nat) (data : list A) (j : nat) : list A :=
  match n with
  | O => data
  | S n' =>
    if negb (Less data j (j - 1)) then data
    else shift_right n' (Swap data j (j - 1)) (S j)
  end.

Definition maxSteps : nat := 5.
Definition shortestShifting : nat := 50.

Fixpoint partialInsertionSort_loop (steps : nat) (data : list A)
         (a b i : nat) : list A * bool :=
  match steps with
  | O => (data, false)
  | S steps' =>
    let i :=
      scan_up (b - i) (fun i => negb (Less data i (i - 1))) i (b - 1) in
    if (i =? b)%nat then (data, true)
    else if (b - a <? shortestShifting)%nat then (data, false)
    else
      let data := Swap data i (i - 1) in
      let data := if (2 <=? i - a)%nat then shift_left data (i - 1)
                  else data in
      let data := if (2 <=? b - i)%nat
                  then shift_right (b - (i + 1)) data (i + 1)
                  else data in
      partialInsertionSort_loop steps' data a b i
  end.

Definition partialInsertionSort_func (data : list A) (a b : nat)
  : list A * bool :=
  partialInsertionSort_loop maxSteps data a b (a + 1).

(* bits.Len *)
Definition bitsLen (n : nat) : nat :=
  match n with O => O | _ => S (Nat.log2 n) end.

(* xorshift.Next on 64 bits *)
Definition xorshiftNext (r : Z) : Z :=
  let m := 2 ^ 64 in
  let r := Z.lxor r (Z.shiftl r 13 mod m) in
  let r := Z.lxor r (Z.shiftr r 7) in
  Z.lxor r (Z.shiftl r 17 mod m).

Definition breakPatterns_func (data : list A) (a b : nat) : list A :=
  let length := (b - a)%nat in
  if (8 <=? length)%nat then
    let modulus := Z.shiftl 1 (Z.of_nat (bitsLen length)) in
    let idx := (a + length / 4 * 2 - 1)%nat in
    let step '(data, random) (i : nat) :=
      let random := xorshiftNext random in
      let other := Z.to_nat (Z.land random (modulus - 1)) in
      let other := if (length <=? other)%nat then (other - length)%nat
                   else other in
      (Swap data (idx - 1 + i) (a + other), random) in
    (fold_left step [0; 1; 2]%nat (data, Z.of_nat length)).1
  else data.

Inductive sortedHint := unknownHint | increasingHint | decreasingHint.

(* order2_func *)
Definition order2_func (data : list A) (a b swaps : nat)
  : nat * nat * nat :=
  if Less data b a then (b, a, S swaps) else (a, b, swaps).

Definition median_func (data : list A) (a b c swaps : nat) : nat * nat :=
  let '(a, b, swaps) := order2_func data a b swaps in
  let '(b, c, swaps) := order2_func data b c swaps in
  let '(a, b, swaps) := order2_func data a b swaps in
  (b, swaps).

Definition medianAdjacent_func (data : list A) (a swaps : nat)
  : nat * nat :=
  median_func data (a - 1) a (a + 1) swaps.

Definition shortestNinther : nat := 50.
Definition maxSwaps : nat := 4 * 3.

Definition choosePivot_func (data : list A) (a b : nat)
  : nat * sortedHint :=
  let l := (b - a)%nat in
  let i := (a + l / 4 * 1)%nat in
  let j := (a + l / 4 * 2)%nat in
  let k := (a + l / 4 * 3)%nat in
  let '(j, swaps) :=
    if (8 <=? l)%nat then
      let '(i, j, k, swaps) :=
        if (shortestNinther <=? l)%nat then
          let '(i, swaps) := medianAdjacent_func data i O in
          let '(j, swaps) := medianAdjacent_func data j swaps in
          let '(k, swaps) := medianAdjacent_func data k swaps in
          (i, j, k, swaps)
        else (i, j, k, O) in
      median_func data i j k swaps
    else (j, O) in
  if (swaps =? 0)%nat then (j, increasingHint)
  else if (swaps =? maxSwaps)%nat then (j, decreasingHint)
  else (j, unknownHint).

Fixpoint reverseRange_loop (n : nat) (data : list A) (i j : nat)
  : list A :=
  match n with
  | O => data
  | S n' =>
    if (i <? j)%nat then reverseRange_loop n' (Swap data i j) (S i) (j - 1)
    else data
  end.

Definition reverseRange_func (data : list A) (a b : nat) : list A :=
  reverseRange_loop (b - a) data a (b - 1).

Definition maxInsertion : nat := 12.

Definition isIncreasing (h : sortedHint) : bool :=
  match h with increasingHint => true | _ => false end.

(** [pdqsort_func] sorts [data[a:b]]; one unit of [fuel] is spent per
    turn of its loop and per recursive call.  A recursive call starts with
    its own flags, both true; the next turn of the loop carries the flags
    of the turn before. *)
Fixpoint pdqsort_fuel (fuel : nat) (data : list A) (a b limit : nat)
         (wasBalanced wasPartitioned : bool) : list A :=
  match fuel with
  | O => data
  | S fuel' =>
    let length := (b - a)%nat in
    if (length <=? maxInsertion)%nat then insertionSort_func data a b
    else if (limit =? 0)%nat then heapSort_func data a b
    else
      let '(data, limit) :=
        if negb wasBalanced
        then (breakPatterns_func data a b, (limit - 1)%nat)
        else (data, limit) in
      let '(pivot, hint) := choosePivot_func data a b in
      let '(data, pivot, hint) :=
        match hint with
        | decreasingHint =>
          (reverseRange_func data a b, (b - 1 - (pivot - a))%nat,
           increasingHint)
        | _ => (data, pivot, hint)
        end in
      let '(data, sorted) :=
        if wasBalanced && wasPartitioned && isIncreasing hint
        then partialInsertionSort_func data a b
        else (data, false) in
      if sorted then data
      else if (0 <? a)%nat && negb (Less data (a - 1) pivot) then
        let '(data, mid) := partitionEqual_func data a b pivot in
        pdqsort_fuel fuel' data mid b limit wasBalanced wasPartitioned
      else
        let '(data, mid, alreadyPartitioned) :=
          partition_func data a b pivot in
        let leftLen := (mid - a)%nat in
        let rightLen := (b - mid)%nat in
        let balanceThreshold := (length / 8)%nat in
        if (leftLen <? rightLen)%nat then
          let data := pdqsort_fuel fuel' data a mid limit true true in
          pdqsort_fuel fuel' data (mid + 1) b limit
                       (balanceThreshold <=? leftLen)%nat
                       alreadyPartitioned
        else
          let data := pdqsort_fuel fuel' data (mid + 1) b limit true true in
          pdqsort_fuel fuel' data a mid limit
                       (balanceThreshold <=? rightLen)%nat
                       alreadyPartitioned
  end.

Definition pdqsort_func (data : list A) (a b limit : nat) : list A :=
  pdqsort_fuel (S (b - a)) data a b limit true true.

(** [sort.Slice] *)
Definition Slice (data : list A) : list A :=
  let length := List.length data in
  pdqsort_func data O length (bitsLen length).

End Impl.

Section Ranges.
Context {A : Type}.

(* data' is data with the elements of data[a:b] in another order. *)
Definition RangePerm (a b : nat) (data data' : list A) : Prop :=
  Permutation data data'
  /\ forall k, (k < a \/ b <= k)%nat -> data' !! k = data !! k.

(* data[a:b] is sorted. *)
Definition SortedRange (less : A -> A -> bool) (a b : nat)
           (data : list A) : Prop :=
  forall i j x y, (a <= i)%nat -> (i < j)%nat -> (j < b)%nat ->
                  data !! i = Some x -> data !! j = Some y ->
                  less y x = false.

(* No element of data[a:b] is less than the element before the range. *)
Definition LowerBound (less : A -> A -> bool) (a b : nat) (data : list A)
  : Prop :=
  forall x k y, (0 < a)%nat -> data !! (a - 1)%nat = Some x ->
                (a <= k < b)%nat -> data !! k = Some y -> less y x = false.

(* The nodes lo, lo + 1, ... of the heap data[first:first+hi] are not less
   than their children. *)
Definition Heap (less : A -> A -> bool) (first lo hi : nat) (data : list A)
  : Prop :=
  forall p c x y, (lo <= p)%nat -> (c < hi)%nat ->
                  (c = 2 * p + 1 \/ c = 2 * p + 2)%nat ->
                  data !! (first + p)%nat = Some x ->
                  data !! (first + c)%nat = Some y -> less x y = false.

(* data[mid] is p, no element of data[a:mid] is above it and no element of
   data[mid+1:b] below it. *)
Definition Partitioned (less : A -> A -> bool) (a mid b : nat) (p : A)
           (data : list A) : Prop :=
  data !! mid = Some p
  /\ (forall k x, (a <= k < mid)%nat -> data !! k = Some x ->
                  less p x = false)
  /\ (forall k x, (mid < k < b)%nat -> data !! k = Some x ->
                  less x p = false).
End Ranges.

End sort.

(** ** encoding/json *)

Module json.

Definition hex (d : Z) : ascii :=
  if d <? 10 then byte_of (48 + d) else byte_of (97 + d - 10).

Definition dquote : string := String (byte_of 34) EmptyString.
Definition backslash : string := String (byte_of 92) EmptyString.

(* htmlSafeSet: the ASCII bytes written as they are *)
Definition htmlSafe (b : Z) : bool :=
  (0x20 <=? b) && negb ((b =? 34) || (b =? 92) || (b =? 60) || (b =? 62)
                        || (b =? 38)).

(** [appendString] with HTML escaping, without the enclosing quotes. *)
Fixpoint appendString_fuel (fuel : nat) (src : string) : string :=
  match fuel with
  | O => EmptyString
  | S fuel' =>
    match src with
    | EmptyString => EmptyString
    | String c t =>
      let b := byteZ c in
      if b <? utf8.RuneSelf then
        (if htmlSafe b then String c EmptyString
         else if (b =? 92) || (b =? 34) then backslash +:+ String c EmptyString
         else if b =? 8 then backslash +:+ "b"
         else if b =? 12 then backslash +:+ "f"
         else if b =? 10 then backslash +:+ "n"
         else if b =? 13 then backslash +:+ "r"
         else if b =? 9 then backslash +:+ "t"
         else backslash +:+ "u00"
                +:+ String (hex (Z.shiftr b 4))
                      (String (hex (Z.land b 0xF)) EmptyString))
        +:+ appendString_fuel fuel' t
      else
        let '(r, size) := utf8.DecodeRuneInString src in
        (if (r =? utf8.RuneError) && (size =? 1)%nat
         then backslash +:+ "ufffd"
         else if (r =? 0x2028) || (r =? 0x2029)
         then backslash +:+ "u202"
                +:+ String (hex (Z.land r 0xF)) EmptyString
         else take_s size src)
        +:+ appendString_fuel fuel' (drop_s size src)
    end
  end.

Definition encodeString (s : string) : string :=
  dquote +:+ appendString_fuel (String.length s) s +:+ dquote.

Fixpoint join (sep : string) (l : list string) : string :=
  match l with
  | [] => EmptyString
  | [x] => x
  | x :: rest => x +:+ sep +:+ join sep rest
  end.

(* A struct of string fields: the fields in declaration order, under the
   names of their tags. *)
Definition encodeStruct (fields : list (string * string)) : string :=
  "{" +:+ join "," (map (fun '(name, v) =>
                           encodeString name +:+ ":" +:+ encodeString v)
                        fields) +:+ "}".

(** [json.Marshal] of a slice of such structs: [null] for the nil slice,
    an array otherwise.  It cannot fail on these values. *)
Definition Marshal {A} (fields : A -> list (string * string))
           (data : slice A) : string :=
  match data with
  | nil_slice => "null"
  | mk_slice l =>
    "[" +:+ join "," (map (fun a => encodeStruct (fields a)) l) +:+ "]"
  end.

End json.

(** ** bufio

    A [Scanner] with the default split function reads a text line by line:
    the lines are cut at the newlines, one carriage return at the end of a
    line is dropped, and a line that does not fit the buffer is an error. *)

Module bufio.

Definition MaxScanTokenSize : nat := 64 * 1024.

Definition newline : ascii := byte_of 10.
Definition cr : ascii := byte_of 13.

(* The segments between the newlines; nothing follows a final newline. *)
Fixpoint segments (s : string) : list string :=
  match s with
  | EmptyString => []
  | String c t =>
    if Ascii.eqb c newline then EmptyString :: segments t
    else
      match segments t with
      | [] => [String c EmptyString]
      | seg :: rest => String c seg :: rest
      end
  end.

Definition dropCR (line : string) : string :=
  if strings.HasSuffix line (String cr EmptyString)
  then take_s (String.length line - 1) line else line.

(** The lines [Scanner.Text] yields until [Scanner.Scan] is false, or
    the error of [Scanner.Err]. *)
Definition ScanLines (content : string) : list string + error :=
  let segs := segments content in
  if existsb (fun seg => (MaxScanTokenSize <=? String.length seg)%nat) segs
  then inr (errorString "bufio.Scanner: token too long")
  else inl (map dropCR segs).

End bufio.

(** ** net/http *)

Module http.
Definition StatusNotFound : Z := 404.
End http.

(** ** io

    A [Reader] yields its content, unless the reading breaks off: [ReadAll]
    returns what it has read so far, and the error that stopped it. *)

Module io.

Record Reader := { content : string; breaks : option (nat * error) }.

Definition ReadAll (r : Reader) : string * option error :=
  match breaks r with
  | Some (n, err) => (take_s n (content r), Some err)
  | None => (content r, None)
  end.

End io.

(** ** The feed parser ([gofeed]) *)

Record Item := {
  ItemTitle : string;
  ItemLink : string;
  Published : string;
  Updated : string }.

Record Feed := {
  FeedTitle : string;
  FeedLink : string;
  Items : list Item }.

(** ** The world outside the program

    The network, the clock, the feed parser and the remote store are not
    in the program's hands.  A [World] fixes what they answer during one
    run; the [State] records how far the run has got. *)

(* How a call of the remote store fails: with an error and, when the
   server has answered, with the status of its response; when nothing came
   back (the request did not get through) the client hands back the error
   and no response. *)
Record Failure := { cause : error; status : option Z }.

Record World := {
  (* the zone of the host, [time.Local] *)
  Local : time.Location;
  (* the successive readings of [time.Now] *)
  Now : nat -> time.Time;
  (* [http.Get] and the reading of the body, for the n-th request: what was
     read of the body of the response, whatever its status, or the
     transport error *)
  http_Get : nat -> string -> string + error;
  (* [gofeed.Parser.ParseString] *)
  ParseString : string -> Feed + error;
  (* the n-th call of the remote store fails *)
  fault : nat -> option Failure;
  (* the n-th call, when it fails, has taken effect in the store all the
     same (the answer was lost on its way back) *)
  landed : nat -> bool;
  (* the content sent in answer to the n-th call cannot be decoded:
     [RepositoryContent.GetContent] returns this error *)
  undecodable : nat -> option error;
  (* the reading of the body sent in answer to the n-th call breaks off
     after so many bytes, with this error *)
  broken : nat -> option (nat * error);
  (* the identity token GitHub gives to a content, its blob SHA *)
  blobSHA : string -> string;
  (* [os.Open] and the reading of a local file *)
  readFile : string -> string + error;
  (* [strconv.Quote], and [fmt.Sprintf] of a format without operands *)
  Quote : string -> string;
  Sprintf0 : string -> string }.

Record State := {
  ticks : nat;                   (* readings of the clock so far *)
  requests : list string;        (* the URLs passed to http.Get so far *)
  calls : nat;                   (* calls of the remote store so far *)
  objects : gmap string string;  (* the remote store: path to content;
                                    the paths hold files, if anything *)
  logged : list string;          (* the messages passed to logError so far *)
  stdout : list string }.        (* what was printed *)

Definition M (A : Type) : Type := State -> A * State.

#[global] Instance M_ret : MRet M := fun A (x : A) st => (x, st).
#[global] Instance M_bind : MBind M :=
  fun A B (f : A -> M B) (m : M A) st => let '(x, st') := m st in f x st'.

(** A function of the GitHub program returns, or stops the program in a
    panic (the runtime error of a nil pointer that is dereferenced); the
    state is then the state the program was stopped in. *)
Inductive outcome (A : Type) : Type :=
| Returned (x : A)
| Panicked.
Arguments Returned {A} x.
Arguments Panicked {A}.

Definition G (A : Type) : Type := State -> outcome A * State.

#[global] Instance G_ret : MRet G := fun A (x : A) st => (Returned x, st).
#[global] Instance G_bind : MBind G :=
  fun A B (f : A -> G B) (m : G A) st =>
    match m st with
    | (Returned x, st') => f x st'
    | (Panicked, st') => (Panicked, st')
    end.

Definition lift {A} (m : M A) : G A := fun st =>
  let '(x, st') := m st in (Returned x, st').

Definition panic {A} : G A := fun st => (Panicked, st).

Definition nl : string := String (byte_of 10) EmptyString.

Section Program.
Context (w : World).

Definition time_Now : M time.Time := fun st =>
  (Now w (ticks st),
   {| ticks := S (ticks st); requests := requests st; calls := calls st;
      objects := objects st; logged := logged st; stdout := stdout st |}).

Definition get (feedURL : string) : M (string + error) := fun st =>
  (http_Get w (length (requests st)) feedURL,
   {| ticks := ticks st; requests := requests st ++ [feedURL];
      calls := calls st; objects := objects st; logged := logged st;
      stdout := stdout st |}).

Definition Print (text : string) : M unit := fun st =>
  (tt,
   {| ticks := ticks st; requests := requests st; calls := calls st;
      objects := objects st; logged := logged st;
      stdout := stdout st ++ [text] |}).

(* The entry of a call of logError in the record of the run. *)
Definition note (message : string) : M unit := fun st =>
  (tt,
   {| ticks := ticks st; requests := requests st; calls := calls st;
      objects := objects st; logged := logged st ++ [message];
      stdout := stdout st |}).

(** One call of the remote store: it runs [op] on the stored objects; or
    it fails as the world says, and [op] has then been run or not, as the
    world says. *)
Definition call {A}
           (op : gmap string string -> (A + Failure) * gmap string string)
  : M (A + Failure) := fun st =>
  let st' objs :=
    {| ticks := ticks st; requests := requests st; calls := S (calls st);
       objects := objs; logged := logged st; stdout := stdout st |} in
  match fault w (calls st) with
  | Some f =>
    (inr f,
     st' (if landed w (calls st) then (op (objects st)).2 else objects st))
  | None => let '(r, objs) := op (objects st) in (r, st' objs)
  end.

(* The server refuses a call, with a status. *)
Definition refused {A} (code : Z) (text : string) : A + Failure :=
  inr {| cause := errorString text; status := Some code |}.

Definition errorText (err : error) : string := Error (Quote w) err.

(** *** Shared by the two programs *)

Definition formats : list time.Layout :=
  [time.RFC3339; time.RFC3339Nano; time.RFC1123Z; time.RFC1123].

Fixpoint parseTime_range (formats : list time.Layout) (timeStr : string)
  : time.Time * option error :=
  match formats with
  | [] =>
    (time.zero, Some (errorString ("unable to parse time: " +:+ timeStr)))
  | format :: rest =>
    match time.Parse (Local w) format timeStr with
    | (t, None) => (t, None)
    | (_, Some _) => parseTime_range rest timeStr
    end
  end.

Definition parseTime (timeStr : string) : time.Time * option error :=
  parseTime_range formats timeStr.

Definition formatTime (t : time.Time) : string :=
  time.Format time.layoutDate t.

Definition getBeijingTime : M time.Time :=
  now ← time_Now;
  mret (time.In now (time.FixedZone "CST" (8 * 3600))).

(* getBeijingTime().Format("Mon Jan 2 15:04:2006") *)
Definition stamp : M string :=
  t ← getBeijingTime; mret (time.Format time.layoutLog t).

(* The stamp made from the k-th reading of the clock. *)
Definition stampAt (k : nat) : string :=
  time.Format time.layoutLog
              (time.In (Now w k) (time.FixedZone "CST" (8 * 3600))).

(* fmt.Sprintf("[%s] [<stage>] %s: %v", stamp, subject, err) *)
Definition entry (ts stage subject : string) (err : error) : string :=
  "[" +:+ ts +:+ "] [" +:+ stage +:+ "] " +:+ subject +:+ ": "
      +:+ errorText err.

(* fmt.Sprintf("[%s] [<stage>] %v", stamp, err) *)
Definition entry0 (ts stage : string) (err : error) : string :=
  "[" +:+ ts +:+ "] [" +:+ stage +:+ "] " +:+ errorText err.

(* The order in which sort.Slice is asked to put the articles:
   date1.After(date2), on the dates parsed again, errors dropped. *)
Definition dateLess (date1 date2 : string) : bool :=
  time.After (time.Parse (Local w) time.layoutDate date1).1
             (time.Parse (Local w) time.layoutDate date2).1.

End Program.

(** A sorting function, as [sort.Slice] is for the programs. *)
Definition Sorter : Type := forall A, (A -> A -> bool) -> list A -> list A.

(** ** Github/main.go *)

Module Github.

Record Article := {
  DomainName : string;
  Name : string;
  Title : string;
  Link : string;
  Date : string }.

(* the json tags of the struct, in the order of its fields *)
Definition jsonFields (a : Article) : list (string * string) :=
  [("domainName", DomainName a); ("name", Name a); ("title", Title a);
   ("link", Link a); ("date", Date a)].

(* What Repositories.GetContents answers: a file, with what its method
   GetContent returns and its SHA; or an error, with the status of the
   response when there is a response. *)
Record RepositoryContent := { GetContent : string + error; SHA : string }.

Inductive Contents :=
| Found (file : RepositoryContent)            (* err == nil *)
| NoFile (resp : option Z) (err : error).     (* err != nil *)

Section Program.
Context (w : World) (sortSlice : Sorter).

Definition GetContents (filePath : string) : M Contents := fun st =>
  let '(r, st') :=
    call w (fun objs =>
              (match objs !! filePath with
               | Some c => inl c
               | None => refused http.StatusNotFound "404 Not Found"
               end, objs)) st in
  (match r with
   | inr f => NoFile (status f) (cause f)
   | inl c =>
     Found {| GetContent := match undecodable w (calls st) with
                            | Some err => inr err
                            | None => inl c
                            end;
              SHA := blobSHA w c |}
   end, st').

(* Repositories.CreateFile: refused when the path is taken *)
Definition CreateFile (filePath content : string) : M (option error) :=
  r ← call w (fun objs =>
         match objs !! filePath with
         | None => (inl tt, <[filePath := content]> objs)
         | Some _ => (refused 422 "422 Unprocessable Entity", objs)
         end);
  mret (match r with inl _ => None | inr f => Some (cause f) end).

(* Repositories.UpdateFile: refused unless the SHA is the one of the
   stored content *)
Definition UpdateFile (filePath content sha : string) : M (option error) :=
  r ← call w (fun objs =>
         match objs !! filePath with
         | Some old =>
           if String.eqb sha (blobSHA w old)
           then (inl tt, <[filePath := content]> objs)
           else (refused 409 "409 Conflict", objs)
         | None => (refused http.StatusNotFound "404 Not Found", objs)
         end);
  mret (match r with inl _ => None | inr f => Some (cause f) end).

(* [err != nil && resp.StatusCode == http.StatusNotFound] reads the status
   of the response whenever there is an error: without a response the
   program panics there. *)
Definition logMessage (message fileName : string) : G unit :=
  let filePath := "api/" +:+ fileName in
  let fileContent := message +:+ nl +:+ nl in
  r ← lift (GetContents filePath);
  match r with
  | NoFile None _ => panic
  | NoFile (Some StatusCode) err =>
    if StatusCode =? http.StatusNotFound then
      err ← lift (CreateFile filePath fileContent);
      match err with
      | Some err =>
        lift (Print ("error creating " +:+ fileName +:+ " in GitHub: "
                       +:+ errorText w err +:+ nl))
      | None => mret tt
      end
    else
      lift (Print ("error checking " +:+ fileName +:+ " in GitHub: "
                     +:+ errorText w err +:+ nl))
  | Found file =>
    match GetContent file with
    | inr err =>
      lift (Print ("error decoding " +:+ fileName +:+ " content: "
                     +:+ errorText w err +:+ nl))
    | inl decodedContent =>
      let updatedContent := decodedContent +:+ fileContent in
      err ← lift (UpdateFile filePath updatedContent (SHA file));
      match err with
      | Some err =>
        lift (Print ("error updating " +:+ fileName +:+ " in GitHub: "
                       +:+ errorText w err +:+ nl))
      | None => mret tt
      end
    end
  end.

Definition logError (message : string) : G unit :=
  lift (note message);; logMessage message "error.log".

(* The time fields of an entry are tried: published, then updated. *)
Definition itemTime (item : Item) : time.Time * option error :=
  let '(publishedTime, err) := parseTime w (Published item) in
  match err with
  | Some _ =>
    if negb (String.eqb (Updated item) EmptyString)
    then parseTime w (Updated item)
    else (publishedTime, err)
  | None => (publishedTime, err)
  end.

(* One turn of the loop of fetchRSS. *)
Definition fetchOne (feedURL : string) (articles : slice Article)
  : G (slice Article) :=
  resp ← lift (get w feedURL);
  match resp with
  | inr err =>
    ts ← lift (stamp w);
    logError (entry w ts "Get RSS error" feedURL err);;
    mret articles
  | inl bodyString =>
    let cleanBody := cleanXMLContent bodyString in
    match ParseString w cleanBody with
    | inr err =>
      ts ← lift (stamp w);
      logError (entry w ts "Parse RSS error" feedURL err);;
      mret articles
    | inl feed =>
      let mainSiteURL := FeedLink feed in
      domainName ←
        match extractDomain mainSiteURL with
        | (_, Some err) =>
          ts ← lift (stamp w);
          logError (entry w ts "Extract domain error" mainSiteURL err);;
          mret "unknown"
        | (domainName, None) => mret domainName
        end;
      match Items feed with
      | item :: _ =>
        let '(publishedTime, err) := itemTime item in
        publishedTime ←
          match err with
          | Some err =>
            ts ← lift (stamp w);
            logError (entry w ts "Getting article time error"
                            (ItemTitle item) err);;
            lift (time_Now w)
          | None => mret publishedTime
          end;
        mret (append articles
                {| DomainName := domainName;
                   Name := FeedTitle feed;
                   Title := ItemTitle item;
                   Link := ItemLink item;
                   Date := formatTime publishedTime |})
      | [] => mret articles
      end
    end
  end.

Fixpoint fetchAll (feeds : list string) (articles : slice Article)
  : G (slice Article) :=
  match feeds with
  | [] => mret articles
  | feedURL :: rest =>
    articles ← fetchOne feedURL articles; fetchAll rest articles
  end.

Definition less (a1 a2 : Article) : bool :=
  dateLess w (Date a1) (Date a2).

Definition fetchRSS (feeds : list string)
  : G (slice Article * option error) :=
  articles ← fetchAll feeds nil_slice;
  mret (map_slice (sortSlice Article less) articles, None).

(* As in logMessage, the status of the response is read whenever
   GetContents returns an error. *)
Definition saveToGitHub (data : slice Article) : G (option error) :=
  let jsonData := json.Marshal jsonFields data in
  let filePath := "api/rss_data.json" in
  r ← lift (GetContents filePath);
  match r with
  | NoFile None _ => panic
  | NoFile (Some StatusCode) err =>
    if StatusCode =? http.StatusNotFound then
      err ← lift (CreateFile filePath jsonData);
      match err with
      | Some err =>
        mret (Some (errorString ("error creating rss_data.json in GitHub: "
                                   +:+ errorText w err)))
      | None => mret None
      end
    else
      mret (Some (errorString ("error checking rss_data.json in GitHub: "
                                 +:+ errorText w err)))
  | Found file =>
    err ← lift (UpdateFile filePath jsonData (SHA file));
    match err with
    | Some err =>
      mret (Some (errorString ("error updating rss_data.json in GitHub: "
                                 +:+ errorText w err)))
    | None => mret None
    end
  end.

(* Here too the status of the response is read whenever GetContents
   returns an error; a content that cannot be decoded is a failure like the
   others. *)
Definition readFeedsFromGitHub : G (list string * option error) :=
  let filePath := "api/rss_feeds.txt" in
  let fail (errMsg : string) : G (list string * option error) :=
    ts ← lift (stamp w);
    logError ("[" +:+ ts +:+ "] [Read RSS file error] " +:+ errMsg);;
    mret ([], Some (errorString (Sprintf0 w errMsg))) in
  r ← lift (GetContents filePath);
  match r with
  | NoFile None _ => panic
  | NoFile (Some StatusCode) err =>
    if StatusCode =? http.StatusNotFound then
      fail ("Error: " +:+ filePath +:+ " not found in GitHub repository")
    else
      fail ("Error fetching " +:+ filePath +:+ " from GitHub: "
              +:+ errorText w err)
  | Found file =>
    match GetContent file with
    | inr err =>
      fail ("Error decoding " +:+ filePath +:+ " content: "
              +:+ errorText w err)
    | inl content =>
      match bufio.ScanLines content with
      | inr err =>
        fail ("Error reading RSS file content: " +:+ errorText w err)
      | inl feeds => mret (feeds, None)
      end
    end
  end.

Definition closing : string :=
  "Stop writing code and go ride a road bike now!" +:+ nl.

Definition main : G unit :=
  '(rssFeeds, err) ← readFeedsFromGitHub;
  match err with
  | Some err =>
    ts ← lift (stamp w);
    logError (entry0 w ts "Read RSS feeds error" err);;
    lift (Print ("Error reading RSS feeds from GitHub: " +:+ errorText w err
                   +:+ nl))
  | None =>
    '(articles, err) ← fetchRSS rssFeeds;
    match err with
    | Some err =>
      ts ← lift (stamp w);
      logError (entry0 w ts "Fetch RSS error" err);;
      lift (Print ("Error fetching RSS feeds: " +:+ errorText w err +:+ nl))
    | None =>
      err ← saveToGitHub articles;
      match err with
      | Some err =>
        ts ← lift (stamp w);
        logError (entry0 w ts "Save data to GitHub error" err);;
        lift (Print ("Error saving data to GitHub: " +:+ errorText w err
                       +:+ nl))
      | None => lift (Print closing)
      end
    end
  end.

End Program.
End Github.

(** ** COS/main.go *)

Module COS.

Record Article := {
  Name : string;
  Title : string;
  Link : string;
  Date : string }.

Definition jsonFields (a : Article) : list (string * string) :=
  [("name", Name a); ("title", Title a); ("link", Link a);
   ("date", Date a)].

(* What Object.Get answers: a response whose body is still to be read, or
   an error. *)
Inductive Object :=
| Found (body : io.Reader)
| NoSuchKey                    (* a cos.ErrorResponse with this code *)
| Failed (err : error).

Section Program.
Context (w : World) (sortSlice : Sorter).

Definition Get (key : string) : M Object := fun st =>
  let '(r, st') :=
    call w (fun objs => (inl (objs !! key) : option string + Failure, objs))
         st in
  (match r with
   | inr f => Failed (cause f)
   | inl None => NoSuchKey
   | inl (Some c) =>
     Found {| io.content := c; io.breaks := broken w (calls st) |}
   end, st').

(* Object.Put creates or replaces the object *)
Definition Put (key content : string) : M (option error) :=
  r ← call w (fun objs => (inl tt, <[key := content]> objs));
  mret (match r with inl _ => None | inr f => Some (cause f) end).

Definition putLog (existingLog message : string) : M unit :=
  let newLog := existingLog +:+ (message +:+ nl +:+ nl) in
  err ← Put "rss/error.log" newLog;
  match err with
  | Some err =>
    Print ("error saving error log to COS: " +:+ errorText w err +:+ nl)
  | None => mret tt
  end.

(* [existingLog, _ = io.ReadAll(resp.Body)]: the error of the reading is
   dropped, and what was read is taken for the log. *)
Definition logError (message : string) : M unit :=
  note message;;
  r ← Get "rss/error.log";
  match r with
  | NoSuchKey => putLog EmptyString message
  | Failed err =>
    Print ("error downloading error.log from COS: " +:+ errorText w err
             +:+ nl)
  | Found body =>
    let '(existingLog, _) := io.ReadAll body in
    putLog existingLog message
  end.

(* The time fields of an entry are tried: published if it is there,
   updated if published is not. *)
Definition itemTime (item : Item) : time.Time * option error :=
  if negb (String.eqb (Published item) EmptyString)
  then parseTime w (Published item)
  else if negb (String.eqb (Updated item) EmptyString)
  then parseTime w (Updated item)
  else (time.zero, None).

(* One turn of the loop of fetchRSS. *)
Definition fetchOne (feedURL : string) (articles : slice Article)
  : M (slice Article) :=
  resp ← get w feedURL;
  match resp with
  | inr err =>
    ts ← stamp w;
    logError (entry w ts "Get RSS error" feedURL err);;
    mret articles
  | inl bodyString =>
    let cleanBody := cleanXMLContent bodyString in
    match ParseString w cleanBody with
    | inr err =>
      ts ← stamp w;
      logError (entry w ts "Parse RSS error" feedURL err);;
      mret articles
    | inl feed =>
      match Items feed with
      | item :: _ =>
        let '(publishedTime, err) := itemTime item in
        publishedTime ←
          match err with
          | Some err =>
            ts ← stamp w;
            logError (entry w ts "Getting article time error"
                            (ItemTitle item) err);;
            time_Now w
          | None => mret publishedTime
          end;
        mret (append articles
                {| Name := FeedTitle feed;
                   Title := ItemTitle item;
                   Link := ItemLink item;
                   Date := formatTime publishedTime |})
      | [] => mret articles
      end
    end
  end.

Fixpoint fetchAll (feeds : list string) (articles : slice Article)
  : M (slice Article) :=
  match feeds with
  | [] => mret articles
  | feedURL :: rest =>
    articles ← fetchOne feedURL articles; fetchAll rest articles
  end.

Definition less (a1 a2 : Article) : bool :=
  dateLess w (Date a1) (Date a2).

Definition fetchRSS (feeds : list string)
  : M (slice Article * option error) :=
  articles ← fetchAll feeds nil_slice;
  mret (map_slice (sortSlice Article less) articles, None).

Definition saveToCOS (data : slice Article) : M (option error) :=
  let jsonData := json.Marshal jsonFields data in
  err ← Put "rss/rss_data.json" jsonData;
  match err with
  | Some err =>
    mret (Some (errorString ("error saving data to COS: "
                               +:+ errorText w err)))
  | None => mret None
  end.

Definition readFeedsFromFile (filePath : string)
  : list string * option error :=
  match readFile w filePath with
  | inr err =>
    ([], Some (errorString ("error opening file: " +:+ errorText w err)))
  | inl content =>
    match bufio.ScanLines content with
    | inr err =>
      ([], Some (errorString ("error reading file: "
                                +:+ errorText w err)))
    | inl feeds => (feeds, None)
    end
  end.

Definition closing : string :=
  "Stop writing code and go ride a road bike now!" +:+ nl.

Definition main : M unit :=
  let '(rssFeeds, err) := readFeedsFromFile "rss_feeds.txt" in
  match err with
  | Some err =>
    ts ← stamp w;
    logError (entry0 w ts "Read RSS feeds error" err);;
    Print ("Error reading RSS feeds from file: " +:+ errorText w err
             +:+ nl)
  | None =>
    '(articles, err) ← fetchRSS rssFeeds;
    match err with
    | Some err =>
      ts ← stamp w;
      logError (entry0 w ts "Fetch RSS error" err);;
      Print ("Error fetching RSS feeds: " +:+ errorText w err +:+ nl)
    | None =>
      err ← saveToCOS articles;
      match err with
      | Some err =>
        ts ← stamp w;
        logError (entry0 w ts "Save data to COS error" err);;
        Print ("Error saving data to COS: " +:+ errorText w err +:+ nl)
      | None => Print closing
      end
    end
  end.

End Program.
End COS.

(** ** Sample runs *)

Definition st0 : State :=
  {| ticks := 0; requests := []; calls := 0; objects := ∅; logged := [];
     stdout := [] |}.

(* A clock that is read once a minute, from 26 July 2024, 10:00 UTC. *)
Definition sample_clock (n : nat) : time.Time :=
  time.Date 2024 7 26 10 (Z.of_nat n) 0 0 time.UTC.

Fixpoint assoc {B} (key : string) (table : list (string * B)) : option B :=
  match table with
  | [] => None
  | (k, v) :: rest => if String.eqb key k then Some v else assoc key rest
  end.

(** A world whose store never fails, and sends contents that are decoded
    and bodies that are read to their end: a feed URL in [table] answers
    with a body that parses to the feed next to it, any other URL cannot be
    reached. *)
Definition table_world (table : list (string * Feed)) : World :=
  {| Local := time.UTC;
     Now := sample_clock;
     http_Get := fun _ feedURL =>
       match assoc feedURL table with
       | Some _ => inl feedURL
       | None =>
         inr (urlError "Get" feedURL (errorString "dial tcp: no such host"))
       end;
     ParseString := fun body =>
       match assoc body table with
       | Some feed => inl feed
       | None => inr (errorString "Failed to detect feed type")
       end;
     fault := fun _ => None;
     landed := fun _ => false;
     undecodable := fun _ => None;
     broken := fun _ => None;
     blobSHA := fun content => content;
     readFile := fun name =>
       inr (errorString ("open " +:+ name +:+ ": no such file or directory"));
     Quote := fun s => json.dquote +:+ s +:+ json.dquote;
     Sprintf0 := fun format => format |}.

(* The k-th call, and no other. *)
Definition at_call {B} (k : nat) (x : B) (n : nat) : option B :=
  if (n =? k)%nat then Some x else None.

(* A world with another store: its calls fail as [f] says; the contents it
   sends are undecodable as [u] says; the reading of the bodies it sends
   breaks off as [b] says. *)
Definition failing (f : nat -> option Failure) (w : World) : World :=
  {| Local := Local w; Now := Now w; http_Get := http_Get w;
     ParseString := ParseString w; fault := f; landed := landed w;
     undecodable := undecodable w; broken := broken w;
     blobSHA := blobSHA w; readFile := readFile w; Quote := Quote w;
     Sprintf0 := Sprintf0 w |}.

Definition garbling (u : nat -> option error) (w : World) : World :=
  {| Local := Local w; Now := Now w; http_Get := http_Get w;
     ParseString := ParseString w; fault := fault w; landed := landed w;
     undecodable := u; broken := broken w;
     blobSHA := blobSHA w; readFile := readFile w; Quote := Quote w;
     Sprintf0 := Sprintf0 w |}.

Definition breaking (b : nat -> option (nat * error)) (w : World) : World :=
  {| Local := Local w; Now := Now w; http_Get := http_Get w;
     ParseString := ParseString w; fault := fault w; landed := landed w;
     undecodable := undecodable w; broken := b;
     blobSHA := blobSHA w; readFile := readFile w; Quote := Quote w;
     Sprintf0 := Sprintf0 w |}.

(* A store that sends its first body cut after one byte; a store whose
   first content cannot be decoded. *)
Definition cut_world : World :=
  breaking (at_call 0 (1%nat, errorString "unexpected EOF"))
           (table_world []).

Definition garbled_world : World :=
  garbling (at_call 0 (errorString "unsupported content encoding: none"))
           (table_world []).

Definition feed_of (title link published updated : string) : Feed :=
  {| FeedTitle := title; FeedLink := link;
     Items := [{| ItemTitle := "Post of " +:+ title;
                  ItemLink := link +:+ "/post";
                  Published := published; Updated := updated |}] |}.

(* Thirteen feeds: the first twelve published their last post on the same
   day, the thirteenth one day later. *)
Definition thirteen : list (string * Feed) :=
  map (fun name => (name, feed_of name ("https://" +:+ name)
                                  "2024-07-26T08:00:00Z" EmptyString))
      ["f00"; "f01"; "f02"; "f03"; "f04"; "f05"; "f06"; "f07"; "f08"; "f09";
       "f10"; "f11"]
  ++ [("f12", feed_of "f12" "https://f12" "2024-07-27T08:00:00Z" EmptyString)].

(* A feed without a date, one with a date only in its updated field and an
   unreadable published field, an empty feed with an unusable link. *)
Definition undated : Feed := feed_of "undated" "https://undated.example" "" "".

Definition updated_only : Feed :=
  feed_of "updated" "https://updated.example" "yesterday"
          "2024-07-20T08:00:00Z".

Definition empty_feed : Feed :=
  {| FeedTitle := "empty"; FeedLink := ":"; Items := [] |}.

Definition linkless : Feed := feed_of "linkless" "" "2024-07-20T08:00:00Z" "".


Definition with_port : Feed :=
  feed_of "port" "HTTP://blog.example:8080/feed" "2024-07-20T08:00:00Z" "".

(* The feed "up" answers and the feed "down" does not; the store answers
   its first call, and its second call gets no response. *)
Definition unheard_world : World :=
  failing (at_call 1 {| cause := errorString "dial tcp: i/o timeout";
                        status := None |})
          (table_world [("up", with_port)]).

(* A store that holds one object. *)
Definition st_with (path content : string) : State :=
  {| ticks := 0; requests := []; calls := 0;
     objects := {[ path := content ]}; logged := []; stdout := [] |}.

(** ** Vocabulary of the statements *)

Section Vocabulary.
Context (w : World).

(* A layout does not fit a time string. *)
Definition fails (timeStr : string) (format : time.Layout) : Prop :=
  (time.Parse (Local w) format timeStr).2 <> None.

(* What the GitHub program logs for the link of a feed, and the domain it
   keeps. *)
Definition domainLog (k : nat) (link : string) : list string :=
  match (extractDomain link).2 with
  | Some err => [entry w (stampAt w k) "Extract domain error" link err]
  | None => []
  end.

Definition domainKept (link : string) : string :=
  match extractDomain link with
  | (_, Some _) => "unknown"
  | (domainName, None) => domainName
  end.

(* What is logged for the time of an entry, and the time that is kept,
   when the clock has been read k times. *)
Definition timeLog (k : nat) (item : Item) (it : time.Time * option error)
  : list string :=
  match it.2 with
  | Some err =>
    [entry w (stampAt w k) "Getting article time error" (ItemTitle item) err]
  | None => []
  end.

Definition timeKept (k : nat) (it : time.Time * option error) : time.Time :=
  match it.2 with
  | Some _ => Now w (S k)
  | None => it.1
  end.

(* The feed and the entry a request yields: the n-th request, for
   feedURL, is answered, the body parses and the feed has an entry. *)
Definition yield (n : nat) (feedURL : string) : option (Feed * Item) :=
  match http_Get w n feedURL with
  | inl body =>
    match ParseString w (cleanXMLContent body) with
    | inl feed =>
      match Items feed with
      | item :: _ => Some (feed, item)
      | [] => None
      end
    | inr _ => None
    end
  | inr _ => None
  end.

(* The yields of a list of feeds requested from the n-th request on, in
   the order of the list. *)
Fixpoint yields (n : nat) (feeds : list string) : list (Feed * Item) :=
  match feeds with
  | [] => []
  | feedURL :: rest =>
    match yield n feedURL with
    | Some y => y :: yields (S n) rest
    | None => yields (S n) rest
    end
  end.

(* What one turn of the loop of the GitHub program has done when it is
   over: the feed was requested; the articles, the clock and the log are
   as the answer, the link of the feed and the time of its entry make
   them. *)
Definition Github_turn (feedURL : string) (arts : slice Github.Article)
           (st : State) (arts' : slice Github.Article) (st' : State) : Prop :=
  requests st' = (requests st ++ [feedURL])%list
  /\ match http_Get w (length (requests st)) feedURL with
     | inr err =>
       arts' = arts /\ ticks st' = S (ticks st)
       /\ logged st' =
            (logged st
             ++ [entry w (stampAt w (ticks st)) "Get RSS error" feedURL err])%list
     | inl body =>
       match ParseString w (cleanXMLContent body) with
       | inr err =>
         arts' = arts /\ ticks st' = S (ticks st)
         /\ logged st' =
              (logged st
               ++ [entry w (stampAt w (ticks st)) "Parse RSS error"
                         feedURL err])%list
       | inl feed =>
         let dlog := domainLog (ticks st) (FeedLink feed) in
         let k := (ticks st + length dlog)%nat in
         match Items feed with
         | [] =>
           arts' = arts /\ ticks st' = k
           /\ logged st' = (logged st ++ dlog)%list
         | item :: _ =>
           let it := Github.itemTime w item in
           let tlog := timeLog k item it in
           arts' = append arts
                     {| Github.DomainName := domainKept (FeedLink feed);
                        Github.Name := FeedTitle feed;
                        Github.Title := ItemTitle item;
                        Github.Link := ItemLink item;
                        Github.Date := formatTime (timeKept k it) |}
           /\ ticks st' = (k + 2 * length tlog)%nat
           /\ logged st' = (logged st ++ dlog ++ tlog)%list
         end
       end
     end.

(* An article is the article of a yield. *)
Definition Github_article_of (a : Github.Article) (y : Feed * Item) : Prop :=
  Github.Name a = FeedTitle y.1 /\ Github.Title a = ItemTitle y.2
  /\ Github.Link a = ItemLink y.2
  /\ Github.DomainName a = domainKept (FeedLink y.1).

Definition COS_article_of (a : COS.Article) (y : Feed * Item) : Prop :=
  COS.Name a = FeedTitle y.1 /\ COS.Title a = ItemTitle y.2
  /\ COS.Link a = ItemLink y.2.

(* The instant an article is ordered by: its date parsed again, the zero
   time when it does not parse. *)
Definition instant (date : string) : time.Time :=
  (time.Parse (Local w) time.layoutDate date).1.

End Vocabulary.

(* A sorting function keeps the contract of sort.Slice. *)
Definition Conforms (sortSlice : Sorter) : Prop :=
  forall A, sort.Sorts (sortSlice A).

(* The store answers every call: no call fails without a response. *)
Definition Answers (w : World) : Prop :=
  forall n f, fault w n = Some f -> status f <> None.

(* The last call of the store that was made got no response. *)
Definition Unheard (w : World) (st : State) : Prop :=
  exists n f, calls st = S n /\ fault w n = Some f /\ status f = None.

Section Completion.
Context (w : World) (sortSlice : Sorter).

(* The run ends with the closing message. *)
Definition Github_completes (st : State) : Prop :=
  exists st',
    Github.main w sortSlice st = (Returned tt, st')
    /\ last (stdout st') = Some Github.closing.

Definition COS_completes (st : State) : Prop :=
  last (stdout (COS.main w sortSlice st).2) = Some COS.closing.

End Completion.

(** * Further vocabulary *)

(** ** The day a time is shown on *)

(* The day number, counted from January 1 of year 1, of the date a time
   shows in its own zone, and the year of that date. *)
Definition wallDay (t : time.Time) : Z :=
  (time.abs t + time.zoneOffset (time.loc t)) / time.secondsPerDay.

Definition wallYear (t : time.Time) : Z := (time.civil (wallDay t)).1.1.

(* Midnight, in UTC, of a day. *)
Definition midnight (days : Z) : time.Time :=
  {| time.abs := days * time.secondsPerDay; time.nsec := 0;
     time.loc := time.UTC |}.

(* A test holds of k, ..., k + n - 1. *)
Fixpoint all_from (n : nat) (k : Z) (f : Z -> bool) : bool :=
  match n with
  | O => true
  | S n' => f k && all_from n' (k + 1) f
  end.

(* A year of four digits is written with four digits and read back. *)
Definition year_ok (y : Z) : bool :=
  let ys := time.appendInt y 4 in
  String.eqb (time.cutspace ys) ys
  && (4 <=? String.length ys)%nat && time.isDigit ys 0
  && match time.digitsVal (take_s 4 ys) 0 with
     | Some v => v =? y
     | None => false
     end
  && String.eqb (drop_s 4 ys) EmptyString.

(** ** What a run may do to the store *)

(* The content of an object is kept, and may be extended. *)
Definition grows (old new : option string) : Prop :=
  match old with
  | None => True
  | Some c => exists suffix, new = Some (c +:+ suffix)
  end.

(* Only the object at [path] may differ. *)
Definition Frame (path : string) (objs objs' : gmap string string)
  : Prop :=
  forall p, p <> path -> objs' !! p = objs !! p.

(* Only the object at [path] may differ, and it has grown. *)
Definition LogOnly (path : string) (objs objs' : gmap string string)
  : Prop :=
  Frame path objs objs' /\ grows (objs !! path) (objs' !! path).

(* The bodies the store sends are read to their end. *)
Definition ReadsWhole (w : World) : Prop := forall n, broken w n = None.

(* A world like [table_world []] whose store refuses its k-th call. *)
Definition refusing_world (k : nat) : World :=
  failing (at_call k {| cause := errorString "503 Service Unavailable";
                        status := Some 503 |})
          (table_world []).

(** ** A text as lines *)

Definition crlf : string :=
  String bufio.cr (String bufio.newline EmptyString).

(* The text of lines that end with [eol] each. *)
Definition unlines (eol : string) (lines : list string) : string :=
  concat_s (map (fun l => l +:+ eol) lines).

(* A line that a Scanner yields as it is: no newline inside, no carriage
   return at its end, and room in the buffer for it and its end. *)
Definition plain (l : string) : bool :=
  negb (strings.ContainsByte l bufio.newline)
  && negb (strings.HasSuffix l (String bufio.cr EmptyString))
  && (String.length l + 1 <? bufio.MaxScanTokenSize)%nat.

(* What is read after the last end of line: nothing, or one more line. *)
Definition lastLine (tail : string) : list string :=
  match tail with EmptyString => [] | _ => [tail] end.

(** ** Ties of an order *)

(* Neither element is before the other. *)
Definition tied {A} (less : A -> A -> bool) (x y : A) : bool :=
  negb (less x y) && negb (less y x).

(** ** The bytes of a JSON text *)

(* A byte that can stand in an HTML page as it is: not a control byte,
   and none of <, > and &. *)
Definition htmlPlain (c : ascii) : bool :=
  (0x20 <=? byteZ c) && negb (byteZ c =? 60) && negb (byteZ c =? 62)
  && negb (byteZ c =? 38).

Definition allBytes (p : ascii -> bool) (s : string) : bool :=
  forallb p (list_ascii_of_string s).

(* What appendString writes for one ASCII byte. *)
Definition asciiChunk (c : ascii) : string :=
  let b := byteZ c in
  if json.htmlSafe b then String c EmptyString
  else if (b =? 92) || (b =? 34) then json.backslash +:+ String c EmptyString
  else if b =? 8 then json.backslash +:+ "b"
  else if b =? 12 then json.backslash +:+ "f"
  else if b =? 10 then json.backslash +:+ "n"
  else if b =? 13 then json.backslash +:+ "r"
  else if b =? 9 then json.backslash +:+ "t"
  else json.backslash +:+ "u00"
         +:+ String (json.hex (Z.shiftr b 4))
               (String (json.hex (Z.land b 0xF)) EmptyString).

(* A character that [json.Marshal] writes as it is: well-formed, not one
   of the two line separators U+2028 and U+2029 and, when it is ASCII,
   not a control character and none of the quote, the backslash, <, >
   and &. *)
Definition jsonVerbatim (u : Z * string) : bool :=
  negb (utf8.ill_formed u)
  && negb ((u.1 =? 0x2028) || (u.1 =? 0x2029))
  && (negb (u.1 <? utf8.RuneSelf) || json.htmlSafe u.1).

Definition verbatim (s : string) : bool :=
  forallb jsonVerbatim (utf8.runes s).

(** ** Timestamps *)

(* A number below 100 is written with two digits and read back. *)
Definition two_ok (v : Z) : bool :=
  match time.appendInt v 2 with
  | String c0 (String c1 EmptyString) =>
    time.isDigitC c0 && time.isDigitC c1
    && (time.digitVal c0 * 10 + time.digitVal c1 =? v)
  | _ => false
  end.

(* A zone of whole minutes, less than a day from UTC and not UTC itself,
   is written and read back; it starts with its sign. *)
Definition zone_ok (k : Z) : bool :=
  let zs := time.appendZone (60 * k) true in
  (k =? 0)
  || (match time.parseNumTZ true zs with
      | inl (off, rest) => (off =? 60 * k) && String.eqb rest EmptyString
      | inr _ => false
      end
      && negb (time.charAt zs 0 "Z")
      && match zs with
         | String c _ => negb (time.commaOrPeriod c)
         | EmptyString => false
         end).

(* The seconds since midnight of the time a time shows in its zone. *)
Definition wallSecs (t : time.Time) : Z :=
  (time.abs t + time.zoneOffset (time.loc t)) mod time.secondsPerDay.
(** * Properties *)

(** ** Strings *)

Lemma append_cons_s c s t : String c s +:+ t = String c (s +:+ t).
Proof. reflexivity. Qed.

Lemma append_nil_s t : EmptyString +:+ t = t.
Proof. reflexivity. Qed.

Lemma take_drop_s n s : take_s n s +:+ drop_s n s = s.
Proof.
  revert s; induction n as [|n IH]; intros [|c t]; simpl; try reflexivity.
  rewrite append_cons_s. f_equal. apply IH.
Qed.

Lemma length_drop_s n s : String.length (drop_s n s) = (String.length s - n)%nat.
Proof.
  revert s; induction n as [|n IH]; intros [|c t]; simpl; auto with lia.
Qed.

Lemma length_take_s n s :
  (n <= String.length s)%nat -> String.length (take_s n s) = n.
Proof.
  revert s; induction n as [|n IH]; intros [|c t]; simpl; auto with lia.
Qed.

Lemma length_append_s s t :
  String.length (s +:+ t) = (String.length s + String.length t)%nat.
Proof.
  induction s; rewrite ?append_cons_s, ?append_nil_s; simpl; auto.
Qed.

Lemma append_assoc_s s t u : (s +:+ t) +:+ u = s +:+ (t +:+ u).
Proof.
  induction s; rewrite ?append_cons_s, ?append_nil_s; simpl; congruence.
Qed.

Lemma append_nil_r_s s : s +:+ EmptyString = s.
Proof. induction s; rewrite ?append_cons_s, ?append_nil_s; congruence. Qed.

Lemma take_app_s s t : take_s (String.length s) (s +:+ t) = s.
Proof.
  induction s; rewrite ?append_cons_s, ?append_nil_s; simpl;
    [now destruct t | congruence].
Qed.

Lemma drop_app_s s t : drop_s (String.length s) (s +:+ t) = t.
Proof.
  induction s; rewrite ?append_cons_s, ?append_nil_s; simpl; auto.
Qed.

Lemma byteZ_range c : 0 <= byteZ c < 256.
Proof.
  unfold byteZ. pose proof (N_ascii_bounded c). lia.
Qed.

(** ** UTF-8 decoding *)

Module utf8_facts.
Import utf8.

Lemma first_cases b :
  first b = as_ \/ first b = xx \/ first b = s1 \/ first b = s2 \/
  first b = s3 \/ first b = s4 \/ first b = s5 \/ first b = s6 \/
  first b = s7.
Proof. unfold first. repeat case_match; tauto. Qed.

(** A decoded rune is one to four bytes wide and never longer than the
    input. *)
Lemma decode_width s r w :
  s <> EmptyString -> DecodeRuneInString s = (r, w) ->
  (1 <= w <= String.length s)%nat.
Proof.
  destruct s as [|c0 t0]; [congruence|]. intros _.
  unfold DecodeRuneInString.
  repeat (case_match; simpl in *; try lia);
    intros [= <- <-]; simpl; lia.
Qed.

Ltac dec_fail :=
  intros [= <- <-]; simpl; rewrite ?Z.eqb_refl; simpl; congruence.
Ltac dec_step :=
  match goal with
  | |- (RuneError, 1%nat) = _ -> _ => dec_fail
  | |- (if ?b then _ else _) = _ -> _ => destruct b eqn:?
  | |- match ?t with EmptyString => _ | String _ _ => _ end = _ -> _ =>
      destruct t
  end.
Ltac dec_len :=
  match goal with
  | |- context [Z.of_nat ?n <? ?k] =>
      let k' := eval vm_compute in k in
      change k with k';
      destruct (Z.ltb_spec (Z.of_nat n) k'); [simpl in *; lia|]
  end.
Ltac dec_cond :=
  match goal with
  | E : ?b = false |- context [if ?b then _ else _] => rewrite E
  end.

(** A well-formed rune is decoded from its own bytes alone: what follows
    it does not matter. *)
Lemma decode_prefix s r w t :
  s <> EmptyString -> DecodeRuneInString s = (r, w) ->
  ill_formed (r, take_s w s) = false ->
  DecodeRuneInString (take_s w s +:+ t) = (r, w).
Proof.
  destruct s as [|c0 t0]; [congruence|]; intros _.
  unfold DecodeRuneInString at 1. unfold ill_formed.
  destruct (first_cases (byteZ c0))
    as [H|[H|[H|[H|[H|[H|[H|[H|H]]]]]]]];
    rewrite H; cbv [as_ xx s1 s2 s3 s4 s5 s6 s7]; simpl;
    repeat dec_step;
    intros [= <- <-] _; simpl take_s;
    rewrite ?append_cons_s, ?append_nil_s;
    unfold DecodeRuneInString; rewrite H;
    cbv [as_ xx s1 s2 s3 s4 s5 s6 s7]; simpl;
    try reflexivity; dec_len; repeat dec_cond; reflexivity.
Qed.

Lemma runes_fuel_enough f1 f2 s :
  (String.length s <= f1)%nat -> (String.length s <= f2)%nat ->
  runes_fuel f1 s = runes_fuel f2 s.
Proof.
  revert f2 s; induction f1 as [|f1 IH]; intros [|f2] [|c t]; simpl;
    try reflexivity; try lia.
  intros H1 H2.
  destruct (DecodeRuneInString (String c t)) as [r w] eqn:E.
  apply decode_width in E as Hw; [|congruence].
  f_equal. apply IH; rewrite length_drop_s; simpl in *; lia.
Qed.

Lemma runes_nil : runes EmptyString = [].
Proof. reflexivity. Qed.

Lemma runes_cons s r w :
  s <> EmptyString -> DecodeRuneInString s = (r, w) ->
  runes s = (r, take_s w s) :: runes (drop_s w s).
Proof.
  intros Hs E. unfold runes. destruct s as [|c t]; [congruence|].
  simpl String.length. cbn [runes_fuel]. rewrite E. f_equal.
  apply decode_width in E as Hw; [|congruence].
  apply runes_fuel_enough; rewrite ?length_drop_s; simpl in *; lia.
Qed.

(** The units of the decoding, put back together, are the input. *)
Lemma concat_runes s : concat_s (map snd (runes s)) = s.
Proof.
  remember (String.length s) as n eqn:Hn. revert s Hn.
  induction n as [n IH] using lt_wf_ind. intros s Hn.
  destruct s as [|c t]; [reflexivity|].
  destruct (DecodeRuneInString (String c t)) as [r w] eqn:E.
  assert (Hne : String c t <> EmptyString) by congruence.
  rewrite (runes_cons _ _ _ Hne E). cbn [map snd concat_s fold_right].
  apply decode_width in E as Hw; [|congruence].
  fold (concat_s (map snd (runes (drop_s w (String c t))))).
  rewrite (IH (String.length (drop_s w (String c t)))); auto.
  - apply take_drop_s.
  - rewrite length_drop_s. simpl in *. lia.
Qed.

End utf8_facts.

(** ** The sanitizer *)

Module regexp_facts.
Import utf8 regexp.

Lemma deleteAll_fuel_enough re f1 f2 s :
  (String.length s <= f1)%nat -> (String.length s <= f2)%nat ->
  deleteAll f1 re s = deleteAll f2 re s.
Proof.
  revert f2 s; induction f1 as [|f1 IH]; intros [|f2] [|c t]; simpl;
    try reflexivity; try lia.
  intros H1 H2.
  destruct (DecodeRuneInString (String c t)) as [r w] eqn:E.
  apply utf8_facts.decode_width in E as Hw; [|congruence].
  rewrite (IH f2 (drop_s w (String c t)));
    rewrite ?length_drop_s; simpl in *; try lia.
  reflexivity.
Qed.

Lemma ReplaceAllString_empty_nil re :
  ReplaceAllString_empty re EmptyString = EmptyString.
Proof. reflexivity. Qed.

Lemma ReplaceAllString_empty_cons re s r w :
  s <> EmptyString -> DecodeRuneInString s = (r, w) ->
  ReplaceAllString_empty re s =
    if matchRune re r then ReplaceAllString_empty re (drop_s w s)
    else take_s w s +:+ ReplaceAllString_empty re (drop_s w s).
Proof.
  intros Hs E. unfold ReplaceAllString_empty.
  destruct s as [|c t]; [congruence|].
  simpl String.length. cbn [deleteAll]. rewrite E.
  apply utf8_facts.decode_width in E as Hw; [|congruence].
  rewrite (deleteAll_fuel_enough re (String.length t)
             (String.length (drop_s w (String c t))));
    rewrite ?length_drop_s; simpl in *; try lia.
  reflexivity.
Qed.

(** The output is the decoding of the input without the runes of the
    class, every other unit copied as it is and in order. *)
Lemma ReplaceAllString_empty_runes re s :
  ReplaceAllString_empty re s =
    concat_s (map snd (List.filter (fun u => negb (matchRune re u.1))
                                   (runes s))).
Proof.
  remember (String.length s) as n eqn:Hn. revert s Hn.
  induction n as [n IH] using lt_wf_ind. intros s Hn.
  destruct s as [|c t]; [reflexivity|].
  destruct (DecodeRuneInString (String c t)) as [r w] eqn:E.
  assert (Hne : String c t <> EmptyString) by congruence.
  rewrite (ReplaceAllString_empty_cons _ _ _ _ Hne E).
  rewrite (utf8_facts.runes_cons _ _ _ Hne E).
  apply utf8_facts.decode_width in E as Hw; [|congruence].
  assert (Hlt : (String.length (drop_s w (String c t)) < n)%nat)
    by (rewrite length_drop_s; simpl in *; lia).
  rewrite (IH _ Hlt _ eq_refl).
  cbn [List.filter fst].
  destruct (matchRune re r); reflexivity.
Qed.

End regexp_facts.

Module sanitizer.
Import utf8 regexp regexp_facts.

Lemma ValidString_cons s r w :
  s <> EmptyString -> DecodeRuneInString s = (r, w) ->
  ValidString s =
    negb (ill_formed (r, take_s w s)) && ValidString (drop_s w s).
Proof.
  intros Hs E. unfold ValidString.
  rewrite (utf8_facts.runes_cons _ _ _ Hs E). reflexivity.
Qed.

(** On well-formed UTF-8 a second pass finds nothing left to delete. *)
Lemma ReplaceAllString_empty_idem re s :
  ValidString s = true ->
  ReplaceAllString_empty re (ReplaceAllString_empty re s) =
    ReplaceAllString_empty re s.
Proof.
  remember (String.length s) as n eqn:Hn. revert s Hn.
  induction n as [n IH] using lt_wf_ind. intros s Hn Hv.
  destruct s as [|c t]; [reflexivity|].
  destruct (DecodeRuneInString (String c t)) as [r w] eqn:E.
  assert (Hne : String c t <> EmptyString) by congruence.
  rewrite (ValidString_cons _ _ _ Hne E) in Hv.
  apply andb_prop in Hv as [Hu Hv]. apply negb_true_iff in Hu.
  apply utf8_facts.decode_width in E as Hw; [|congruence].
  assert (Hlt : (String.length (drop_s w (String c t)) < n)%nat)
    by (rewrite length_drop_s; simpl in *; lia).
  rewrite (ReplaceAllString_empty_cons _ _ _ _ Hne E).
  destruct (matchRune re r) eqn:Hm.
  - apply (IH _ Hlt _ eq_refl Hv).
  - set (u := take_s w (String c t)).
    set (rest := ReplaceAllString_empty re (drop_s w (String c t))).
    assert (Hlen : String.length u = w) by (apply length_take_s; lia).
    assert (Hne' : u +:+ rest <> EmptyString).
    { destruct u; simpl in Hlen; [lia|]. rewrite append_cons_s. congruence. }
    pose proof (utf8_facts.decode_prefix _ _ _ rest Hne E Hu) as E'.
    fold u in E'.
    rewrite (ReplaceAllString_empty_cons _ _ _ _ Hne' E'), Hm.
    rewrite <- Hlen at 1 2. rewrite take_app_s, drop_app_s.
    unfold rest. now rewrite (IH _ Hlt _ eq_refl Hv).
Qed.

Lemma matchRune_illegalChars r :
  matchRune illegalChars r = is_control_rune r.
Proof.
  unfold matchRune, illegalChars, is_control_rune. simpl.
  now rewrite orb_false_r.
Qed.

Lemma filter_ext_runes (f g : Z * string -> bool) l :
  (forall u, f u = g u) -> List.filter f l = List.filter g l.
Proof.
  intros H. induction l as [|u l IH]; simpl; [reflexivity|].
  now rewrite H, IH.
Qed.

(** On ASCII input a rune is a byte, and the sanitizer is the byte filter
    of the specification. *)
Lemma cleanXMLContent_ascii s :
  forallb (fun c => byteZ c <? 0x80) (list_ascii_of_string s) = true ->
  cleanXMLContent s = strip_control_bytes s.
Proof.
  unfold cleanXMLContent. induction s as [|c t IH]; [reflexivity|].
  simpl. intros [Hc Ht]%andb_prop.
  assert (E : DecodeRuneInString (String c t) = (byteZ c, 1%nat)).
  { unfold DecodeRuneInString, first. rewrite Hc. reflexivity. }
  assert (Hne : String c t <> EmptyString) by congruence.
  rewrite (ReplaceAllString_empty_cons _ _ _ _ Hne E).
  rewrite matchRune_illegalChars. simpl take_s. simpl drop_s.
  rewrite (IH Ht). unfold is_control_byte, is_control_rune.
  destruct (_ || _); reflexivity.
Qed.

End sanitizer.

(** C6 (as amended).  [cleanXMLContent] is a total function; its output is
    the UTF-8 decoding of the input with every character in U+0000-U+001F
    and U+007F-U+009F deleted, every other unit of the decoding (an
    ill-formed byte is a unit of its own) copied unchanged and in order; on
    well-formed UTF-8 input it is idempotent; and on ASCII input it is the
    byte filter the specification describes. *)
Theorem cleanXMLContent_deletes_control_runes (x : string) :
  cleanXMLContent x =
    concat_s (map snd (List.filter (fun u => negb (is_control_rune u.1))
                                   (utf8.runes x)))
  /\ concat_s (map snd (utf8.runes x)) = x
  /\ (utf8.ValidString x = true ->
      cleanXMLContent (cleanXMLContent x) = cleanXMLContent x)
  /\ (forallb (fun c => byteZ c <? 0x80) (list_ascii_of_string x) = true ->
      cleanXMLContent x = strip_control_bytes x).
Proof.
  repeat split.
  - unfold cleanXMLContent.
    rewrite regexp_facts.ReplaceAllString_empty_runes.
    do 2 f_equal. apply sanitizer.filter_ext_runes. intros u.
    now rewrite sanitizer.matchRune_illegalChars.
  - apply utf8_facts.concat_runes.
  - apply sanitizer.ReplaceAllString_empty_idem.
  - apply sanitizer.cleanXMLContent_ascii.
Qed.

Lemma cleanXMLContent_deletes_control_runes_witness :
  utf8.ValidString sample_text = true
  /\ cleanXMLContent (cleanXMLContent sample_text) = cleanXMLContent sample_text
  /\ cleanXMLContent sample_text = bytes_to_string [0x61; 0xE4; 0xB8; 0xAD; 0x62].
Proof.
  split; [reflexivity|]. split.
  - apply (cleanXMLContent_deletes_control_runes sample_text). reflexivity.
  - reflexivity.
Defined.

(** C6, as the specification states it, fails: on the bytes C2 01 85 the
    first pass deletes only 0x01 and leaves C2 85, which is U+0085 and is
    deleted by a second pass; and the byte 0x85 survives the first pass
    although it lies in 0x7F-0x9F. *)
Lemma cleanXMLContent_not_bytewise :
  cleanXMLContent split_nel = bytes_to_string [0xC2; 0x85]
  /\ cleanXMLContent (cleanXMLContent split_nel) = EmptyString
  /\ cleanXMLContent (cleanXMLContent split_nel) <> cleanXMLContent split_nel
  /\ cleanXMLContent split_nel <> strip_control_bytes split_nel.
Proof.
  repeat split; try reflexivity; vm_compute; discriminate.
Qed.

(** ** parseTime *)

Section ParseTime.
Context (w : World).

Lemma parseTime_range_ok fs timeStr t :
  parseTime_range w fs timeStr = (t, None) <->
  exists pre f post,
    fs = (pre ++ f :: post)%list
    /\ Forall (fails w timeStr) pre
    /\ time.Parse (Local w) f timeStr = (t, None).
Proof.
  induction fs as [|g fs IH]; simpl.
  - split; [discriminate|]. intros (pre & f & post & H & _).
    now destruct pre.
  - destruct (time.Parse (Local w) g timeStr) as [tg [e|]] eqn:E.
    + rewrite IH. split.
      * intros (pre & f & post & -> & Hpre & Hf).
        exists (g :: pre), f, post. repeat split; auto.
        constructor; auto. unfold fails. rewrite E. discriminate.
      * intros (pre & f & post & Heq & Hpre & Hf).
        destruct pre as [|g' pre]; simpl in Heq; injection Heq as <- ->.
        -- rewrite E in Hf. discriminate.
        -- inversion Hpre; subst. now exists pre, f, post.
    + split.
      * intros [= <-]. exists [], g, fs. repeat split; auto.
      * intros (pre & f & post & Heq & Hpre & Hf).
        destruct pre as [|g' pre]; simpl in Heq; injection Heq as <- ->.
        -- rewrite E in Hf. congruence.
        -- inversion Hpre as [|? ? Hg]; subst. unfold fails in Hg.
           rewrite E in Hg. now contradiction Hg.
Qed.

Lemma parseTime_range_fail fs timeStr :
  (parseTime_range w fs timeStr).2 <> None <-> Forall (fails w timeStr) fs.
Proof.
  induction fs as [|g fs IH]; simpl.
  - split; [constructor | discriminate].
  - destruct (time.Parse (Local w) g timeStr) as [tg [e|]] eqn:E.
    + rewrite IH. split.
      * intros H. constructor; auto. unfold fails. rewrite E. discriminate.
      * now inversion 1.
    + simpl. split; [congruence|]. inversion 1 as [|? ? Hg]; subst.
      unfold fails in Hg. rewrite E in Hg. now contradiction Hg.
Qed.

Lemma parseTime_range_error fs timeStr :
  (parseTime_range w fs timeStr).2 <> None ->
  parseTime_range w fs timeStr =
    (time.zero, Some (errorString ("unable to parse time: " +:+ timeStr))).
Proof.
  induction fs as [|g fs IH]; simpl; [reflexivity|].
  destruct (time.Parse (Local w) g timeStr) as [tg [e|]]; auto.
  simpl. congruence.
Qed.

Lemma parseTime_empty :
  parseTime w EmptyString =
    (time.zero, Some (errorString "unable to parse time: ")).
Proof. reflexivity. Qed.

End ParseTime.

(** C7.  [parseTime] tries RFC3339, RFC3339 with fractional seconds,
    RFC1123 with a numeric zone and RFC1123, in this order, and returns the
    first successful parse; it fails if and only if all four fail, with the
    error "unable to parse time: ..." and the zero time; the empty string
    fails. *)
Theorem parseTime_first_match (w : World) (timeStr : string) :
  formats = [time.RFC3339; time.RFC3339Nano; time.RFC1123Z; time.RFC1123]
  /\ (forall t,
        parseTime w timeStr = (t, None) <->
        exists pre f post,
          formats = (pre ++ f :: post)%list
          /\ Forall (fails w timeStr) pre
          /\ time.Parse (Local w) f timeStr = (t, None))
  /\ ((parseTime w timeStr).2 <> None <-> Forall (fails w timeStr) formats)
  /\ ((parseTime w timeStr).2 <> None ->
      parseTime w timeStr =
        (time.zero, Some (errorString ("unable to parse time: " +:+ timeStr))))
  /\ (parseTime w EmptyString).2 <> None.
Proof.
  split; [reflexivity|]. split; [|split; [|split]].
  - intros t. apply parseTime_range_ok.
  - apply parseTime_range_fail.
  - apply parseTime_range_error.
  - rewrite parseTime_empty. discriminate.
Qed.


(** ** The remote log *)

Ltac unfold_M :=
  unfold mbind, M_bind, G_bind, mret, M_ret, G_ret, lift, panic in *.

Section Log.
Context (w : World).

(* What the GitHub program does to the log when the store answers its two
   calls and sends a content that is decoded. *)
Lemma Github_logError_appends line st :
  fault w (calls st) = None -> fault w (S (calls st)) = None ->
  undecodable w (calls st) = None ->
  exists st',
    Github.logError w line st = (Returned tt, st')
    /\ objects st' =
         <["api/error.log" :=
             default EmptyString (objects st !! "api/error.log")
               +:+ line +:+ nl +:+ nl]> (objects st).
Proof.
  intros H0 H1 Hd.
  unfold Github.logError, Github.logMessage, Github.GetContents,
    Github.CreateFile, Github.UpdateFile, call, note, Print.
  unfold_M. simpl. rewrite H0.
  change ("api/" +:+ "error.log") with "api/error.log".
  destruct (objects st !! "api/error.log") as [c|] eqn:E; simpl;
    rewrite ?Hd; simpl; rewrite H1, E; simpl.
  - rewrite String.eqb_refl. simpl. eauto.
  - eauto.
Qed.

(* What the COS program does to the log when the store answers its two
   calls: what it has read of the log comes first. *)
Lemma COS_logError_writes line st :
  fault w (calls st) = None -> fault w (S (calls st)) = None ->
  objects (COS.logError w line st).2 =
    <["rss/error.log" :=
        match objects st !! "rss/error.log" with
        | Some c =>
          (io.ReadAll {| io.content := c;
                         io.breaks := broken w (calls st) |}).1
        | None => EmptyString
        end +:+ line +:+ nl +:+ nl]> (objects st).
Proof.
  intros H0 H1.
  unfold COS.logError, COS.putLog, COS.Get, COS.Put, call, note, Print.
  unfold_M. simpl. rewrite H0.
  destruct (objects st !! "rss/error.log") as [c|] eqn:E; simpl.
  - destruct (io.ReadAll _) as [existingLog e]. simpl. rewrite H1.
    reflexivity.
  - rewrite H1. reflexivity.
Qed.

Lemma COS_logError_appends line st :
  fault w (calls st) = None -> fault w (S (calls st)) = None ->
  broken w (calls st) = None ->
  objects (COS.logError w line st).2 =
    <["rss/error.log" :=
        default EmptyString (objects st !! "rss/error.log")
          +:+ line +:+ nl +:+ nl]> (objects st).
Proof.
  intros H0 H1 Hb. rewrite COS_logError_writes by assumption.
  rewrite Hb. unfold io.ReadAll. simpl.
  now destruct (objects st !! "rss/error.log").
Qed.

End Log.

(** C4, on the COS program.  The reading of the log that is there can break
    off; [logError] drops the error of the reading ([existingLog, _ =
    io.ReadAll(resp.Body)]) and writes back what it has read, followed by
    the new line.  With the log "A\n\n", a reading that breaks off after
    the first byte and the line "B", both calls of the store succeed,
    nothing is printed, and the log becomes "AB\n\n", which does not start
    with its prior content.  On the same log read to its end the program
    writes "A\n\nB\n\n"; and the GitHub program, when it cannot decode
    the log, prints the error and leaves the log as it is. *)
Theorem COS_logError_drops_unread_log :
  fault cut_world 0 = None /\ fault cut_world 1 = None
  /\ objects (st_with "rss/error.log" ("A" +:+ nl +:+ nl)) !! "rss/error.log"
     = Some ("A" +:+ nl +:+ nl)
  /\ objects (COS.logError cut_world "B"
                (st_with "rss/error.log" ("A" +:+ nl +:+ nl))).2
       !! "rss/error.log" = Some ("AB" +:+ nl +:+ nl)
  /\ stdout (COS.logError cut_world "B"
               (st_with "rss/error.log" ("A" +:+ nl +:+ nl))).2 = []
  /\ String.prefix ("A" +:+ nl +:+ nl) ("AB" +:+ nl +:+ nl) = false
  /\ objects (COS.logError (table_world []) "B"
                (st_with "rss/error.log" ("A" +:+ nl +:+ nl))).2
       !! "rss/error.log" = Some ("A" +:+ nl +:+ nl +:+ "B" +:+ nl +:+ nl)
  /\ (exists st',
        Github.logError garbled_world "B"
          (st_with "api/error.log" ("A" +:+ nl +:+ nl)) = (Returned tt, st')
        /\ objects st' !! "api/error.log" = Some ("A" +:+ nl +:+ nl)
        /\ stdout st'
           = ["error decoding error.log content: "
                +:+ "unsupported content encoding: none" +:+ nl]).
Proof.
  repeat split; try (vm_compute; reflexivity).
  eexists. split; [vm_compute; reflexivity|].
  split; [vm_compute; reflexivity|]. vm_compute. reflexivity.
Qed.

(** ** One turn of the loop *)

#[local] Arguments time.Format : simpl never.
#[local] Arguments time.Parse : simpl never.
#[local] Arguments entry : simpl never.
#[local] Arguments entry0 : simpl never.
#[local] Arguments formatTime : simpl never.
#[local] Arguments cleanXMLContent : simpl never.
#[local] Arguments extractDomain : simpl never.
#[local] Arguments Github.itemTime : simpl never.
#[local] Arguments COS.itemTime : simpl never.
#[local] Arguments json.Marshal : simpl never.
#[local] Arguments bufio.ScanLines : simpl never.

(** *** Where the GitHub program panics *)

Section Panics.
Context (w : World) (sortSlice : Sorter).

Lemma G_bind_Returned {A B} (m : G A) (f : A -> G B) st y st2 :
  (m ≫= f) st = (Returned y, st2) ->
  exists x st1, m st = (Returned x, st1) /\ f x st1 = (Returned y, st2).
Proof.
  unfold_M. destruct (m st) as [[x|] st1]; [eauto|discriminate].
Qed.

Lemma G_bind_Panicked {A B} (m : G A) (f : A -> G B) st st2 :
  (m ≫= f) st = (Panicked, st2) ->
  m st = (Panicked, st2)
  \/ exists x st1, m st = (Returned x, st1) /\ f x st1 = (Panicked, st2).
Proof.
  unfold_M. destruct (m st) as [[x|] st1]; intros H;
    [right; eauto | left; congruence].
Qed.

(* A call of GetContents that comes back without a response is the last
   call that was made. *)
Lemma GetContents_NoResponse filePath st err st' :
  Github.GetContents w filePath st = (Github.NoFile None err, st') ->
  Unheard w st' /\ ticks st' = ticks st /\ requests st' = requests st
  /\ logged st' = logged st /\ stdout st' = stdout st.
Proof.
  unfold Github.GetContents, call.
  destruct (fault w (calls st)) as [[e [code|]]|] eqn:E; simpl.
  - discriminate.
  - intros [= <- <-]. simpl. split; [|auto].
    exists (calls st), {| cause := e; status := None |}. auto.
  - destruct (objects st !! filePath); discriminate.
Qed.

Lemma Github_logError_Panicked msg st st' :
  Github.logError w msg st = (Panicked, st') ->
  Unheard w st' /\ stdout st' = stdout st.
Proof.
  unfold Github.logError, Github.logMessage. unfold_M.
  unfold note at 1. simpl.
  destruct (Github.GetContents w _ _) as [[file|[code|] e] st1] eqn:E.
  - destruct (Github.GetContent file); [|unfold Print; discriminate].
    destruct (Github.UpdateFile w _ _ _ st1) as [[e|] st2];
      unfold Print; discriminate.
  - destruct (code =? http.StatusNotFound); [|unfold Print; discriminate].
    destruct (Github.CreateFile w _ _ st1) as [[e'|] st2];
      unfold Print; discriminate.
  - intros [= <-]. apply GetContents_NoResponse in E. tauto.
Qed.

End Panics.

Section Turn.
Context (w : World).

(* What a call of logError leaves behind, whether it returns or not. *)
Lemma Github_logError_obs msg st :
  let r := Github.logError w msg st in
  ticks r.2 = ticks st /\ requests r.2 = requests st
  /\ logged r.2 = (logged st ++ [msg])%list
  /\ (r.1 = Panicked -> Unheard w r.2).
Proof.
  cbv zeta.
  split; [|split; [|split]];
    try (intros Hp; destruct (Github.logError w msg st) as [[[]|] st'] eqn:E;
         [discriminate|]; now apply Github_logError_Panicked in E);
    unfold Github.logError, Github.logMessage, Github.GetContents,
      Github.CreateFile, Github.UpdateFile, call, note, Print;
    unfold_M; simpl;
    repeat (case_match; simpl in *; simplify_eq; try tauto).
Qed.

Lemma COS_logError_obs msg st :
  let st' := (COS.logError w msg st).2 in
  ticks st' = ticks st /\ requests st' = requests st
  /\ logged st' = (logged st ++ [msg])%list.
Proof.
  unfold COS.logError, COS.putLog, COS.Get, COS.Put, call, note, Print.
  unfold_M. simpl.
  repeat (case_match; simpl in *; simplify_eq; try tauto).
Qed.

Ltac fin :=
  simpl; rewrite ?Nat.add_0_r, ?Nat.add_1_r, ?app_nil_r;
  repeat match goal with
         | H : logged _ = _ |- _ => rewrite H
         | H : ticks _ = _ |- _ => rewrite H
         | H : requests _ = _ |- _ => rewrite H
         end;
  rewrite <- ?app_assoc; try reflexivity; try lia.

Ltac step_log lem :=
  match goal with
  | |- context [Github.logError w ?m ?s] =>
    let H := fresh "Hlog" in
    pose proof (lem m s) as H;
    destruct (Github.logError w m s) as [[[]|] ?]; simpl in H;
    destruct H as (? & ? & ? & ?); simpl; [|now auto]
  | |- context [COS.logError w ?m ?s] =>
    let H := fresh "Hlog" in
    pose proof (lem m s) as H;
    destruct (COS.logError w m s) as [[] ?]; simpl in H;
    destruct H as (? & ? & ?)
  end.

(* A turn of the loop of the GitHub program is over, and has done what
   [Github_turn] says, or the program has panicked in a call of the
   store that got no response. *)
Lemma Github_fetchOne_spec feedURL arts st :
  match Github.fetchOne w feedURL arts st with
  | (Returned arts', st') => Github_turn w feedURL arts st arts' st'
  | (Panicked, st') => Unheard w st'
  end.
Proof.
  unfold Github.fetchOne, Github_turn, get, stamp, getBeijingTime, time_Now.
  unfold_M. simpl.
  destruct (http_Get w _ feedURL) as [body|err]; simpl.
  2: { step_log Github_logError_obs. auto. }
  destruct (ParseString w _) as [feed|err]; simpl.
  2: { step_log Github_logError_obs. auto. }
  unfold domainLog, domainKept, timeLog, timeKept.
  destruct (extractDomain (FeedLink feed)) as [dom [derr|]]; simpl;
    [step_log Github_logError_obs|];
    (destruct (Items feed) as [|item items]; simpl;
     [|destruct (Github.itemTime w item) as [t [terr|]]; simpl;
       [step_log Github_logError_obs|]]);
    repeat split; fin.
Qed.

Lemma COS_fetchOne_spec feedURL arts st :
  let r := COS.fetchOne w feedURL arts st in
  requests r.2 = (requests st ++ [feedURL])%list
  /\ match http_Get w (length (requests st)) feedURL with
     | inr err =>
       r.1 = arts /\ ticks r.2 = S (ticks st)
       /\ logged r.2 =
            (logged st
             ++ [entry w (stampAt w (ticks st)) "Get RSS error" feedURL err])%list
     | inl body =>
       match ParseString w (cleanXMLContent body) with
       | inr err =>
         r.1 = arts /\ ticks r.2 = S (ticks st)
         /\ logged r.2 =
              (logged st
               ++ [entry w (stampAt w (ticks st)) "Parse RSS error"
                         feedURL err])%list
       | inl feed =>
         match Items feed with
         | [] => r.1 = arts /\ ticks r.2 = ticks st /\ logged r.2 = logged st
         | item :: _ =>
           let it := COS.itemTime w item in
           let tlog := timeLog w (ticks st) item it in
           r.1 = append arts
                   {| COS.Name := FeedTitle feed;
                      COS.Title := ItemTitle item;
                      COS.Link := ItemLink item;
                      COS.Date := formatTime (timeKept w (ticks st) it) |}
           /\ ticks r.2 = (ticks st + 2 * length tlog)%nat
           /\ logged r.2 = (logged st ++ tlog)%list
         end
       end
     end.
Proof.
  unfold COS.fetchOne, get, stamp, getBeijingTime, time_Now.
  unfold_M. simpl.
  destruct (http_Get w _ feedURL) as [body|err]; simpl.
  2: { step_log COS_logError_obs. simpl. auto. }
  destruct (ParseString w _) as [feed|err]; simpl.
  2: { step_log COS_logError_obs. simpl. auto. }
  unfold timeLog, timeKept.
  destruct (Items feed) as [|item items]; simpl;
    [|destruct (COS.itemTime w item) as [t [terr|]]; simpl;
      [step_log COS_logError_obs; simpl|]];
    repeat split; fin.
Qed.

End Turn.

(** ** The whole run *)

Section Run.
Context (w : World) (sortSlice : Sorter).

(** Every feed of the list is requested, in the order of the list. *)
Lemma Github_fetchAll_requests feeds arts st :
  match Github.fetchAll w feeds arts st with
  | (Returned _, st') => requests st' = (requests st ++ feeds)%list
  | (Panicked, st') => Unheard w st'
  end.
Proof.
  revert arts st. induction feeds as [|f feeds IH]; intros arts st.
  - simpl. now rewrite app_nil_r.
  - cbn [Github.fetchAll]. unfold_M.
    pose proof (Github_fetchOne_spec w f arts st) as H.
    destruct (Github.fetchOne w f arts st) as [[arts'|] st']; [|exact H].
    destruct H as [Hr _]. specialize (IH arts' st').
    destruct (Github.fetchAll w feeds arts' st') as [[arts''|] st''];
      [|exact IH].
    rewrite IH, Hr, <- app_assoc. reflexivity.
Qed.

Lemma COS_fetchAll_requests feeds arts st :
  requests (COS.fetchAll w feeds arts st).2 = (requests st ++ feeds)%list.
Proof.
  revert arts st. induction feeds as [|f feeds IH]; intros arts st.
  - simpl. now rewrite app_nil_r.
  - cbn [COS.fetchAll]. unfold_M.
    pose proof (COS_fetchOne_spec w f arts st) as [Hr _].
    destruct (COS.fetchOne w f arts st) as [arts' st']. simpl in Hr.
    rewrite IH, Hr, <- app_assoc. reflexivity.
Qed.

(* fetchRSS returns what the loop has collected, sorted, and no error. *)
Lemma Github_fetchRSS_inv feeds st out err st' :
  Github.fetchRSS w sortSlice feeds st = (Returned (out, err), st') ->
  err = None
  /\ exists collected,
       Github.fetchAll w feeds nil_slice st = (Returned collected, st')
       /\ out = map_slice (sortSlice Github.Article (Github.less w))
                          collected.
Proof.
  unfold Github.fetchRSS. unfold_M.
  destruct (Github.fetchAll w feeds nil_slice st) as [[collected|] st1];
    [|discriminate].
  intros [= <- <- <-]. eauto.
Qed.

(** In the GitHub program, when [fetchRSS] returns it returns no error and
    has requested every feed; it does not return only when a call of the
    store got no response. *)
Lemma Github_fetchRSS_absorbs feeds st :
  match Github.fetchRSS w sortSlice feeds st with
  | (Returned (_, err), st') =>
    err = None /\ requests st' = (requests st ++ feeds)%list
  | (Panicked, st') => Unheard w st'
  end.
Proof.
  unfold Github.fetchRSS. unfold_M.
  pose proof (Github_fetchAll_requests feeds nil_slice st) as H.
  destruct (Github.fetchAll w feeds nil_slice st) as [[collected|] st1];
    auto.
Qed.

(** In the COS program [fetchRSS] returns no error and has requested every
    feed, whatever the feeds and the store answer. *)
Lemma COS_fetchRSS_absorbs feeds st :
  (COS.fetchRSS w sortSlice feeds st).1.2 = None
  /\ requests (COS.fetchRSS w sortSlice feeds st).2
     = (requests st ++ feeds)%list.
Proof.
  unfold COS.fetchRSS. unfold_M.
  pose proof (COS_fetchAll_requests feeds nil_slice st) as H.
  now destruct (COS.fetchAll w feeds nil_slice st).
Qed.

Lemma saveToGitHub_Panicked data st st' :
  Github.saveToGitHub w data st = (Panicked, st') ->
  Unheard w st' /\ stdout st' = stdout st /\ requests st' = requests st
  /\ logged st' = logged st.
Proof.
  unfold Github.saveToGitHub. unfold_M.
  destruct (Github.GetContents w _ _) as [[file|[code|] e] st1] eqn:E.
  - destruct (Github.UpdateFile w _ _ _ st1) as [[e|] st2]; discriminate.
  - destruct (code =? http.StatusNotFound); [|discriminate].
    destruct (Github.CreateFile w _ _ st1) as [[e'|] st2]; discriminate.
  - intros [= <-]. apply GetContents_NoResponse in E. tauto.
Qed.

Ltac log_panic :=
  match goal with
  | |- context [Github.logError w ?m ?s] =>
    let H := fresh "Hp" in
    pose proof (Github_logError_obs w m s) as (_ & _ & _ & H);
    destruct (Github.logError w m s) as [[[]|] ?]; simpl in H |- *;
    [try discriminate | intros [= <-]; now apply H]
  end.

Lemma readFeedsFromGitHub_Panicked st st' :
  Github.readFeedsFromGitHub w st = (Panicked, st') -> Unheard w st'.
Proof.
  unfold Github.readFeedsFromGitHub, stamp, getBeijingTime, time_Now.
  unfold_M.
  destruct (Github.GetContents w _ _) as [[file|[code|] e] st1] eqn:E;
    simpl.
  - destruct (Github.GetContent file); [|log_panic].
    destruct (bufio.ScanLines _); [discriminate|log_panic].
  - destruct (code =? http.StatusNotFound); log_panic.
  - intros [= <-]. apply GetContents_NoResponse in E. tauto.
Qed.

(** The GitHub program panics only in a call of the store that got no
    response. *)
Lemma Github_main_Panicked st st' :
  Github.main w sortSlice st = (Panicked, st') -> Unheard w st'.
Proof.
  unfold Github.main, stamp, getBeijingTime, time_Now, Print. unfold_M.
  pose proof (readFeedsFromGitHub_Panicked st) as H1.
  destruct (Github.readFeedsFromGitHub w st) as [[[feeds [e1|]]|] st1];
    simpl.
  - log_panic.
  - pose proof (Github_fetchRSS_absorbs feeds st1) as H2.
    destruct (Github.fetchRSS w sortSlice feeds st1)
      as [[[arts e2]|] st2]; simpl.
    + destruct H2 as [-> _].
      pose proof (saveToGitHub_Panicked arts st2) as H3.
      destruct (Github.saveToGitHub w arts st2) as [[[e3|]|] st3]; simpl.
      * log_panic.
      * discriminate.
      * intros [= <-]. now apply H3.
    + intros [= <-]. exact H2.
  - intros [= <-]. now apply H1.
Qed.

Lemma Unheard_Answers st : Unheard w st -> Answers w -> False.
Proof. intros (n & f & _ & H & Hs) HA. exact (HA n f H Hs). Qed.

(** When the store answers every call, the functions of the GitHub program
    return. *)
Lemma Github_fetchOne_returns feedURL arts st :
  Answers w ->
  exists arts' st', Github.fetchOne w feedURL arts st = (Returned arts', st').
Proof.
  intros HA. pose proof (Github_fetchOne_spec w feedURL arts st) as H.
  destruct (Github.fetchOne w feedURL arts st) as [[arts'|] st']; [eauto|].
  destruct (Unheard_Answers _ H HA).
Qed.

Lemma Github_fetchRSS_returns feeds st :
  Answers w ->
  exists out st',
    Github.fetchRSS w sortSlice feeds st = (Returned (out, None), st').
Proof.
  intros HA. pose proof (Github_fetchRSS_absorbs feeds st) as H.
  destruct (Github.fetchRSS w sortSlice feeds st) as [[[out e]|] st'].
  - destruct H as [-> _]. eauto.
  - destruct (Unheard_Answers _ H HA).
Qed.

Lemma Github_main_returns st :
  Answers w -> exists st', Github.main w sortSlice st = (Returned tt, st').
Proof.
  intros HA.
  destruct (Github.main w sortSlice st) as [[[]|] st'] eqn:E; [eauto|].
  apply Github_main_Panicked in E. destruct (Unheard_Answers _ E HA).
Qed.

(** The run reaches its closing message if and only if the reading of the
    feed list, the fetching and the publishing all return, and return no
    error. *)
Lemma Github_main_completes st :
  Github_completes w sortSlice st <->
  exists feeds st1 arts st2 st3,
    Github.readFeedsFromGitHub w st = (Returned (feeds, None), st1)
    /\ Github.fetchRSS w sortSlice feeds st1 = (Returned (arts, None), st2)
    /\ Github.saveToGitHub w arts st2 = (Returned None, st3).
Proof.
  unfold Github_completes. split.
  - unfold Github.main. unfold_M.
    destruct (Github.readFeedsFromGitHub w st) as [[[feeds [e1|]]|] st1];
      simpl.
    + unfold stamp, getBeijingTime, time_Now, Print. unfold_M. simpl.
      destruct (Github.logError w _ _) as [[[]|] st']; simpl.
      * intros (st'' & [= <-] & H). simpl in H. rewrite last_snoc in H.
        discriminate.
      * intros (st'' & [=] & _).
    + pose proof (Github_fetchRSS_absorbs feeds st1) as He.
      destruct (Github.fetchRSS w sortSlice feeds st1)
        as [[[arts e]|] st2] eqn:E2; simpl; [|intros (st'' & [=] & _)].
      destruct He as [-> _].
      destruct (Github.saveToGitHub w arts st2) as [[[e3|]|] st3] eqn:E3;
        simpl.
      * unfold stamp, getBeijingTime, time_Now, Print. unfold_M. simpl.
        destruct (Github.logError w _ _) as [[[]|] st']; simpl.
        -- intros (st'' & [= <-] & H). simpl in H.
           rewrite last_snoc in H. discriminate.
        -- intros (st'' & [=] & _).
      * intros _. exists feeds, st1, arts, st2, st3. auto.
      * intros (st'' & [=] & _).
    + intros (st'' & [=] & _).
  - intros (feeds & st1 & arts & st2 & st3 & H1 & H2 & H3).
    unfold Github.main. unfold_M. rewrite H1. simpl. rewrite H2. simpl.
    rewrite H3. simpl. eexists. split; [reflexivity|].
    simpl. now rewrite last_snoc.
Qed.

Lemma COS_main_completes st :
  let r1 := COS.readFeedsFromFile w "rss_feeds.txt" in
  let r2 := COS.fetchRSS w sortSlice r1.1 st in
  let r3 := COS.saveToCOS w r2.1.1 r2.2 in
  COS_completes w sortSlice st <-> r1.2 = None /\ r3.1 = None.
Proof.
  unfold COS_completes, COS.main. unfold_M. simpl.
  destruct (COS.readFeedsFromFile w "rss_feeds.txt") as [feeds [e1|]];
    simpl.
  - unfold stamp, getBeijingTime, time_Now. unfold_M. simpl.
    destruct (COS.logError w _ _) as [[] st']. simpl.
    rewrite last_snoc. split; [intros [=] | intros []; discriminate].
  - pose proof (COS_fetchRSS_absorbs feeds st) as [He _].
    destruct (COS.fetchRSS w sortSlice feeds st) as [[arts e] st2].
    simpl in He. subst e. simpl.
    destruct (COS.saveToCOS w arts st2) as [[e3|] st3]; simpl.
    + unfold stamp, getBeijingTime, time_Now. unfold_M. simpl.
      destruct (COS.logError w _ _) as [[] st']. simpl.
      rewrite last_snoc. split; [intros [=] | intros []; discriminate].
    + rewrite last_snoc. tauto.
Qed.

End Run.

(** C5, on the GitHub program.  [logError] reads the status of the response
    of the store whenever the reading of the log returns an error ([err !=
    nil && resp.StatusCode == http.StatusNotFound]); when the call got no
    response the program panics there.  With the feeds "down", which
    cannot be fetched, and "up", and a store that does not answer when the
    failure of "down" is to be logged, [fetchRSS] does not return: the run
    ends in the loop, "up" is never requested, nothing is published and
    nothing is printed.  The COS program, in the same world, logs the
    failure of the store, fetches "up" and returns its article and no
    error. *)
Theorem Github_logError_panic_ends_run :
  exists st1,
    Github.readFeedsFromGitHub unheard_world
      (st_with "api/rss_feeds.txt" ("down" +:+ nl +:+ "up" +:+ nl))
    = (Returned (["down"; "up"], None), st1)
    /\ (exists err, http_Get unheard_world 0 "down" = inr err)
    /\ length (yields unheard_world 0 ["down"; "up"]) = 1%nat
    /\ (Github.fetchRSS unheard_world (@sort.Slice) ["down"; "up"] st1).1
       = Panicked
    /\ requests
         (Github.fetchRSS unheard_world (@sort.Slice) ["down"; "up"] st1).2
       = ["down"]
    /\ (Github.main unheard_world (@sort.Slice)
          (st_with "api/rss_feeds.txt" ("down" +:+ nl +:+ "up" +:+ nl))).1
       = Panicked
    /\ stdout
         (Github.main unheard_world (@sort.Slice)
            (st_with "api/rss_feeds.txt" ("down" +:+ nl +:+ "up" +:+ nl))).2
       = []
    /\ objects
         (Github.main unheard_world (@sort.Slice)
            (st_with "api/rss_feeds.txt" ("down" +:+ nl +:+ "up" +:+ nl))).2
         !! "api/rss_data.json" = None
    /\ (COS.fetchRSS unheard_world (@sort.Slice) ["down"; "up"] st1).1.2
       = None
    /\ map COS.Name
           (elems (COS.fetchRSS unheard_world (@sort.Slice) ["down"; "up"]
                                st1).1.1)
       = ["port"]
    /\ requests
         (COS.fetchRSS unheard_world (@sort.Slice) ["down"; "up"] st1).2
       = ["down"; "up"].
Proof.
  eexists. split; [vm_compute; reflexivity|].
  split; [eexists; vm_compute; reflexivity|].
  repeat split; vm_compute; reflexivity.
Qed.

(** ** The domain of a feed *)

Lemma extractDomain_ok s u :
  url.Parse s = inl u ->
  extractDomain s =
    ((if String.eqb (url.Scheme u) EmptyString then "https"
      else url.Scheme u) +:+ "://" +:+ url.Hostname u, None).
Proof.
  unfold extractDomain. intros ->.
  destruct (String.eqb (url.Scheme u) EmptyString); simpl; [reflexivity|].
  now rewrite append_assoc_s.
Qed.

Lemma extractDomain_err s err :
  url.Parse s = inr err -> extractDomain s = (EmptyString, Some err).
Proof. unfold extractDomain. now intros ->. Qed.

Lemma ContainsByte_app a b c :
  strings.ContainsByte (a +:+ b) c
  = strings.ContainsByte a c || strings.ContainsByte b c.
Proof.
  unfold strings.ContainsByte.
  induction a as [|d a IH]; rewrite ?append_cons_s, ?append_nil_s;
    [reflexivity|].
  simpl. destruct (Ascii.eqb c d); [reflexivity|].
  destruct (strings.IndexByte (a +:+ b) c), (strings.IndexByte a c);
    simpl in *; auto.
Qed.

(* A domain that was extracted holds "://": it is not the sentinel. *)
Lemma extractDomain_not_unknown s domainName :
  extractDomain s = (domainName, None) -> domainName <> "unknown".
Proof.
  unfold extractDomain. destruct (url.Parse s) as [u|err]; [|discriminate].
  intros [= <-] H.
  apply (f_equal (fun x => strings.ContainsByte x ":")) in H.
  rewrite ContainsByte_app in H.
  destruct (negb (String.eqb (url.Scheme u) EmptyString)).
  - rewrite ContainsByte_app in H. simpl in H.
    rewrite orb_true_r in H. discriminate.
  - discriminate.
Qed.

Lemma domainKept_unknown s :
  domainKept s = "unknown" <-> exists err, url.Parse s = inr err.
Proof.
  unfold domainKept.
  destruct (extractDomain s) as [d [e|]] eqn:E.
  - split; [intros _|reflexivity]. unfold extractDomain in E.
    destruct (url.Parse s) as [u|err]; [discriminate|]. now exists err.
  - split.
    + intros ->. now apply extractDomain_not_unknown in E.
    + intros [err H]. rewrite (extractDomain_err _ _ H) in E. discriminate.
Qed.



(** C10.  For every string that [url.Parse] accepts, [extractDomain]
    returns no error and yields the parsed scheme (or "https"), "://" and
    the parsed host name; [url.Parse] accepts the empty string and
    "example.com/path", both with an empty host, so the domain is then
    "https://"; and the domain an article is published with is "unknown"
    exactly when [url.Parse] rejects the link of its feed.  The article is
    the one a turn of the loop has appended when it is over; the turn is
    over whenever the store answers the calls of the logging. *)
Theorem extractDomain_follows_Parse (urlStr : string) :
  (forall u, url.Parse urlStr = inl u ->
     extractDomain urlStr =
       ((if String.eqb (url.Scheme u) EmptyString then "https"
         else url.Scheme u) +:+ "://" +:+ url.Hostname u, None))
  /\ (forall err, url.Parse urlStr = inr err ->
        extractDomain urlStr = (EmptyString, Some err))
  /\ (domainKept urlStr = "unknown" <-> exists err, url.Parse urlStr = inr err)
  /\ (forall w feedURL body feed item items arts st,
        http_Get w (length (requests st)) feedURL = inl body ->
        ParseString w (cleanXMLContent body) = inl feed ->
        Items feed = item :: items ->
        FeedLink feed = urlStr ->
        (forall arts' st',
           Github.fetchOne w feedURL arts st = (Returned arts', st') ->
           exists a, arts' = append arts a
                     /\ Github.DomainName a = domainKept urlStr)
        /\ (Answers w ->
            exists arts' st',
              Github.fetchOne w feedURL arts st = (Returned arts', st')))
  /\ url.Parse EmptyString =
       inl {| url.Scheme := EmptyString; url.Opaque := EmptyString;
              url.Host := EmptyString; url.Path := EmptyString;
              url.RawQuery := EmptyString; url.Fragment := EmptyString |}
  /\ url.Parse "example.com/path" =
       inl {| url.Scheme := EmptyString; url.Opaque := EmptyString;
              url.Host := EmptyString; url.Path := "example.com/path";
              url.RawQuery := EmptyString; url.Fragment := EmptyString |}
  /\ extractDomain EmptyString = ("https://", None)
  /\ extractDomain "example.com/path" = ("https://", None).
Proof.
  split; [apply extractDomain_ok|].
  split; [apply extractDomain_err|].
  split; [apply domainKept_unknown|].
  split; [|repeat split; reflexivity].
  intros w feedURL body feed item items arts st Hget Hparse Hitems <-.
  split; [|apply Github_fetchOne_returns].
  intros arts' st' Hrun.
  pose proof (Github_fetchOne_spec w feedURL arts st) as H.
  rewrite Hrun in H. destruct H as [_ H].
  rewrite Hget, Hparse, Hitems in H. cbv zeta in H.
  destruct H as (Ha & _). eexists. split; [exact Ha|]. reflexivity.
Qed.

Lemma extractDomain_follows_Parse_witness :
  http_Get (table_world [("u", linkless)]) 0 "u" = inl "u"
  /\ ParseString (table_world [("u", linkless)]) (cleanXMLContent "u")
     = inl linkless
  /\ exists a st',
       Github.fetchOne (table_world [("u", linkless)]) "u" nil_slice st0
       = (Returned (append nil_slice a), st')
       /\ Github.DomainName a = "https://".
Proof.
  split; [reflexivity|]. split; [reflexivity|].
  destruct (extractDomain_follows_Parse EmptyString)
    as (_ & _ & _ & H & _).
  destruct (H (table_world [("u", linkless)]) "u" "u" linkless _ _
              nil_slice st0 eq_refl eq_refl eq_refl eq_refl)
    as (Hrun & Hret).
  assert (HA : Answers (table_world [("u", linkless)]))
    by (intros n f; discriminate).
  destruct (Hret HA) as (arts' & st' & E).
  destruct (Hrun arts' st' E) as (a & -> & Hd).
  exists a, st'. split; [exact E|exact Hd].
Defined.

(** ** The time of an article *)

Section ItemTime.
Context (w : World).

(** The GitHub program tries published, then updated: the first that
    parses is the time of the entry, and the resolution fails only when
    both fail (an empty field fails). *)
Lemma Github_itemTime_order item :
  (forall t, parseTime w (Published item) = (t, None) ->
             Github.itemTime w item = (t, None))
  /\ ((parseTime w (Published item)).2 <> None ->
      forall t, parseTime w (Updated item) = (t, None) ->
                Github.itemTime w item = (t, None))
  /\ ((Github.itemTime w item).2 <> None <->
      (parseTime w (Published item)).2 <> None
      /\ (parseTime w (Updated item)).2 <> None).
Proof.
  unfold Github.itemTime.
  destruct (parseTime w (Published item)) as [tp [ep|]] eqn:Ep; simpl.
  - destruct (String.eqb_spec (Updated item) EmptyString) as [Hu|Hu];
      simpl.
    + rewrite Hu, parseTime_empty. simpl.
      split; [discriminate|]. split; [discriminate|].
      split; [split|]; discriminate.
    + split; [discriminate|]. split; [auto|].
      split; [split; [discriminate|assumption] | tauto].
  - split; [now intros t [= <-]|]. split; [congruence|].
    split; [congruence | tauto].
Qed.

(** With an entry, a turn of the GitHub loop that is over has appended an
    article; its date is the resolved time, or the time of the clock when
    the resolution fails, and then exactly one entry is logged for it. *)
Lemma Github_fetchOne_time feedURL body feed item items arts st arts' st' :
  http_Get w (length (requests st)) feedURL = inl body ->
  ParseString w (cleanXMLContent body) = inl feed ->
  Items feed = item :: items ->
  Github.fetchOne w feedURL arts st = (Returned arts', st') ->
  let k := (ticks st + length (domainLog w (ticks st) (FeedLink feed)))%nat in
  exists a, arts' = append arts a
  /\ (forall t, Github.itemTime w item = (t, None) ->
        Github.Date a = formatTime t
        /\ logged st'
           = (logged st ++ domainLog w (ticks st) (FeedLink feed))%list)
  /\ (forall t err, Github.itemTime w item = (t, Some err) ->
        Github.Date a = formatTime (Now w (S k))
        /\ logged st'
           = (logged st ++ domainLog w (ticks st) (FeedLink feed)
              ++ [entry w (stampAt w k) "Getting article time error"
                        (ItemTitle item) err])%list).
Proof.
  intros Hget Hparse Hitems Hrun k.
  pose proof (Github_fetchOne_spec w feedURL arts st) as H.
  rewrite Hrun in H. destruct H as [_ H].
  rewrite Hget, Hparse, Hitems in H. cbv zeta in H.
  destruct H as (Ha & _ & Hlog). fold k in Ha, Hlog.
  eexists. split; [exact Ha|]. simpl. unfold timeKept, timeLog in *. split.
  - intros t E. rewrite E in *. simpl in *.
    rewrite app_nil_r in Hlog. auto.
  - intros t err E. rewrite E in *. simpl in *. auto.
Qed.

End ItemTime.

(** C2, on the COS program.  An entry with neither field gets the zero
    time - the date "January 1, 0001" - and nothing is logged; an entry
    whose published field does not parse gets the time of the clock and a
    log entry although its updated field parses.  On the same feeds the
    GitHub program substitutes the clock and logs once, and takes the
    updated field. *)
Theorem COS_itemTime_skips_fallback :
  (COS.fetchOne (table_world [("u", undated)]) "u" nil_slice st0).1
  = mk_slice [{| COS.Name := "undated"; COS.Title := "Post of undated";
                 COS.Link := "https://undated.example/post";
                 COS.Date := "January 1, 0001" |}]
  /\ logged (COS.fetchOne (table_world [("u", undated)]) "u" nil_slice st0).2
     = []
  /\ map COS.Date
         (elems (COS.fetchOne (table_world [("u", updated_only)]) "u"
                              nil_slice st0).1)
     = ["July 26, 2024"]
  /\ logged (COS.fetchOne (table_world [("u", updated_only)]) "u"
                          nil_slice st0).2
     = ["[Fri Jul 26 18:00:2024] [Getting article time error] "
          +:+ "Post of updated: unable to parse time: yesterday"]
  /\ (exists arts,
        (Github.fetchOne (table_world [("u", undated)]) "u" nil_slice st0).1
        = Returned arts
        /\ map Github.Date (elems arts) = ["July 26, 2024"])
  /\ logged (Github.fetchOne (table_world [("u", undated)]) "u"
                             nil_slice st0).2
     = ["[Fri Jul 26 18:00:2024] [Getting article time error] "
          +:+ "Post of undated: unable to parse time: "]
  /\ (exists arts,
        (Github.fetchOne (table_world [("u", updated_only)]) "u"
                         nil_slice st0).1
        = Returned arts
        /\ map Github.Date (elems arts) = ["July 20, 2024"])
  /\ logged (Github.fetchOne (table_world [("u", updated_only)]) "u"
                             nil_slice st0).2
     = [].
Proof.
  repeat split; try (vm_compute; reflexivity);
    (eexists; split; [vm_compute; reflexivity|]; vm_compute; reflexivity).
Qed.

(** ** The collected articles *)

Section Collected.
Context (w : World).

Lemma Github_fetchAll_yields feeds arts st arts' st' :
  Github.fetchAll w feeds arts st = (Returned arts', st') ->
  exists new,
    elems arts' = (elems arts ++ new)%list
    /\ Forall2 Github_article_of new
               (yields w (length (requests st)) feeds)
    /\ (arts' = nil_slice <-> arts = nil_slice /\ new = []).
Proof.
  revert arts st. induction feeds as [|f feeds IH]; intros arts st.
  - intros [= <- <-]. exists []. simpl. rewrite app_nil_r.
    repeat split; auto. tauto.
  - cbn [Github.fetchAll yields]. unfold_M.
    pose proof (Github_fetchOne_spec w f arts st) as H.
    destruct (Github.fetchOne w f arts st) as [[arts1|] st1];
      [|discriminate].
    destruct H as [Hr H]. intros Hrun.
    destruct (IH arts1 st1 Hrun) as (new & Hnew & Hall & Hnil).
    rewrite Hr, length_app, Nat.add_1_r in Hall. simpl in Hall.
    unfold yield.
    destruct (http_Get w _ f) as [body|err];
      [destruct (ParseString w _) as [feed|err];
       [destruct (Items feed) as [|item items]|]|];
      cbv zeta in H; destruct H as (-> & _).
    2: { exists ({| Github.DomainName := domainKept (FeedLink feed);
                    Github.Name := FeedTitle feed;
                    Github.Title := ItemTitle item;
                    Github.Link := ItemLink item;
                    Github.Date :=
                      formatTime
                        (timeKept w
                           (ticks st
                            + length (domainLog w (ticks st) (FeedLink feed)))
                           (Github.itemTime w item)) |} :: new).
         rewrite Hnew. simpl. rewrite <- app_assoc. split; [reflexivity|].
         split; [constructor; [repeat split|exact Hall]|].
         rewrite Hnil. split; [intros [[=] _] | intros [_ [=]]]. }
    all: exists new; auto.
Qed.

Lemma COS_fetchAll_yields feeds arts st :
  exists new,
    elems (COS.fetchAll w feeds arts st).1 = (elems arts ++ new)%list
    /\ Forall2 COS_article_of new (yields w (length (requests st)) feeds)
    /\ ((COS.fetchAll w feeds arts st).1 = nil_slice <->
        arts = nil_slice /\ new = []).
Proof.
  revert arts st. induction feeds as [|f feeds IH]; intros arts st.
  - exists []. simpl. rewrite app_nil_r. repeat split; auto. tauto.
  - cbn [COS.fetchAll yields]. unfold_M.
    pose proof (COS_fetchOne_spec w f arts st) as [Hr H].
    destruct (COS.fetchOne w f arts st) as [arts' st'].
    simpl in Hr, H.
    destruct (IH arts' st') as (new & Hnew & Hall & Hnil).
    rewrite Hr, length_app, Nat.add_1_r in Hall. simpl in Hall.
    unfold yield.
    destruct (http_Get w _ f) as [body|err];
      [destruct (ParseString w _) as [feed|err];
       [destruct (Items feed) as [|item items]|]|];
      cbv zeta in H; destruct H as (-> & _).
    2: { exists ({| COS.Name := FeedTitle feed;
                    COS.Title := ItemTitle item;
                    COS.Link := ItemLink item;
                    COS.Date :=
                      formatTime (timeKept w (ticks st)
                                           (COS.itemTime w item)) |} :: new).
         rewrite Hnew. simpl. rewrite <- app_assoc. split; [reflexivity|].
         split; [constructor; [repeat split|exact Hall]|].
         rewrite Hnil. split; [intros [[=] _] | intros [_ [=]]]. }
    all: exists new; auto.
Qed.

End Collected.

(** ** Sorting *)

Module sort_facts.
Import sort.

Section Swap.
Context {A : Type}.
Implicit Types (data : list A) (i j k a b : nat).

Lemma Swap_length data i j : length (Swap data i j) = length data.
Proof.
  unfold Swap. destruct (data !! i), (data !! j); auto.
  now rewrite !length_insert.
Qed.

Lemma Swap_lookup data i j k :
  (i < length data)%nat -> (j < length data)%nat ->
  Swap data i j !! k =
    if decide (k = i) then data !! j
    else if decide (k = j) then data !! i
    else data !! k.
Proof.
  intros Hi Hj. unfold Swap.
  destruct (lookup_lt_is_Some_2 data i Hi) as [x Hx].
  destruct (lookup_lt_is_Some_2 data j Hj) as [y Hy].
  rewrite Hx, Hy.
  destruct (decide (k = i)) as [->|Hki].
  - rewrite list_lookup_insert_eq; [reflexivity|].
    now rewrite length_insert.
  - rewrite list_lookup_insert_ne by auto.
    destruct (decide (k = j)) as [->|Hkj].
    + now rewrite list_lookup_insert_eq.
    + now rewrite list_lookup_insert_ne.
Qed.

Lemma Swap_lookup_other data i j k :
  k <> i -> k <> j -> Swap data i j !! k = data !! k.
Proof.
  intros Hi Hj. unfold Swap.
  destruct (data !! i) eqn:Ei, (data !! j) eqn:Ej; auto.
  now rewrite !list_lookup_insert_ne.
Qed.

Lemma Swap_Permutation data i j : Permutation data (Swap data i j).
Proof.
  unfold Swap.
  destruct (data !! i) as [x|] eqn:Ei; [|reflexivity].
  destruct (data !! j) as [y|] eqn:Ej; [|reflexivity].
  destruct (decide (i = j)) as [->|Hne].
  - rewrite Ei in Ej. injection Ej as ->.
    rewrite list_insert_insert_eq, list_insert_id; auto.
  - apply Permutation_inj. split; [now rewrite !length_insert|].
    exists (fun k => if decide (k = i) then j
                     else if decide (k = j) then i else k).
    split.
    + intros k1 k2. repeat case_decide; congruence.
    + intros k. apply lookup_lt_Some in Ei as Hi.
      apply lookup_lt_Some in Ej as Hj.
      destruct (decide (k = i)) as [->|Hki].
      * rewrite list_lookup_insert_ne by auto.
        rewrite list_lookup_insert_eq by auto. now rewrite Ei.
      * destruct (decide (k = j)) as [->|Hkj].
        -- rewrite list_lookup_insert_eq by (now rewrite length_insert).
           now rewrite Ej.
        -- now rewrite !list_lookup_insert_ne.
Qed.

Lemma RangePerm_refl a b data : RangePerm a b data data.
Proof. split; auto. Qed.

Lemma RangePerm_trans a b data1 data2 data3 :
  RangePerm a b data1 data2 -> RangePerm a b data2 data3 ->
  RangePerm a b data1 data3.
Proof.
  intros [P1 F1] [P2 F2]. split; [now rewrite P1|].
  intros k Hk. now rewrite F2, F1.
Qed.

Lemma RangePerm_weaken a b a' b' data data' :
  (a' <= a)%nat -> (b <= b')%nat ->
  RangePerm a b data data' -> RangePerm a' b' data data'.
Proof.
  intros Ha Hb [P F]. split; [exact P|]. intros k Hk. apply F. lia.
Qed.

Lemma RangePerm_Swap a b data i j :
  (a <= i < b)%nat -> (a <= j < b)%nat ->
  RangePerm a b data (Swap data i j).
Proof.
  intros Hi Hj. split; [apply Swap_Permutation|].
  intros k Hk. apply Swap_lookup_other; lia.
Qed.

Lemma RangePerm_length a b data data' :
  RangePerm a b data data' -> length data' = length data.
Proof. intros [P _]. now rewrite P. Qed.

(* The elements of the range are the same ones. *)
Lemma RangePerm_sub a b data data' :
  (a <= b)%nat ->
  RangePerm a b data data' ->
  Permutation (take (b - a) (drop a data)) (take (b - a) (drop a data')).
Proof.
  intros Hab [P F].
  assert (Hlen : length data' = length data) by now rewrite P.
  assert (Ht : take a data' = take a data).
  { apply list_eq. intros k. destruct (decide (k < a)%nat).
    - rewrite !lookup_take_lt by lia. apply F. lia.
    - rewrite !lookup_take_ge by lia. reflexivity. }
  assert (Hd : drop b data' = drop b data).
  { apply list_eq. intros k. rewrite !lookup_drop. apply F. lia. }
  rewrite <- (take_drop a data) in P at 1.
  rewrite <- (take_drop a data') in P.
  rewrite Ht in P. apply Permutation_app_inv_l in P.
  rewrite <- (take_drop (b - a) (drop a data)) in P at 1.
  rewrite <- (take_drop (b - a) (drop a data')) in P.
  rewrite !drop_drop in P.
  replace (a + (b - a))%nat with b in P by lia.
  rewrite Hd in P. now apply Permutation_app_inv_r in P.
Qed.

Lemma RangePerm_all (P : A -> Prop) a b data data' :
  RangePerm a b data data' ->
  (forall k x, (a <= k < b)%nat -> data !! k = Some x -> P x) ->
  forall k x, (a <= k < b)%nat -> data' !! k = Some x -> P x.
Proof.
  intros HR Hall k x Hk Hx.
  assert (Hab : (a <= b)%nat) by lia.
  pose proof (RangePerm_sub a b data data' Hab HR) as Hs.
  assert (Hin : x ∈ take (b - a) (drop a data')).
  { apply list_elem_of_lookup. exists (k - a)%nat.
    rewrite lookup_take_lt by lia. rewrite lookup_drop.
    now replace (a + (k - a))%nat with k by lia. }
  rewrite <- Hs in Hin. apply list_elem_of_lookup in Hin as [m Hm].
  apply lookup_take_Some in Hm as [Hm Hlt].
  rewrite lookup_drop in Hm. apply (Hall (a + m)%nat); auto. lia.
Qed.

End Swap.

(** *** Nothing is lost

    The functions of the sort move the elements by [Swap] only, so each
    of them permutes the slice, whatever [less] answers. *)

Section Permutes.
Context {A : Type} (less : A -> A -> bool).
Implicit Types (data : list A) (i j k a b : nat).

Local Ltac swapped :=
  etransitivity; [apply Swap_Permutation|].

Lemma insert_down_Permutation data a j :
  Permutation data (insert_down less data a j).
Proof.
  revert data. induction j as [|j IH]; intros data; simpl; [reflexivity|].
  destruct (_ && _); [|reflexivity]. swapped. apply IH.
Qed.

Lemma insertionSort_from_Permutation n data a i :
  Permutation data (insertionSort_from less n data a i).
Proof.
  revert data i. induction n as [|n IH]; intros data i; simpl;
    [reflexivity|].
  etransitivity; [apply insert_down_Permutation|apply IH].
Qed.

Lemma insertionSort_func_Permutation data a b :
  Permutation data (insertionSort_func less data a b).
Proof. apply insertionSort_from_Permutation. Qed.

Lemma siftDown_fuel_Permutation fuel data root hi first :
  Permutation data (siftDown_fuel less fuel data root hi first).
Proof.
  revert data root. induction fuel as [|fuel IH]; intros data root;
    cbn [siftDown_fuel]; [reflexivity|].
  destruct (_ <=? _)%nat; [reflexivity|].
  destruct (negb _); [reflexivity|]. swapped. apply IH.
Qed.

Lemma downto_Permutation (f : list A -> nat -> list A) data i :
  (forall d k, Permutation d (f d k)) -> Permutation data (downto f data i).
Proof.
  intros Hf. revert data. induction i as [|i IH]; intros data; simpl.
  - apply Hf.
  - etransitivity; [apply Hf|apply IH].
Qed.

Lemma heapSort_func_Permutation data a b :
  Permutation data (heapSort_func less data a b).
Proof.
  unfold heapSort_func. destruct (b - a)%nat; [reflexivity|].
  etransitivity; apply downto_Permutation; intros d k.
  - apply siftDown_fuel_Permutation.
  - swapped. apply siftDown_fuel_Permutation.
Qed.

Lemma partition_loop_Permutation fuel data a i j :
  Permutation data (partition_loop less fuel data a i j).1.
Proof.
  revert data i j. induction fuel as [|fuel IH]; intros data i j;
    cbn [partition_loop]; [reflexivity|].
  destruct (_ <? _)%nat; [reflexivity|]. swapped. apply IH.
Qed.

Lemma partition_func_Permutation data a b pivot :
  Permutation data (partition_func less data a b pivot).1.1.
Proof.
  unfold partition_func. cbv zeta.
  destruct (_ <? _)%nat; cbn [fst]; [do 2 swapped; reflexivity|].
  match goal with
  | |- context [partition_loop less ?f ?d ?x ?y ?z] =>
    pose proof (partition_loop_Permutation f d x y z) as H;
      destruct (partition_loop less f d x y z) as [d' j']
  end.
  cbn [fst] in *. do 2 swapped. etransitivity; [exact H|].
  apply Swap_Permutation.
Qed.

Lemma partitionEqual_loop_Permutation fuel data a i j :
  Permutation data (partitionEqual_loop less fuel data a i j).1.
Proof.
  revert data i j. induction fuel as [|fuel IH]; intros data i j;
    cbn [partitionEqual_loop]; [reflexivity|].
  destruct (_ <? _)%nat; [reflexivity|]. swapped. apply IH.
Qed.

Lemma partitionEqual_func_Permutation data a b pivot :
  Permutation data (partitionEqual_func less data a b pivot).1.
Proof.
  unfold partitionEqual_func. swapped.
  apply partitionEqual_loop_Permutation.
Qed.

Lemma shift_left_Permutation data j :
  Permutation data (shift_left less data j).
Proof.
  revert data. induction j as [|j IH]; intros data; simpl; [reflexivity|].
  destruct (negb _); [reflexivity|]. swapped. apply IH.
Qed.

Lemma shift_right_Permutation n data j :
  Permutation data (shift_right less n data j).
Proof.
  revert data j. induction n as [|n IH]; intros data j; simpl;
    [reflexivity|].
  destruct (negb _); [reflexivity|]. swapped. apply IH.
Qed.

Lemma partialInsertionSort_loop_Permutation steps data a b i :
  Permutation data (partialInsertionSort_loop less steps data a b i).1.
Proof.
  revert data i. induction steps as [|steps IH]; intros data i;
    cbn [partialInsertionSort_loop]; [reflexivity|].
  destruct (_ =? _)%nat; [reflexivity|].
  destruct (_ <? _)%nat; [reflexivity|].
  etransitivity; [|apply IH]. swapped.
  etransitivity; [|destruct (_ <=? _)%nat;
                   [apply shift_right_Permutation|reflexivity]].
  destruct (_ <=? _)%nat; [apply shift_left_Permutation|reflexivity].
Qed.

Lemma partialInsertionSort_func_Permutation data a b :
  Permutation data (partialInsertionSort_func less data a b).1.
Proof. apply partialInsertionSort_loop_Permutation. Qed.

Lemma breakPatterns_func_Permutation data a b :
  Permutation data (breakPatterns_func data a b).
Proof.
  unfold breakPatterns_func. destruct (_ <=? _)%nat; [|reflexivity].
  cbn [fold_left fst]. do 3 swapped. reflexivity.
Qed.

Lemma reverseRange_loop_Permutation n data i j :
  Permutation data (reverseRange_loop n data i j).
Proof.
  revert data i j. induction n as [|n IH]; intros data i j; simpl;
    [reflexivity|].
  destruct (_ <? _)%nat; [|reflexivity]. swapped. apply IH.
Qed.

Lemma pdqsort_fuel_Permutation fuel :
  forall data a b limit wasBalanced wasPartitioned,
    Permutation data
      (pdqsort_fuel less fuel data a b limit wasBalanced wasPartitioned).
Proof.
  induction fuel as [|fuel IH]; intros data a b limit wb wp;
    cbn [pdqsort_fuel]; [reflexivity|].
  destruct (_ <=? _)%nat; [apply insertionSort_func_Permutation|].
  destruct (_ =? _)%nat; [apply heapSort_func_Permutation|].
  destruct (if negb wb then _ else _) as [d1 limit1] eqn:E1.
  assert (P1 : Permutation data d1).
  { destruct wb; simpl in E1; injection E1 as <- <-;
      [reflexivity|apply breakPatterns_func_Permutation]. }
  destruct (choosePivot_func less d1 a b) as [pivot0 hint0].
  destruct (match hint0 with decreasingHint => _ | _ => _ end)
    as [[d2 pivot] hint] eqn:E3.
  assert (P2 : Permutation d1 d2).
  { destruct hint0; injection E3 as <- <- <-; try reflexivity.
    apply reverseRange_loop_Permutation. }
  destruct (if wb && wp && isIncreasing hint then _ else _)
    as [d3 sorted] eqn:E4.
  assert (P3 : Permutation d2 d3).
  { destruct (wb && wp && isIncreasing hint).
    - pose proof (partialInsertionSort_func_Permutation d2 a b) as H.
      now rewrite E4 in H.
    - now injection E4 as <- <-. }
  assert (P : Permutation data d3)
    by (etransitivity; [exact P1|]; etransitivity; [exact P2|exact P3]).
  destruct sorted; [exact P|]. clear E4.
  destruct ((0 <? a)%nat && _).
  - pose proof (partitionEqual_func_Permutation d3 a b pivot) as H.
    destruct (partitionEqual_func less d3 a b pivot) as [d4 mid].
    cbn [fst] in H. etransitivity; [exact P|].
    etransitivity; [exact H|apply IH].
  - pose proof (partition_func_Permutation d3 a b pivot) as H.
    destruct (partition_func less d3 a b pivot) as [[d4 mid] ap].
    cbn [fst] in H. etransitivity; [exact P|].
    etransitivity; [exact H|].
    destruct (_ <? _)%nat; (etransitivity; [apply IH|apply IH]).
Qed.

Lemma Slice_Permutation data : Permutation data (Slice less data).
Proof. apply pdqsort_fuel_Permutation. Qed.

End Permutes.

Section Order.
Context {A : Type} (less : A -> A -> bool) (Hless : StrictWeak less).
Implicit Types (data : list A) (i j k a b : nat).

Lemma less_irrefl x : less x x = false.
Proof. apply Hless. Qed.

Lemma less_asym x y : less x y = true -> less y x = false.
Proof.
  destruct Hless as (Hi & Ht & _). intros H.
  destruct (less y x) eqn:E; [|reflexivity].
  pose proof (Ht _ _ _ H E) as H'. now rewrite Hi in H'.
Qed.

(* "not less" is transitive: it is the order "at most", reversed *)
Lemma le_trans x y z :
  less y x = false -> less z y = false -> less z x = false.
Proof. destruct Hless as (_ & _ & Hn). eauto. Qed.

Lemma less_le_trans x y z :
  less x y = true -> less z y = false -> less x z = true.
Proof.
  intros H1 H2. destruct (less x z) eqn:E; [reflexivity|].
  pose proof (le_trans _ _ _ H2 E) as H. congruence.
Qed.

Lemma le_less_trans x y z :
  less y x = false -> less y z = true -> less x z = true.
Proof.
  intros H1 H2. destruct (less x z) eqn:E; [reflexivity|].
  pose proof (le_trans _ _ _ E H1) as H. congruence.
Qed.

Lemma Less_lookup data i j x y :
  data !! i = Some x -> data !! j = Some y ->
  Less less data i j = less x y.
Proof. unfold Less. now intros -> ->. Qed.

Lemma SortedRange_frame a b data data' :
  (forall k, (a <= k < b)%nat -> data' !! k = data !! k) ->
  SortedRange less a b data -> SortedRange less a b data'.
Proof.
  intros Hf Hs i j x y Hi Hij Hj Hx Hy.
  rewrite Hf in Hx, Hy by lia. eauto.
Qed.

Lemma SortedRange_short a b data :
  (b <= S a)%nat -> SortedRange less a b data.
Proof. intros H i j x y ? ? ?. lia. Qed.

(* A sorted range is extended by an element that is not less than any
   element of the range. *)
Lemma SortedRange_snoc a j data y :
  SortedRange less a j data -> data !! j = Some y ->
  (forall k x, (a <= k < j)%nat -> data !! k = Some x ->
               less y x = false) ->
  SortedRange less a (S j) data.
Proof.
  intros Hs Hy Hall i k x z Hi Hik Hk Hx Hz.
  destruct (decide (k = j)) as [->|Hne].
  - rewrite Hy in Hz. injection Hz as <-. apply (Hall i); [lia|exact Hx].
  - apply (Hs i k); auto; lia.
Qed.

Lemma insert_down_spec data a j :
  (a <= j)%nat -> (j < length data)%nat ->
  SortedRange less a j data ->
  RangePerm a (S j) data (insert_down less data a j)
  /\ SortedRange less a (S j) (insert_down less data a j).
Proof.
  revert data. induction j as [|j IH]; intros data Ha Hj Hs.
  - simpl. split; [apply RangePerm_refl|].
    apply SortedRange_short. lia.
  - cbn [insert_down].
    destruct (lookup_lt_is_Some_2 data (S j) Hj) as [x Hx].
    destruct (lookup_lt_is_Some_2 data j ltac:(lia)) as [y Hy].
    rewrite (Less_lookup _ _ _ _ _ Hx Hy).
    destruct (Nat.ltb_spec a (S j)) as [Haj|Haj]; simpl.
    2: { split; [apply RangePerm_refl|].
         apply SortedRange_short. lia. }
    destruct (less x y) eqn:Exy.
    + set (d1 := Swap data (S j) j).
      assert (L1 : forall k, d1 !! k =
                     if decide (k = S j) then data !! j
                     else if decide (k = j) then data !! (S j)
                     else data !! k)
        by (intros k; apply Swap_lookup; lia).
      destruct (IH d1) as [HR HS].
      * lia.
      * unfold d1. rewrite Swap_length. lia.
      * apply (SortedRange_frame a j data).
        -- intros k Hk. rewrite L1. repeat case_decide; try lia; auto.
        -- intros i k u v ? ? ?. apply Hs; auto.
      * split.
        -- eapply RangePerm_trans;
             [apply (RangePerm_Swap a (S (S j)) data (S j) j); lia|].
           eapply RangePerm_weaken; [| |exact HR]; lia.
        -- assert (Hy' : insert_down less d1 a j !! S j = Some y).
           { destruct HR as [_ F]. rewrite F by lia. rewrite L1.
             now rewrite decide_True. }
           apply (SortedRange_snoc a (S j) _ y HS Hy').
           apply (RangePerm_all _ a (S j) d1 _ HR).
           intros k u Hk Hu. rewrite L1 in Hu.
           rewrite decide_False in Hu by lia.
           destruct (decide (k = j)) as [->|Hkj].
           ++ rewrite Hx in Hu. injection Hu as <-. now apply less_asym.
           ++ apply (Hs k j); auto; lia.
    + split; [apply RangePerm_refl|].
      apply (SortedRange_snoc a (S j) data x Hs Hx).
      intros k u Hk Hu.
      destruct (decide (k = j)) as [->|Hkj].
      * rewrite Hy in Hu. now injection Hu as <-.
      * apply (le_trans u y x); auto. apply (Hs k j); auto; lia.
Qed.

Lemma insertionSort_from_spec n data a i :
  (a <= i)%nat -> (i + n <= length data)%nat ->
  SortedRange less a i data ->
  RangePerm a (i + n) data (insertionSort_from less n data a i)
  /\ SortedRange less a (i + n) (insertionSort_from less n data a i).
Proof.
  revert data i. induction n as [|n IH]; intros data i Ha Hn Hs.
  - simpl. rewrite Nat.add_0_r. split; [apply RangePerm_refl|exact Hs].
  - cbn [insertionSort_from].
    destruct (insert_down_spec data a i) as [HR HS]; auto; [lia|].
    destruct (IH (insert_down less data a i) (S i)) as [HR' HS'].
    + lia.
    + rewrite (RangePerm_length _ _ _ _ HR). lia.
    + exact HS.
    + replace (i + S n)%nat with (S i + n)%nat by lia. split; auto.
      eapply RangePerm_trans; [|exact HR'].
      eapply RangePerm_weaken; [| |exact HR]; lia.
Qed.

Lemma insertionSort_func_spec data a b :
  (a <= b)%nat -> (b <= length data)%nat ->
  RangePerm a b data (insertionSort_func less data a b)
  /\ SortedRange less a b (insertionSort_func less data a b).
Proof.
  intros Hab Hb. unfold insertionSort_func.
  destruct (decide (b <= a + 1)%nat) as [Hs|Hl].
  - replace (b - (a + 1))%nat with O by lia. simpl.
    split; [apply RangePerm_refl|]. apply SortedRange_short. lia.
  - destruct (insertionSort_from_spec (b - (a + 1)) data a (a + 1))
      as [HR HS]; try lia.
    + apply SortedRange_short. lia.
    + replace (a + 1 + (b - (a + 1)))%nat with b in * by lia. auto.
Qed.

(** *** The scans of the partitions *)

Lemma scan_up_spec n (cond : nat -> bool) i j :
  (j + 1 - i <= n)%nat ->
  (i <= scan_up n cond i j)%nat
  /\ (scan_up n cond i j <= Nat.max i (j + 1))%nat
  /\ (forall k, (i <= k < scan_up n cond i j)%nat -> cond k = true)
  /\ ((scan_up n cond i j <= j)%nat -> cond (scan_up n cond i j) = false).
Proof.
  revert i. induction n as [|n IH]; intros i Hn; simpl.
  - repeat split; try lia.
  - destruct (Nat.leb_spec i j) as [Hij|Hij]; simpl.
    + destruct (cond i) eqn:Ec.
      * destruct (IH (S i)) as (H1 & H2 & H3 & H4); [lia|].
        repeat split; try lia; auto.
        intros k Hk. destruct (decide (k = i)) as [->|]; auto.
        apply H3. lia.
      * repeat split; try lia; auto.
    + repeat split; try lia.
Qed.

Lemma scan_down_spec n (cond : nat -> bool) i j :
  (1 <= i)%nat -> (j + 1 - i <= n)%nat -> (i <= j + 1)%nat ->
  (scan_down n cond i j <= j)%nat
  /\ (i <= scan_down n cond i j + 1)%nat
  /\ (forall k, (scan_down n cond i j < k <= j)%nat -> cond k = true)
  /\ ((i <= scan_down n cond i j)%nat ->
      cond (scan_down n cond i j) = false).
Proof.
  intros Hi. revert j. induction n as [|n IH]; intros j Hn Hij; simpl.
  - repeat split; try lia.
  - destruct (Nat.leb_spec i j) as [Hle|Hle]; simpl.
    + destruct (cond j) eqn:Ec.
      * destruct (IH (j - 1)%nat) as (H1 & H2 & H3 & H4); [lia|lia|].
        repeat split; try lia; auto.
        intros k Hk. destruct (decide (k = j)) as [->|]; auto.
        apply H3. lia.
      * repeat split; try lia; auto.
    + repeat split; try lia.
Qed.

(** *** partition_func *)

Lemma partition_loop_spec fuel data a b i j p :
  (a < i)%nat -> (i <= j + 1)%nat -> (j < b)%nat ->
  (b <= length data)%nat -> (j + 1 - i < fuel)%nat ->
  data !! a = Some p ->
  (forall k x, (a < k < i)%nat -> data !! k = Some x -> less x p = true) ->
  (forall k x, (j < k < b)%nat -> data !! k = Some x -> less x p = false) ->
  RangePerm (S a) b data (partition_loop less fuel data a i j).1
  /\ (a <= (partition_loop less fuel data a i j).2 < b)%nat
  /\ (partition_loop less fuel data a i j).1 !! a = Some p
  /\ (forall k x,
        (a < k <= (partition_loop less fuel data a i j).2)%nat ->
        (partition_loop less fuel data a i j).1 !! k = Some x ->
        less x p = true)
  /\ (forall k x,
        ((partition_loop less fuel data a i j).2 < k < b)%nat ->
        (partition_loop less fuel data a i j).1 !! k = Some x ->
        less x p = false).
Proof.
  revert data i j.
  induction fuel as [|fuel IH]; intros data i j Hai Hij Hjb Hb Hf Ha Hlo Hhi;
    [lia|].
  cbn [partition_loop].
  destruct (scan_up_spec (S j - i) (fun i => Less less data i a) i j)
    as (U1 & U2 & U3 & U4); [lia|].
  set (i1 := scan_up _ _ i j) in *.
  destruct (scan_down_spec (S j - i1)
              (fun j => negb (Less less data j a)) i1 j)
    as (D1 & D2 & D3 & D4); [lia|lia|lia|].
  set (j1 := scan_down _ _ i1 j) in *.
  assert (Hlow : forall k x, (a < k < i1)%nat -> data !! k = Some x ->
                             less x p = true).
  { intros k x Hk Hx. destruct (decide (k < i)%nat); [apply (Hlo k); auto; lia|].
    specialize (U3 k ltac:(lia)). cbv beta in U3.
    now rewrite (Less_lookup _ _ _ _ _ Hx Ha) in U3. }
  assert (Hhigh : forall k x, (j1 < k < b)%nat -> data !! k = Some x ->
                              less x p = false).
  { intros k x Hk Hx. destruct (decide (j < k)%nat); [apply (Hhi k); auto; lia|].
    specialize (D3 k ltac:(lia)). cbv beta in D3.
    rewrite (Less_lookup _ _ _ _ _ Hx Ha) in D3.
    now apply negb_true_iff in D3. }
  destruct (Nat.ltb_spec j1 i1) as [Hex|Hcont].
  - simpl. split; [apply RangePerm_refl|]. split; [lia|].
    split; [exact Ha|]. split.
    + intros k x Hk. apply Hlow. lia.
    + intros k x Hk. apply Hhigh. lia.
  - destruct (lookup_lt_is_Some_2 data i1 ltac:(lia)) as [x1 Hx1].
    destruct (lookup_lt_is_Some_2 data j1 ltac:(lia)) as [y1 Hy1].
    specialize (U4 ltac:(lia)). cbv beta in U4.
    rewrite (Less_lookup _ _ _ _ _ Hx1 Ha) in U4.
    specialize (D4 Hcont). cbv beta in D4.
    rewrite (Less_lookup _ _ _ _ _ Hy1 Ha) in D4.
    apply negb_false_iff in D4.
    assert (Hne : i1 <> j1) by (intros E; rewrite E in Hx1; congruence).
    set (d1 := Swap data i1 j1).
    assert (L1 : forall k, d1 !! k =
                   if decide (k = i1) then data !! j1
                   else if decide (k = j1) then data !! i1
                   else data !! k)
      by (intros k; apply Swap_lookup; lia).
    destruct (IH d1 (S i1) (j1 - 1)%nat) as (R1 & R2 & R3 & R4 & R5);
      try lia.
    + unfold d1. rewrite Swap_length. lia.
    + rewrite L1. repeat case_decide; try lia. exact Ha.
    + intros k x Hk Hx. rewrite L1 in Hx.
      destruct (decide (k = i1)) as [->|]; [congruence|].
      rewrite decide_False in Hx by lia. apply (Hlow k); auto. lia.
    + intros k x Hk Hx. rewrite L1 in Hx.
      rewrite decide_False in Hx by lia.
      destruct (decide (k = j1)) as [->|]; [congruence|].
      apply (Hhigh k); auto. lia.
    + split; [|auto].
      eapply RangePerm_trans; [|exact R1].
      apply RangePerm_Swap; lia.
Qed.

(* The first turn of the loop is written out in partition_func. *)
Lemma partition_func_loop data a b pivot :
  let r := partition_loop less (S (b - a)) (Swap data a pivot) a (a + 1)
                          (b - 1) in
  (partition_func less data a b pivot).1
  = (Swap r.1 r.2 a, r.2).
Proof.
  unfold partition_func. cbn [partition_loop].
  destruct (_ <? _)%nat; [reflexivity|].
  now destruct (partition_loop _ _ _ _ _ _).
Qed.

Lemma partition_func_spec data a b pivot p :
  (a <= pivot)%nat -> (pivot < b)%nat -> (b <= length data)%nat ->
  data !! pivot = Some p ->
  let d := (partition_func less data a b pivot).1.1 in
  let mid := (partition_func less data a b pivot).1.2 in
  RangePerm a b data d
  /\ (a <= mid < b)%nat
  /\ d !! mid = Some p
  /\ (forall k x, (a <= k < mid)%nat -> d !! k = Some x -> less x p = true)
  /\ (forall k x, (mid < k < b)%nat -> d !! k = Some x -> less x p = false).
Proof.
  intros Hap Hpb Hb Hp d mid. subst d mid.
  rewrite partition_func_loop. cbv zeta. cbn [fst snd].
  set (d0 := Swap data a pivot).
  assert (L0 : forall k, d0 !! k =
                 if decide (k = a) then data !! pivot
                 else if decide (k = pivot) then data !! a
                 else data !! k)
    by (intros k; apply Swap_lookup; lia).
  assert (Ha0 : d0 !! a = Some p) by (rewrite L0, decide_True; auto).
  assert (Hlen0 : (b <= length d0)%nat)
    by (unfold d0; rewrite Swap_length; lia).
  assert (Hlo0 : forall k x, (a < k < a + 1)%nat -> d0 !! k = Some x ->
                             less x p = true) by (intros; lia).
  assert (Hhi0 : forall k x, (b - 1 < k < b)%nat -> d0 !! k = Some x ->
                             less x p = false) by (intros; lia).
  destruct (partition_loop_spec (S (b - a)) d0 a b (a + 1) (b - 1) p
              ltac:(lia) ltac:(lia) ltac:(lia) Hlen0 ltac:(lia) Ha0
              Hlo0 Hhi0)
    as (R1 & R2 & R3 & R4 & R5).
  set (r := partition_loop _ _ _ _ _ _) in *.
  assert (Hlen : length r.1 = length data).
  { rewrite (RangePerm_length _ _ _ _ R1). apply Swap_length. }
  assert (L : forall k, Swap r.1 r.2 a !! k =
                if decide (k = r.2) then r.1 !! a
                else if decide (k = a) then r.1 !! r.2
                else r.1 !! k)
    by (intros k; apply Swap_lookup; lia).
  split; [|split; [lia|split; [|split]]].
  - eapply RangePerm_trans; [apply (RangePerm_Swap a b data a pivot); lia|].
    eapply RangePerm_trans;
      [eapply RangePerm_weaken; [| |exact R1]; lia|].
    apply RangePerm_Swap; lia.
  - rewrite L, decide_True; auto.
  - intros k x Hk Hx. rewrite L in Hx.
    rewrite decide_False in Hx by lia.
    destruct (decide (k = a)) as [->|].
    + apply (R4 r.2); auto. lia.
    + apply (R4 k); auto. lia.
  - intros k x Hk Hx. rewrite L in Hx.
    rewrite !decide_False in Hx by lia. apply (R5 k); auto.
Qed.

(** *** partitionEqual_func *)

Lemma partitionEqual_loop_spec fuel data a b i j p :
  (a < i)%nat -> (i <= j + 1)%nat -> (j < b)%nat ->
  (b <= length data)%nat -> (j + 1 - i < fuel)%nat ->
  data !! a = Some p ->
  (forall k x, (a < k < i)%nat -> data !! k = Some x -> less p x = false) ->
  (forall k x, (j < k < b)%nat -> data !! k = Some x -> less p x = true) ->
  RangePerm (S a) b data (partitionEqual_loop less fuel data a i j).1
  /\ (a < (partitionEqual_loop less fuel data a i j).2 <= b)%nat
  /\ (partitionEqual_loop less fuel data a i j).1 !! a = Some p
  /\ (forall k x,
        (a < k < (partitionEqual_loop less fuel data a i j).2)%nat ->
        (partitionEqual_loop less fuel data a i j).1 !! k = Some x ->
        less p x = false)
  /\ (forall k x,
        ((partitionEqual_loop less fuel data a i j).2 <= k < b)%nat ->
        (partitionEqual_loop less fuel data a i j).1 !! k = Some x ->
        less p x = true).
Proof.
  revert data i j.
  induction fuel as [|fuel IH]; intros data i j Hai Hij Hjb Hb Hf Ha Hlo Hhi;
    [lia|].
  cbn [partitionEqual_loop].
  destruct (scan_up_spec (S j - i) (fun i => negb (Less less data a i)) i j)
    as (U1 & U2 & U3 & U4); [lia|].
  set (i1 := scan_up _ _ i j) in *.
  destruct (scan_down_spec (S j - i1) (fun j => Less less data a j) i1 j)
    as (D1 & D2 & D3 & D4); [lia|lia|lia|].
  set (j1 := scan_down _ _ i1 j) in *.
  assert (Hlow : forall k x, (a < k < i1)%nat -> data !! k = Some x ->
                             less p x = false).
  { intros k x Hk Hx. destruct (decide (k < i)%nat); [apply (Hlo k); auto; lia|].
    specialize (U3 k ltac:(lia)). cbv beta in U3.
    rewrite (Less_lookup _ _ _ _ _ Ha Hx) in U3.
    now apply negb_true_iff in U3. }
  assert (Hhigh : forall k x, (j1 < k < b)%nat -> data !! k = Some x ->
                              less p x = true).
  { intros k x Hk Hx. destruct (decide (j < k)%nat); [apply (Hhi k); auto; lia|].
    specialize (D3 k ltac:(lia)). cbv beta in D3.
    now rewrite (Less_lookup _ _ _ _ _ Ha Hx) in D3. }
  destruct (Nat.ltb_spec j1 i1) as [Hex|Hcont].
  - simpl. split; [apply RangePerm_refl|]. split; [lia|].
    split; [exact Ha|]. split.
    + intros k x Hk. apply Hlow. lia.
    + intros k x Hk. apply Hhigh. lia.
  - destruct (lookup_lt_is_Some_2 data i1 ltac:(lia)) as [x1 Hx1].
    destruct (lookup_lt_is_Some_2 data j1 ltac:(lia)) as [y1 Hy1].
    specialize (U4 ltac:(lia)). cbv beta in U4.
    rewrite (Less_lookup _ _ _ _ _ Ha Hx1) in U4.
    apply negb_false_iff in U4.
    specialize (D4 Hcont). cbv beta in D4.
    rewrite (Less_lookup _ _ _ _ _ Ha Hy1) in D4.
    assert (Hne : i1 <> j1) by (intros E; rewrite E in Hx1; congruence).
    set (d1 := Swap data i1 j1).
    assert (L1 : forall k, d1 !! k =
                   if decide (k = i1) then data !! j1
                   else if decide (k = j1) then data !! i1
                   else data !! k)
      by (intros k; apply Swap_lookup; lia).
    destruct (IH d1 (S i1) (j1 - 1)%nat) as (R1 & R2 & R3 & R4 & R5);
      try lia.
    + unfold d1. rewrite Swap_length. lia.
    + rewrite L1. repeat case_decide; try lia. exact Ha.
    + intros k x Hk Hx. rewrite L1 in Hx.
      destruct (decide (k = i1)) as [->|]; [congruence|].
      rewrite decide_False in Hx by lia. apply (Hlow k); auto. lia.
    + intros k x Hk Hx. rewrite L1 in Hx.
      rewrite decide_False in Hx by lia.
      destruct (decide (k = j1)) as [->|]; [congruence|].
      apply (Hhigh k); auto. lia.
    + split; [|auto].
      eapply RangePerm_trans; [|exact R1].
      apply RangePerm_Swap; lia.
Qed.

Lemma partitionEqual_func_spec data a b pivot p :
  (a <= pivot)%nat -> (pivot < b)%nat -> (b <= length data)%nat ->
  data !! pivot = Some p ->
  let d := (partitionEqual_func less data a b pivot).1 in
  let mid := (partitionEqual_func less data a b pivot).2 in
  RangePerm a b data d
  /\ (a < mid <= b)%nat
  /\ (forall k x, (a <= k < mid)%nat -> d !! k = Some x -> less p x = false)
  /\ (forall k x, (mid <= k < b)%nat -> d !! k = Some x -> less p x = true).
Proof.
  intros Hap Hpb Hb Hp d mid. subst d mid. unfold partitionEqual_func.
  set (d0 := Swap data a pivot).
  assert (L0 : forall k, d0 !! k =
                 if decide (k = a) then data !! pivot
                 else if decide (k = pivot) then data !! a
                 else data !! k)
    by (intros k; apply Swap_lookup; lia).
  assert (Ha0 : d0 !! a = Some p) by (rewrite L0, decide_True; auto).
  assert (Hlen0 : (b <= length d0)%nat)
    by (unfold d0; rewrite Swap_length; lia).
  assert (Hlo0 : forall k x, (a < k < a + 1)%nat -> d0 !! k = Some x ->
                             less p x = false) by (intros; lia).
  assert (Hhi0 : forall k x, (b - 1 < k < b)%nat -> d0 !! k = Some x ->
                             less p x = true) by (intros; lia).
  destruct (partitionEqual_loop_spec (b - a) d0 a b (a + 1) (b - 1) p
              ltac:(lia) ltac:(lia) ltac:(lia) Hlen0 ltac:(lia) Ha0
              Hlo0 Hhi0)
    as (R1 & R2 & R3 & R4 & R5).
  set (r := partitionEqual_loop _ _ _ _ _ _) in *.
  split; [|split; [lia|split]].
  - eapply RangePerm_trans; [apply (RangePerm_Swap a b data a pivot); lia|].
    eapply RangePerm_weaken; [| |exact R1]; lia.
  - intros k x Hk Hx. destruct (decide (k = a)) as [->|].
    + rewrite R3 in Hx. injection Hx as <-. apply less_irrefl.
    + apply (R4 k); auto. lia.
  - exact R5.
Qed.

(** *** The choice of the pivot and the shuffles *)

Lemma order2_func_in data x y s :
  ((order2_func less data x y s).1.1 = x
   /\ (order2_func less data x y s).1.2 = y)
  \/ ((order2_func less data x y s).1.1 = y
      /\ (order2_func less data x y s).1.2 = x).
Proof. unfold order2_func. destruct (Less _ _ _ _); simpl; auto. Qed.

Lemma median_func_in data x y z s :
  (median_func less data x y z s).1 = x
  \/ (median_func less data x y z s).1 = y
  \/ (median_func less data x y z s).1 = z.
Proof.
  unfold median_func.
  pose proof (order2_func_in data x y s) as H1.
  destruct (order2_func less data x y s) as [[x1 y1] s1]. simpl in H1.
  pose proof (order2_func_in data y1 z s1) as H2.
  destruct (order2_func less data y1 z s1) as [[y2 z2] s2]. simpl in H2.
  pose proof (order2_func_in data x1 y2 s2) as H3.
  destruct (order2_func less data x1 y2 s2) as [[x3 y3] s3]. simpl in *.
  intuition congruence.
Qed.

Lemma choosePivot_func_range data a b :
  (a < b)%nat ->
  (a <= (choosePivot_func less data a b).1 < b)%nat.
Proof.
  intros Hab. unfold choosePivot_func, medianAdjacent_func, shortestNinther.
  set (l := (b - a)%nat).
  pose proof (Nat.div_mod_eq l 4) as Hdiv.
  pose proof (Nat.mod_upper_bound l 4 ltac:(lia)) as Hmod.
  set (q := (l / 4)%nat) in *.
  destruct (Nat.leb_spec 8 l) as [H8|H8].
  - assert (2 <= q)%nat by lia.
    destruct (Nat.leb_spec 50 l) as [H50|H50].
    + assert (12 <= q)%nat by lia.
      pose proof (median_func_in data (a + q * 1 - 1) (a + q * 1)
                                 (a + q * 1 + 1) 0) as Hi.
      destruct (median_func less data (a + q * 1 - 1) (a + q * 1)
                            (a + q * 1 + 1) 0) as [i s1].
      pose proof (median_func_in data (a + q * 2 - 1) (a + q * 2)
                                 (a + q * 2 + 1) s1) as Hj.
      destruct (median_func less data (a + q * 2 - 1) (a + q * 2)
                            (a + q * 2 + 1) s1) as [j s2].
      pose proof (median_func_in data (a + q * 3 - 1) (a + q * 3)
                                 (a + q * 3 + 1) s2) as Hk.
      destruct (median_func less data (a + q * 3 - 1) (a + q * 3)
                            (a + q * 3 + 1) s2) as [k s3].
      pose proof (median_func_in data i j k s3) as Hm.
      destruct (median_func less data i j k s3) as [m s4]. simpl in *.
      repeat case_match; simpl; lia.
    + pose proof (median_func_in data (a + q * 1) (a + q * 2) (a + q * 3) 0)
        as Hm.
      destruct (median_func less data (a + q * 1) (a + q * 2) (a + q * 3) 0)
        as [m s4]. simpl in *.
      repeat case_match; simpl; lia.
  - simpl. unfold l in *. lia.
Qed.

Lemma reverseRange_loop_spec n data a b i j :
  (a <= i)%nat -> (j < b)%nat ->
  RangePerm a b data (reverseRange_loop n data i j).
Proof.
  revert data i j. induction n as [|n IH]; intros data i j Hi Hj; simpl.
  - apply RangePerm_refl.
  - destruct (Nat.ltb_spec i j); [|apply RangePerm_refl].
    eapply RangePerm_trans; [apply (RangePerm_Swap a b data i j); lia|].
    apply IH; lia.
Qed.

Lemma reverseRange_func_spec data a b :
  (a < b)%nat -> RangePerm a b data (reverseRange_func data a b).
Proof. intros H. apply reverseRange_loop_spec; lia. Qed.

Lemma xorshiftNext_nonneg r : 0 <= r -> 0 <= xorshiftNext r.
Proof.
  intros Hr. unfold xorshiftNext.
  assert (H1 : 0 <= Z.lxor r (Z.shiftl r 13 mod 2 ^ 64)).
  { apply Z.lxor_nonneg. split; intros _; [|exact Hr].
    apply Z.mod_pos_bound. lia. }
  assert (H2 : 0 <= Z.lxor (Z.lxor r (Z.shiftl r 13 mod 2 ^ 64))
                           (Z.shiftr (Z.lxor r (Z.shiftl r 13 mod 2 ^ 64)) 7)).
  { apply Z.lxor_nonneg. split; intros _; [|exact H1].
    now apply Z.shiftr_nonneg. }
  apply Z.lxor_nonneg. split; intros _; [|exact H2].
  apply Z.mod_pos_bound. lia.
Qed.

(* The index breakPatterns_func draws is inside the range. *)
Lemma breakPatterns_other length random :
  (0 < length)%nat -> 0 <= random ->
  let modulus := Z.shiftl 1 (Z.of_nat (bitsLen length)) in
  let other := Z.to_nat (Z.land random (modulus - 1)) in
  ((if (length <=? other)%nat then (other - length)%nat else other)
   < length)%nat.
Proof.
  intros Hl Hr modulus other.
  assert (Hm : modulus <= 2 * Z.of_nat length).
  { unfold modulus, bitsLen. destruct length as [|n]; [lia|].
    rewrite Z.shiftl_1_l, Nat2Z.inj_succ, Z.pow_succ_r by lia.
    pose proof (Nat.log2_spec (S n) ltac:(lia)) as [Hlo _].
    apply Nat2Z.inj_le in Hlo. rewrite Nat2Z.inj_pow in Hlo.
    simpl Z.of_nat in Hlo at 1. lia. }
  assert (Hpos : 0 < modulus).
  { unfold modulus. rewrite Z.shiftl_1_l. apply Z.pow_pos_nonneg; lia. }
  assert (Ho : 0 <= Z.land random (modulus - 1) <= modulus - 1).
  { replace (modulus - 1) with (Z.ones (Z.of_nat (bitsLen length)))
      by (unfold modulus; rewrite Z.ones_equiv, Z.shiftl_1_l; lia).
    rewrite Z.land_ones, Z.ones_equiv by lia.
    pose proof (Z.mod_pos_bound random (2 ^ Z.of_nat (bitsLen length))) as Hb.
    unfold modulus in *. rewrite Z.shiftl_1_l in *. lia. }
  destruct (Nat.leb_spec length other); unfold other in *; lia.
Qed.

Lemma breakPatterns_func_spec data a b :
  (a <= b)%nat -> RangePerm a b data (breakPatterns_func data a b).
Proof.
  intros Hab. unfold breakPatterns_func.
  destruct (Nat.leb_spec 8 (b - a)) as [H8|H8]; [|apply RangePerm_refl].
  set (l := (b - a)%nat) in *.
  pose proof (Nat.div_mod_eq l 4) as Hdiv.
  pose proof (Nat.mod_upper_bound l 4 ltac:(lia)) as Hmod.
  set (q := (l / 4)%nat) in *.
  cbn [fold_left fst].
  set (r1 := xorshiftNext (Z.of_nat l)).
  set (r2 := xorshiftNext r1). set (r3 := xorshiftNext r2).
  assert (H1 : 0 <= r1) by (apply xorshiftNext_nonneg; lia).
  assert (H2 : 0 <= r2) by (now apply xorshiftNext_nonneg).
  assert (H3 : 0 <= r3) by (now apply xorshiftNext_nonneg).
  pose proof (breakPatterns_other l r1 ltac:(lia) H1) as B1.
  pose proof (breakPatterns_other l r2 ltac:(lia) H2) as B2.
  pose proof (breakPatterns_other l r3 ltac:(lia) H3) as B3.
  cbv zeta in B1, B2, B3.
  repeat match goal with
         | H : ((if ?c then ?x else ?y) < l)%nat |- _ =>
           let o := fresh "o" in
           set (o := if c then x else y) in *; clearbody o
         end.
  eapply RangePerm_trans; [|apply RangePerm_Swap; lia].
  eapply RangePerm_trans; [|apply RangePerm_Swap; lia].
  apply RangePerm_Swap; lia.
Qed.

(** *** The element before the range *)

Lemma LowerBound_RangePerm a b data data' :
  RangePerm a b data data' ->
  LowerBound less a b data -> LowerBound less a b data'.
Proof.
  intros HR HL x k y Ha Hx Hk Hy.
  assert (Hx' : data !! (a - 1)%nat = Some x).
  { destruct HR as [_ F]. rewrite <- F by lia. exact Hx. }
  revert k y Hk Hy.
  apply (RangePerm_all (fun y => less y x = false) a b data data' HR).
  intros k y Hk Hy. now apply (HL x k y).
Qed.

Lemma LowerBound_shrink a b b' data :
  (b' <= b)%nat -> LowerBound less a b data -> LowerBound less a b' data.
Proof.
  intros Hb HL x k y Ha Hx Hk Hy. apply (HL x k y); auto. lia.
Qed.

(* Under its lower bound the shift to the left stops inside the range. *)
Lemma shift_left_insert_down data a j :
  (a <= j)%nat -> (j < length data)%nat ->
  LowerBound less a (S j) data ->
  shift_left less data j = insert_down less data a j.
Proof.
  revert data. induction j as [|j IH]; intros data Ha Hj HL; [reflexivity|].
  cbn [shift_left insert_down].
  destruct (lookup_lt_is_Some_2 data (S j) Hj) as [x Hx].
  destruct (lookup_lt_is_Some_2 data j ltac:(lia)) as [y Hy].
  rewrite (Less_lookup _ _ _ _ _ Hx Hy).
  destruct (Nat.ltb_spec a (S j)) as [Haj|Haj]; simpl.
  - destruct (less x y) eqn:Exy; simpl; [|reflexivity].
    apply IH; [lia|rewrite Swap_length; lia|].
    apply (LowerBound_shrink a (S (S j))); [lia|].
    apply (LowerBound_RangePerm a (S (S j)) data); [|exact HL].
    apply RangePerm_Swap; lia.
  - assert (a = S j) as -> by lia.
    assert (E : less x y = false).
    { apply (HL y (S j) x); [lia| |lia|exact Hx].
      now replace (S j - 1)%nat with j by lia. }
    now rewrite E.
Qed.

Lemma shift_right_spec n data i b j :
  (i < j)%nat -> (j + n <= b)%nat ->
  RangePerm i b data (shift_right less n data j).
Proof.
  revert data j. induction n as [|n IH]; intros data j Hi Hj; simpl.
  - apply RangePerm_refl.
  - destruct (negb _); [apply RangePerm_refl|].
    eapply RangePerm_trans; [apply (RangePerm_Swap i b data j (j - 1)); lia|].
    apply IH; lia.
Qed.

(* A sorted prefix grows over the adjacent pairs that are in order. *)
Lemma SortedRange_extend a i i' data :
  (a < i)%nat -> (i <= i')%nat -> (i' <= length data)%nat ->
  SortedRange less a i data ->
  (forall k, (i <= k < i')%nat -> Less less data k (k - 1) = false) ->
  SortedRange less a i' data.
Proof.
  intros Ha Hi Hl Hs Hadj.
  induction i' as [|i' IH]; [intros ? ? ? ? ? ? ?; lia|].
  destruct (decide (i = S i')) as [<-|Hne]; [exact Hs|].
  assert (Hs' : SortedRange less a i' data).
  { apply IH; [lia|lia|]. intros k Hk. apply Hadj. lia. }
  destruct (lookup_lt_is_Some_2 data i' ltac:(lia)) as [y Hy].
  destruct (lookup_lt_is_Some_2 data (i' - 1) ltac:(lia)) as [z Hz].
  assert (Hyz : less y z = false).
  { rewrite <- (Less_lookup data i' (i' - 1) y z Hy Hz).
    apply Hadj. lia. }
  apply (SortedRange_snoc a i' data y Hs' Hy).
  intros k x Hk Hx.
  destruct (decide (k = (i' - 1)%nat)) as [->|Hk'].
  - rewrite Hz in Hx. now injection Hx as <-.
  - apply (le_trans x z y); auto.
    apply (Hs' k (i' - 1)%nat); auto; lia.
Qed.

Lemma partialInsertionSort_loop_spec steps data a b i :
  (a < i)%nat -> (i <= b)%nat -> (b <= length data)%nat ->
  LowerBound less a b data -> SortedRange less a i data ->
  RangePerm a b data (partialInsertionSort_loop less steps data a b i).1
  /\ ((partialInsertionSort_loop less steps data a b i).2 = true ->
      SortedRange less a b
                  (partialInsertionSort_loop less steps data a b i).1).
Proof.
  revert data i. induction steps as [|steps IH];
    intros data i Ha Hi Hb HL Hs; cbn [partialInsertionSort_loop].
  - split; [apply RangePerm_refl|discriminate].
  - set (cond := fun k => negb (Less less data k (k - 1))).
    destruct (scan_up_spec (b - i) cond i (b - 1) ltac:(lia))
      as (S1 & S2 & S3 & S4).
    set (i' := scan_up (b - i) cond i (b - 1)) in *.
    assert (Hi' : (i' <= b)%nat) by lia.
    assert (Hs' : SortedRange less a i' data).
    { apply (SortedRange_extend a i i' data); auto; [lia|].
      intros k Hk. specialize (S3 k Hk). unfold cond in S3.
      now apply negb_true_iff in S3. }
    destruct (Nat.eqb_spec i' b) as [E|E].
    { split; [apply RangePerm_refl|]. intros _. now rewrite <- E. }
    destruct (Nat.ltb_spec (b - a) shortestShifting).
    { split; [apply RangePerm_refl|discriminate]. }
    set (d1 := Swap data i' (i' - 1)).
    assert (R1 : RangePerm a b data d1)
      by (apply RangePerm_Swap; lia).
    assert (L1 : LowerBound less a b d1)
      by (now apply (LowerBound_RangePerm a b data)).
    assert (Len1 : length d1 = length data) by apply Swap_length.
    set (d2 := if (2 <=? i' - a)%nat then shift_left less d1 (i' - 1)
               else d1).
    assert (R2 : RangePerm a i' d1 d2 /\ SortedRange less a i' d2).
    { unfold d2. destruct (Nat.leb_spec 2 (i' - a)).
      - rewrite (shift_left_insert_down d1 a (i' - 1)); [|lia|lia|].
        + replace i' with (S (i' - 1)) at 1 3 by lia.
          apply insert_down_spec; [lia|lia|].
          apply (SortedRange_frame a (i' - 1) data).
          * intros k Hk. apply Swap_lookup_other; lia.
          * intros ? ? ? ? ? ? ?. apply Hs'; auto; lia.
        + apply (LowerBound_shrink a b); [lia|exact L1].
      - split; [apply RangePerm_refl|]. apply SortedRange_short. lia. }
    destruct R2 as [R2 S2'].
    assert (R2' : RangePerm a b d1 d2)
      by (eapply RangePerm_weaken; [| |exact R2]; lia).
    set (d3 := if (2 <=? b - i')%nat
               then shift_right less (b - (i' + 1)) d2 (i' + 1)
               else d2).
    assert (R3 : RangePerm i' b d2 d3).
    { unfold d3. destruct (Nat.leb_spec 2 (b - i')).
      - apply shift_right_spec; lia.
      - apply RangePerm_refl. }
    assert (R3' : RangePerm a b d2 d3)
      by (eapply RangePerm_weaken; [| |exact R3]; lia).
    assert (R : RangePerm a b data d3).
    { eapply RangePerm_trans; [exact R1|].
      eapply RangePerm_trans; [exact R2'|exact R3']. }
    destruct (IH d3 i') as [HR HS].
    + lia.
    + lia.
    + rewrite (RangePerm_length _ _ _ _ R). exact Hb.
    + now apply (LowerBound_RangePerm a b data).
    + apply (SortedRange_frame a i' d2); [|exact S2'].
      intros k Hk. destruct R3 as [_ F]. apply F. lia.
    + split; [|exact HS]. eapply RangePerm_trans; [exact R|exact HR].
Qed.

Lemma partialInsertionSort_func_spec data a b :
  (a < b)%nat -> (b <= length data)%nat ->
  LowerBound less a b data ->
  RangePerm a b data (partialInsertionSort_func less data a b).1
  /\ ((partialInsertionSort_func less data a b).2 = true ->
      SortedRange less a b (partialInsertionSort_func less data a b).1).
Proof.
  intros Hab Hb HL. apply partialInsertionSort_loop_spec; auto; try lia.
  apply SortedRange_short. lia.
Qed.

(** *** Heap sort *)

(* The two lookups are at the same index. *)
Ltac same_elt H H' :=
  match type of H with
  | ?d !! ?i = Some _ =>
    match type of H' with
    | d !! ?j = Some _ =>
      replace j with i in H' by lia; rewrite H in H'; injection H' as <-
    end
  end.

Lemma siftDown_fuel_spec fuel data first lo root hi :
  (lo <= root)%nat -> (first + hi <= length data)%nat ->
  (hi <= root + fuel)%nat ->
  (forall p c x y, (lo <= p)%nat -> p <> root -> (c < hi)%nat ->
     (c = 2 * p + 1 \/ c = 2 * p + 2)%nat ->
     data !! (first + p)%nat = Some x -> data !! (first + c)%nat = Some y ->
     less x y = false) ->
  (forall p c x y, (lo <= p)%nat ->
     (root = 2 * p + 1 \/ root = 2 * p + 2)%nat -> (c < hi)%nat ->
     (c = 2 * root + 1 \/ c = 2 * root + 2)%nat ->
     data !! (first + p)%nat = Some x -> data !! (first + c)%nat = Some y ->
     less x y = false) ->
  RangePerm first (first + hi) data
            (siftDown_fuel less fuel data root hi first)
  /\ Heap less first lo hi (siftDown_fuel less fuel data root hi first).
Proof.
  revert data root.
  induction fuel as [|fuel IH]; intros data root Hlo Hlen Hf I1 I2.
  { simpl. split; [apply RangePerm_refl|].
    intros p c x y Hp Hc Hpc Hx Hy. apply (I1 p c x y); auto. lia. }
  cbn [siftDown_fuel].
  destruct (Nat.leb_spec hi (2 * root + 1)) as [Hch|Hch].
  { split; [apply RangePerm_refl|].
    intros p c x y Hp Hc Hpc Hx Hy. apply (I1 p c x y); auto. lia. }
  set (m := if (2 * root + 1 + 1 <? hi)%nat
               && Less less data (first + (2 * root + 1))
                       (first + (2 * root + 1) + 1)
            then S (2 * root + 1) else (2 * root + 1)%nat).
  assert (Hm : (m = 2 * root + 1 \/ m = 2 * root + 2)%nat /\ (m < hi)%nat
               /\ forall c y ym, (c < hi)%nat ->
                    (c = 2 * root + 1 \/ c = 2 * root + 2)%nat ->
                    data !! (first + c)%nat = Some y ->
                    data !! (first + m)%nat = Some ym ->
                    less ym y = false).
  { unfold m.
    destruct (lookup_lt_is_Some_2 data (first + (2 * root + 1))
                                  ltac:(lia)) as [u Hu].
    destruct (Nat.ltb_spec (2 * root + 1 + 1) hi) as [H2|H2]; cbn [andb].
    - destruct (lookup_lt_is_Some_2 data (first + (2 * root + 1) + 1)
                                    ltac:(lia)) as [v Hv].
      rewrite (Less_lookup _ _ _ _ _ Hu Hv).
      destruct (less u v) eqn:Euv.
      + split; [lia|]. split; [lia|].
        intros c y ym Hc [->| ->] Hy Hym.
        * same_elt Hu Hy. same_elt Hv Hym. now apply less_asym.
        * same_elt Hv Hy. same_elt Hv Hym. apply less_irrefl.
      + split; [lia|]. split; [lia|].
        intros c y ym Hc [->| ->] Hy Hym.
        * same_elt Hu Hy. same_elt Hu Hym. apply less_irrefl.
        * same_elt Hv Hy. same_elt Hu Hym. exact Euv.
    - split; [lia|]. split; [lia|].
      intros c y ym Hc [->| ->] Hy Hym; [|lia].
      same_elt Hu Hy. same_elt Hu Hym. apply less_irrefl. }
  clearbody m. destruct Hm as (Hmc & Hmh & Hmax).
  destruct (lookup_lt_is_Some_2 data (first + root) ltac:(lia)) as [xr Hxr].
  destruct (lookup_lt_is_Some_2 data (first + m) ltac:(lia)) as [ym Hym].
  rewrite (Less_lookup _ _ _ _ _ Hxr Hym).
  destruct (less xr ym) eqn:E; cbn [negb].
  - set (d1 := Swap data (first + root) (first + m)).
    assert (L1 : forall k, d1 !! k =
                   if decide (k = (first + root)%nat)
                   then data !! (first + m)%nat
                   else if decide (k = (first + m)%nat)
                        then data !! (first + root)%nat
                        else data !! k)
      by (intros k; apply Swap_lookup; lia).
    destruct (IH d1 m) as [HR HH].
    + lia.
    + unfold d1. rewrite Swap_length. exact Hlen.
    + lia.
    + intros p c x y Hp Hpm Hc Hpc Hx Hy. rewrite L1 in Hx, Hy.
      destruct (decide (p = root)) as [->|Hpr].
      * rewrite decide_True in Hx by reflexivity.
        rewrite Hym in Hx. injection Hx as <-.
        rewrite decide_False in Hy by lia.
        destruct (decide (c = m)) as [->|Hcm].
        -- rewrite decide_True in Hy by reflexivity.
           rewrite Hxr in Hy. injection Hy as <-. now apply less_asym.
        -- rewrite decide_False in Hy by lia.
           apply (Hmax c y ym); auto.
      * rewrite decide_False in Hx by lia.
        rewrite decide_False in Hx by lia.
        destruct (decide (c = root)) as [->|Hcr].
        -- rewrite decide_True in Hy by reflexivity.
           rewrite Hym in Hy. injection Hy as <-.
           apply (I2 p m x ym); auto.
        -- rewrite decide_False in Hy by lia.
           rewrite decide_False in Hy by lia.
           apply (I1 p c x y); auto.
    + intros p c x y Hp Hmp Hc Hcm Hx Hy. rewrite L1 in Hx, Hy.
      assert (p = root) as -> by lia.
      rewrite decide_True in Hx by reflexivity.
      rewrite Hym in Hx. injection Hx as <-.
      rewrite decide_False in Hy by lia.
      rewrite decide_False in Hy by lia.
      apply (I1 m c ym y); auto; lia.
    + split; [|exact HH].
      eapply RangePerm_trans; [|exact HR].
      apply RangePerm_Swap; lia.
  - split; [apply RangePerm_refl|].
    intros p c x y Hp Hc Hpc Hx Hy.
    destruct (decide (p = root)) as [->|Hpr].
    + rewrite Hxr in Hx. injection Hx as <-.
      apply (le_trans y ym xr); auto. apply (Hmax c y ym); auto.
    + apply (I1 p c x y); auto.
Qed.

Lemma siftDown_func_spec data first lo hi :
  (first + hi <= length data)%nat ->
  Heap less first (S lo) hi data ->
  RangePerm first (first + hi) data (siftDown_func less data lo hi first)
  /\ Heap less first lo hi (siftDown_func less data lo hi first).
Proof.
  intros Hlen HH. apply siftDown_fuel_spec; [lia|exact Hlen|lia| |].
  - intros p c x y Hp Hne. apply HH. lia.
  - intros p c x y Hp Hr. lia.
Qed.

(* for i := (hi - 1) / 2; i >= 0; i-- { siftDown_func(data, i, hi, first) } *)
Lemma heapify_spec i data first hi :
  (first + hi <= length data)%nat ->
  Heap less first (S i) hi data ->
  RangePerm first (first + hi) data
            (downto (fun d i => siftDown_func less d i hi first) data i)
  /\ Heap less first 0 hi
          (downto (fun d i => siftDown_func less d i hi first) data i).
Proof.
  revert data. induction i as [|i IH]; intros data Hlen HH; cbn [downto].
  - now apply siftDown_func_spec.
  - destruct (siftDown_func_spec data first (S i) hi Hlen HH) as [R1 H1].
    destruct (IH (siftDown_func less data (S i) hi first)) as [R2 H2].
    + now rewrite (RangePerm_length _ _ _ _ R1).
    + exact H1.
    + split; [|exact H2]. eapply RangePerm_trans; [exact R1|exact R2].
Qed.

(* The root of a heap is not less than any of its elements. *)
Lemma Heap_root first hi data x :
  Heap less first 0 hi data -> data !! first = Some x ->
  forall c y, (c < hi)%nat -> data !! (first + c)%nat = Some y ->
              less x y = false.
Proof.
  intros HH Hx c. induction c as [c IH] using lt_wf_ind. intros y Hc Hy.
  destruct c as [|c].
  - replace (first + 0)%nat with first in Hy by lia.
    rewrite Hx in Hy. injection Hy as <-. apply less_irrefl.
  - pose proof (Nat.div_mod_eq c 2) as Hd.
    pose proof (Nat.mod_upper_bound c 2 ltac:(lia)) as Hm.
    set (p := (c / 2)%nat) in *.
    assert (Hp : is_Some (data !! (first + p)%nat)).
    { apply lookup_lt_is_Some_2. apply lookup_lt_Some in Hy. lia. }
    destruct Hp as [z Hz].
    apply (le_trans y z x).
    + apply (HH p (S c) z y); auto; lia.
    + apply (IH p); auto; lia.
Qed.

(* One turn of the second loop of heapSort_func. *)
Lemma heapSort_pop_spec data first hi i :
  (i < hi)%nat -> (first + hi <= length data)%nat ->
  Heap less first 0 (S i) data ->
  SortedRange less (first + S i) (first + hi) data ->
  (forall k j x y, (k <= i)%nat -> (i < j < hi)%nat ->
     data !! (first + k)%nat = Some x -> data !! (first + j)%nat = Some y ->
     less y x = false) ->
  let d := siftDown_func less (Swap data first (first + i)) 0 i first in
  RangePerm first (first + hi) data d
  /\ Heap less first 0 i d
  /\ SortedRange less (first + i) (first + hi) d
  /\ (forall k j x y, (k < i)%nat -> (i <= j < hi)%nat ->
        d !! (first + k)%nat = Some x -> d !! (first + j)%nat = Some y ->
        less y x = false).
Proof.
  intros Hi Hlen HH HS HC d.
  set (d1 := Swap data first (first + i)) in *.
  assert (L1 : forall k, d1 !! k =
                 if decide (k = first) then data !! (first + i)%nat
                 else if decide (k = (first + i)%nat) then data !! first
                      else data !! k)
    by (intros k; apply Swap_lookup; lia).
  assert (Len1 : length d1 = length data) by apply Swap_length.
  destruct (lookup_lt_is_Some_2 data first ltac:(lia)) as [r Hr].
  destruct (siftDown_fuel_spec i d1 first 0 0 i) as [R H2].
  { lia. } { lia. } { lia. }
  { intros p c x y Hp Hne Hc Hpc Hx Hy. rewrite L1 in Hx, Hy.
    rewrite decide_False in Hx by lia. rewrite decide_False in Hx by lia.
    rewrite decide_False in Hy by lia. rewrite decide_False in Hy by lia.
    apply (HH p c x y); auto; lia. }
  { intros p c x y Hp Hr'. lia. }
  fold (siftDown_func less d1 0 i first) in R, H2. fold d in R, H2.
  assert (R1 : RangePerm first (first + hi) data d1)
    by (apply RangePerm_Swap; lia).
  assert (Rd : RangePerm first (first + hi) d1 d)
    by (eapply RangePerm_weaken; [| |exact R]; lia).
  (* the elements from i on *)
  assert (Fd : forall j, (i <= j)%nat ->
                 d !! (first + j)%nat =
                 if decide (j = i) then Some r
                 else data !! (first + j)%nat).
  { intros j Hj. destruct R as [_ F]. rewrite F by lia. rewrite L1.
    destruct (decide (j = i)) as [->|Hne].
    - destruct (decide (i = 0%nat)) as [->|Hi0].
      + rewrite decide_True by lia.
        replace (first + 0)%nat with first by lia. exact Hr.
      + rewrite decide_False by lia. rewrite decide_True by lia. exact Hr.
    - rewrite decide_False by lia. rewrite decide_False by lia.
      reflexivity. }
  (* the elements before i are elements of the heap *)
  assert (Bd : forall k x, (k < i)%nat -> d !! (first + k)%nat = Some x ->
                 exists k', (k' <= i)%nat /\ data !! (first + k')%nat = Some x).
  { intros k x Hk Hx.
    assert (G : forall n z, (first <= n < first + i)%nat ->
                  d !! n = Some z ->
                  exists k', (k' <= i)%nat
                             /\ data !! (first + k')%nat = Some z).
    { apply (RangePerm_all _ first (first + i) d1 d R).
      intros n z Hn Hz. rewrite L1 in Hz.
      destruct (decide (n = first)) as [->|Hn'].
      - exists i. split; [lia|exact Hz].
      - rewrite decide_False in Hz by lia.
        exists (n - first)%nat. split; [lia|].
        now replace (first + (n - first))%nat with n by lia. }
    apply (G (first + k)%nat x); [lia|exact Hx]. }
  split; [eapply RangePerm_trans; [exact R1|exact Rd]|].
  split; [exact H2|].
  split.
  - intros j1 j2 x y H1 H12 H2' Hx Hy.
    replace j1 with (first + (j1 - first))%nat in Hx by lia.
    replace j2 with (first + (j2 - first))%nat in Hy by lia.
    rewrite Fd in Hx, Hy by lia.
    rewrite decide_False in Hy by lia.
    destruct (decide (j1 - first = i)%nat) as [E|E].
    + injection Hx as <-.
      apply (HC 0%nat (j2 - first)%nat r y); auto; [lia|lia|].
      now replace (first + 0)%nat with first by lia.
    + apply (HS (first + (j1 - first))%nat (first + (j2 - first))%nat);
        auto; lia.
  - intros k j x y Hk Hj Hx Hy.
    destruct (Bd k x Hk Hx) as (k' & Hk' & Hx').
    rewrite Fd in Hy by lia.
    destruct (decide (j = i)) as [->|Hne].
    + injection Hy as <-. apply (Heap_root first (S i) data r HH Hr k' x).
      * lia.
      * exact Hx'.
    + apply (HC k' j x y); auto; lia.
Qed.

(* for i := hi - 1; i >= 0; i-- { Swap(first, first+i); siftDown_func } *)
Lemma heapSort_pops_spec i data first hi :
  (i < hi)%nat -> (first + hi <= length data)%nat ->
  Heap less first 0 (S i) data ->
  SortedRange less (first + S i) (first + hi) data ->
  (forall k j x y, (k <= i)%nat -> (i < j < hi)%nat ->
     data !! (first + k)%nat = Some x -> data !! (first + j)%nat = Some y ->
     less y x = false) ->
  let d := downto (fun d i =>
                     siftDown_func less (Swap d first (first + i)) 0 i first)
                  data i in
  RangePerm first (first + hi) data d
  /\ SortedRange less first (first + hi) d.
Proof.
  revert data. induction i as [|i IH]; intros data Hi Hlen HH HS HC;
    cbn [downto]; cbv zeta.
  - destruct (heapSort_pop_spec data first hi 0 Hi Hlen HH HS HC)
      as (R & _ & S' & _).
    split; [exact R|].
    intros j1 j2 x y ? ? ? ? ?. apply (S' j1 j2); auto; lia.
  - destruct (heapSort_pop_spec data first hi (S i) Hi Hlen HH HS HC)
      as (R & H' & S' & C').
    cbv zeta in IH.
    set (d1 := siftDown_func less (Swap data first (first + S i)) 0 (S i)
                             first) in *.
    destruct (IH d1) as [R2 S2]; auto.
    + lia.
    + now rewrite (RangePerm_length _ _ _ _ R).
    + intros k j x y Hk Hj. apply C'; lia.
    + split; [|exact S2]. eapply RangePerm_trans; [exact R|exact R2].
Qed.

Lemma heapSort_func_spec data a b :
  (a <= b)%nat -> (b <= length data)%nat ->
  RangePerm a b data (heapSort_func less data a b)
  /\ SortedRange less a b (heapSort_func less data a b).
Proof.
  intros Hab Hb. unfold heapSort_func.
  destruct (b - a)%nat as [|n] eqn:En.
  { split; [apply RangePerm_refl|]. apply SortedRange_short. lia. }
  assert (Eb : b = (a + S n)%nat) by lia.
  destruct (heapify_spec ((S n - 1) / 2) data a (S n)) as [R1 H1].
  - lia.
  - intros p c x y Hp Hc Hpc.
    pose proof (Nat.div_mod_eq (S n - 1) 2) as Hd.
    pose proof (Nat.mod_upper_bound (S n - 1) 2 ltac:(lia)) as Hm.
    lia.
  - set (d1 := downto (fun d i => siftDown_func less d i (S n) a) data
                      ((S n - 1) / 2)) in *.
    destruct (heapSort_pops_spec (S n - 1) d1 a (S n)) as [R2 S2].
    + lia.
    + rewrite (RangePerm_length _ _ _ _ R1). lia.
    + replace (S (S n - 1)) with (S n) by lia. exact H1.
    + apply SortedRange_short. lia.
    + intros k j x y Hk Hj. lia.
    + rewrite Eb. split; [|exact S2].
      eapply RangePerm_trans; [exact R1|exact R2].
Qed.

(** *** The quick sort *)

Lemma Partitioned_left a mid b p d d' :
  RangePerm a mid d d' ->
  Partitioned less a mid b p d -> Partitioned less a mid b p d'.
Proof.
  intros HR (Hp & Hl & Hr). pose proof HR as [_ F]. split; [|split].
  - rewrite F by lia. exact Hp.
  - apply (RangePerm_all (fun x => less p x = false) a mid d d' HR).
    exact Hl.
  - intros k x Hk Hx. rewrite F in Hx by lia. now apply (Hr k).
Qed.

Lemma Partitioned_right a mid b p d d' :
  RangePerm (S mid) b d d' ->
  Partitioned less a mid b p d -> Partitioned less a mid b p d'.
Proof.
  intros HR (Hp & Hl & Hr). pose proof HR as [_ F]. split; [|split].
  - rewrite F by lia. exact Hp.
  - intros k x Hk Hx. rewrite F in Hx by lia. now apply (Hl k).
  - intros k x Hk Hx.
    apply (RangePerm_all (fun x => less x p = false) (S mid) b d d' HR)
      with (k := k); [|lia|exact Hx].
    intros k' x' Hk' Hx'. apply (Hr k'); [lia|exact Hx'].
Qed.

Lemma Partitioned_LowerBound a mid b p d :
  Partitioned less a mid b p d -> LowerBound less (S mid) b d.
Proof.
  intros (Hp & _ & Hr) x k y _ Hx Hk Hy.
  replace (S mid - 1)%nat with mid in Hx by lia.
  rewrite Hp in Hx. injection Hx as <-. apply (Hr k); [lia|exact Hy].
Qed.

Lemma Partitioned_sorted a mid b p d :
  (a <= mid < b)%nat -> Partitioned less a mid b p d ->
  SortedRange less a mid d -> SortedRange less (S mid) b d ->
  SortedRange less a b d.
Proof.
  intros Hm (Hp & Hl & Hr) Sl Sr i j x y Hi Hij Hj Hx Hy.
  destruct (Nat.lt_trichotomy j mid) as [H|[->|H]].
  - apply (Sl i j); auto.
  - rewrite Hp in Hy. injection Hy as <-. apply (Hl i); [lia|exact Hx].
  - destruct (Nat.lt_trichotomy i mid) as [H'|[->|H']].
    + apply (le_trans x p y).
      * apply (Hl i); [lia|exact Hx].
      * apply (Hr j); [lia|exact Hy].
    + rewrite Hp in Hx. injection Hx as <-. apply (Hr j); [lia|exact Hy].
    + apply (Sr i j); auto; lia.
Qed.

(** [pdqsort_func] sorts [data[a:b]], when no element of it is less than
    the element before it. *)
Lemma pdqsort_fuel_spec fuel :
  forall data a b limit wasBalanced wasPartitioned,
    (a <= b)%nat -> (b <= length data)%nat -> (b - a < fuel)%nat ->
    LowerBound less a b data ->
    RangePerm a b data
      (pdqsort_fuel less fuel data a b limit wasBalanced wasPartitioned)
    /\ SortedRange less a b
         (pdqsort_fuel less fuel data a b limit wasBalanced wasPartitioned).
Proof.
  induction fuel as [|fuel IH]; intros data a b limit wb wp Hab Hb Hf HL;
    [lia|].
  cbn [pdqsort_fuel].
  destruct (Nat.leb_spec (b - a) maxInsertion) as [Hlen|Hlen].
  { now apply insertionSort_func_spec. }
  destruct (Nat.eqb_spec limit 0) as [Hlim|Hlim].
  { now apply heapSort_func_spec. }
  unfold maxInsertion in Hlen.
  (* the patterns are broken *)
  destruct (if negb wb then _ else _) as [d1 limit1] eqn:E1.
  assert (R1 : RangePerm a b data d1).
  { destruct wb; simpl in E1; injection E1 as <- <-;
      [apply RangePerm_refl|apply breakPatterns_func_spec; lia]. }
  (* the pivot *)
  destruct (choosePivot_func less d1 a b) as [pivot0 hint0] eqn:E2.
  assert (P0 : (a <= pivot0 < b)%nat).
  { pose proof (choosePivot_func_range d1 a b ltac:(lia)) as H.
    now rewrite E2 in H. }
  destruct (match hint0 with decreasingHint => _ | _ => _ end)
    as [[d2 pivot] hint] eqn:E3.
  assert (R2 : RangePerm a b d1 d2 /\ (a <= pivot < b)%nat).
  { destruct hint0; injection E3 as <- <- <-; (split; [|lia]);
      try apply RangePerm_refl.
    apply reverseRange_func_spec; lia. }
  destruct R2 as [R2 P].
  assert (R12 : RangePerm a b data d2)
    by (eapply RangePerm_trans; [exact R1|exact R2]).
  assert (Len2 : length d2 = length data)
    by apply (RangePerm_length _ _ _ _ R12).
  assert (L2 : LowerBound less a b d2)
    by apply (LowerBound_RangePerm a b data d2 R12 HL).
  (* the slice that is nearly sorted *)
  destruct (if wb && wp && isIncreasing hint then _ else _)
    as [d3 sorted] eqn:E4.
  assert (R3 : RangePerm a b d2 d3
               /\ (sorted = true -> SortedRange less a b d3)).
  { destruct (wb && wp && isIncreasing hint).
    - pose proof (partialInsertionSort_func_spec d2 a b ltac:(lia)
                    ltac:(lia) L2) as H.
      rewrite E4 in H. exact H.
    - injection E4 as <- <-. split; [apply RangePerm_refl|discriminate]. }
  destruct R3 as [R3 S3].
  assert (R : RangePerm a b data d3)
    by (eapply RangePerm_trans; [exact R12|exact R3]).
  destruct sorted; [split; [exact R|now apply S3]|]. clear S3.
  assert (Len3 : length d3 = length data)
    by apply (RangePerm_length _ _ _ _ R).
  assert (L3 : LowerBound less a b d3)
    by apply (LowerBound_RangePerm a b data d3 R HL).
  destruct (lookup_lt_is_Some_2 d3 pivot ltac:(lia)) as [p Hp].
  destruct ((0 <? a)%nat && negb (Less less d3 (a - 1) pivot)) eqn:E5.
  - (* the elements equal to the pivot *)
    apply andb_true_iff in E5 as [Ha E5]. apply Nat.ltb_lt in Ha.
    apply negb_true_iff in E5.
    destruct (lookup_lt_is_Some_2 d3 (a - 1) ltac:(lia)) as [x0 Hx0].
    rewrite (Less_lookup _ _ _ _ _ Hx0 Hp) in E5.
    pose proof (partitionEqual_func_spec d3 a b pivot p ltac:(lia)
                  ltac:(lia) ltac:(lia) Hp) as H.
    cbv zeta in H.
    destruct (partitionEqual_func less d3 a b pivot) as [d4 mid] eqn:E6.
    cbn [fst snd] in H. destruct H as (R4 & Hmid & Hle & Hgt).
    assert (Len4 : length d4 = length d3)
      by apply (RangePerm_length _ _ _ _ R4).
    assert (L4 : LowerBound less a b d4)
      by apply (LowerBound_RangePerm a b d3 d4 R4 L3).
    assert (Hx0' : d4 !! (a - 1)%nat = Some x0).
    { destruct R4 as [_ F]. rewrite F by lia. exact Hx0. }
    destruct (IH d4 mid b limit1 wb wp) as [R5 S5].
    + lia.
    + lia.
    + lia.
    + intros x k y _ Hx Hk Hy. apply less_asym.
      apply (le_less_trans x p y).
      * apply (Hle (mid - 1)%nat); [lia|exact Hx].
      * apply (Hgt k); [lia|exact Hy].
    + split.
      * eapply RangePerm_trans; [exact R|].
        eapply RangePerm_trans; [exact R4|].
        eapply RangePerm_weaken; [| |exact R5]; lia.
      * intros i j x y Hi Hij Hj Hx Hy.
        destruct (Nat.lt_ge_cases j mid) as [Hjm|Hjm].
        -- destruct R5 as [_ F]. rewrite F in Hx, Hy by lia.
           apply (le_trans x x0 y).
           ++ apply (le_trans x p x0); [|exact E5].
              apply (Hle i); [lia|exact Hx].
           ++ apply (L4 x0 j y); auto; lia.
        -- assert (Hy' : less p y = true).
           { apply (RangePerm_all (fun y => less p y = true) mid b d4 _ R5)
               with (k := j); [|lia|exact Hy].
             intros k' y' Hk' Hy'. apply (Hgt k'); [lia|exact Hy']. }
           destruct (Nat.lt_ge_cases i mid) as [Him|Him].
           ++ destruct R5 as [_ F]. rewrite F in Hx by lia.
              apply less_asym. apply (le_less_trans x p y); [|exact Hy'].
              apply (Hle i); [lia|exact Hx].
           ++ apply (S5 i j); auto.
  - (* the two sides of the pivot *)
    pose proof (partition_func_spec d3 a b pivot p ltac:(lia) ltac:(lia)
                  ltac:(lia) Hp) as H.
    cbv zeta in H.
    destruct (partition_func less d3 a b pivot) as [[d4 mid] ap] eqn:E6.
    cbn [fst snd] in H. destruct H as (R4 & Hmid & Hpm & Hlt & Hge).
    replace (mid + 1)%nat with (S mid) by lia.
    assert (Len4 : length d4 = length d3)
      by apply (RangePerm_length _ _ _ _ R4).
    assert (L4 : LowerBound less a b d4)
      by apply (LowerBound_RangePerm a b d3 d4 R4 L3).
    assert (Pt : Partitioned less a mid b p d4).
    { split; [exact Hpm|]. split; [|exact Hge].
      intros k x Hk Hx. apply less_asym. apply (Hlt k); [lia|exact Hx]. }
    assert (R04 : RangePerm a b data d4)
      by (eapply RangePerm_trans; [exact R|exact R4]).
    destruct (Nat.ltb_spec (mid - a) (b - mid)) as [Hside|Hside].
    + destruct (IH d4 a mid limit1 true true) as [R5 S5];
        [lia|lia|lia|apply (LowerBound_shrink a b); [lia|exact L4]|].
      set (d5 := pdqsort_fuel less fuel d4 a mid limit1 true true) in *.
      pose proof (Partitioned_left a mid b p d4 d5 R5 Pt) as Pt5.
      destruct (IH d5 (S mid) b limit1 ((b - a) / 8 <=? mid - a)%nat ap)
        as [R6 S6];
        [lia|rewrite (RangePerm_length _ _ _ _ R5); lia|lia
         |apply (Partitioned_LowerBound a mid b p d5 Pt5)|].
      split.
      * eapply RangePerm_trans; [exact R04|].
        eapply RangePerm_trans;
          [eapply RangePerm_weaken; [| |exact R5]; lia|].
        eapply RangePerm_weaken; [| |exact R6]; lia.
      * apply (Partitioned_sorted a mid b p); [lia| | |exact S6].
        -- apply (Partitioned_right a mid b p d5 _ R6 Pt5).
        -- apply (SortedRange_frame a mid d5); [|exact S5].
           intros k Hk. destruct R6 as [_ F]. apply F. lia.
    + destruct (IH d4 (S mid) b limit1 true true) as [R5 S5];
        [lia|lia|lia|apply (Partitioned_LowerBound a mid b p d4 Pt)|].
      set (d5 := pdqsort_fuel less fuel d4 (S mid) b limit1 true true) in *.
      pose proof (Partitioned_right a mid b p d4 d5 R5 Pt) as Pt5.
      assert (R05 : RangePerm a b d4 d5)
        by (eapply RangePerm_weaken; [| |exact R5]; lia).
      destruct (IH d5 a mid limit1 ((b - a) / 8 <=? b - mid)%nat ap)
        as [R6 S6];
        [lia|rewrite (RangePerm_length _ _ _ _ R5); lia|lia| |].
      { apply (LowerBound_shrink a b); [lia|].
        apply (LowerBound_RangePerm a b d4 d5 R05 L4). }
      split.
      * eapply RangePerm_trans; [exact R04|].
        eapply RangePerm_trans; [exact R05|].
        eapply RangePerm_weaken; [| |exact R6]; lia.
      * apply (Partitioned_sorted a mid b p); [lia| |exact S6|].
        -- apply (Partitioned_left a mid b p d5 _ R6 Pt5).
        -- apply (SortedRange_frame (S mid) b d5); [|exact S5].
           intros k Hk. destruct R6 as [_ F]. apply F. lia.
Qed.

Lemma pdqsort_func_spec data a b limit :
  (a <= b)%nat -> (b <= length data)%nat -> LowerBound less a b data ->
  RangePerm a b data (pdqsort_func less data a b limit)
  /\ SortedRange less a b (pdqsort_func less data a b limit).
Proof. intros. apply pdqsort_fuel_spec; auto; lia. Qed.

End Order.

Lemma SortedRange_IsSorted {A} (less : A -> A -> bool) data :
  SortedRange less 0 (length data) data -> IsSorted less data.
Proof.
  intros H i j x y Hij Hx Hy. apply (H i j); auto; [lia|].
  now apply lookup_lt_Some in Hy.
Qed.

(** [sort.Slice] permutes the slice, and sorts it when [less] is the order
    of a key. *)
Lemma Slice_Sorts A : Sorts (@Slice A).
Proof.
  intros less data. split; [apply Slice_Permutation|].
  intros Hless. apply SortedRange_IsSorted. unfold Slice.
  destruct (pdqsort_func_spec less Hless data 0 (length data)
                              (bitsLen (length data))) as [HR HS].
  - lia.
  - lia.
  - intros x k y H0. lia.
  - rewrite (RangePerm_length _ _ _ _ HR). exact HS.
Qed.

End sort_facts.

(** ** The order of the articles *)

Lemma After_spec t u :
  time.After t u = true <->
  time.abs u < time.abs t
  \/ (time.abs t = time.abs u /\ time.nsec u < time.nsec t).
Proof.
  unfold time.After.
  rewrite orb_true_iff, andb_true_iff, !Z.ltb_lt, Z.eqb_eq. tauto.
Qed.

Lemma After_false t u :
  time.After t u = false <->
  time.abs t < time.abs u
  \/ (time.abs t = time.abs u /\ time.nsec t <= time.nsec u).
Proof.
  rewrite <- not_true_iff_false, After_spec. lia.
Qed.

(* "later than", on a key that is a time, is a strict weak ordering *)
Lemma After_StrictWeak {A} (key : A -> time.Time) :
  sort.StrictWeak (fun x y => time.After (key x) (key y)).
Proof.
  repeat split.
  - intros x. apply After_false. lia.
  - intros x y z. rewrite !After_spec. lia.
  - intros x y z. rewrite !After_false. lia.
Qed.

Lemma instant_unparseable w date :
  (time.Parse (Local w) time.layoutDate date).2 <> None ->
  instant w date = time.zero.
Proof.
  unfold instant, time.Parse.
  destruct (time.parseChunks _ _ _) as [f|e]; [|reflexivity].
  destruct (time.resolve _ _) as [t|e]; [|reflexivity].
  simpl. congruence.
Qed.

(* The output of fetchRSS is a permutation of what the loop collected. *)
Lemma Github_fetchRSS_permutes
      (w : World) (sortSlice : Sorter) (feeds : list string) (st : State)
      out err st' :
  Conforms sortSlice ->
  Github.fetchRSS w sortSlice feeds st = (Returned (out, err), st') ->
  exists collected,
    Github.fetchAll w feeds nil_slice st = (Returned collected, st')
    /\ Permutation (elems collected) (elems out).
Proof.
  intros Hsort Hrun.
  destruct (Github_fetchRSS_inv w sortSlice feeds st out err st' Hrun)
    as (_ & collected & Hc & ->).
  exists collected. split; [exact Hc|].
  destruct collected as [|l]; simpl; [reflexivity|].
  apply (Hsort Github.Article (Github.less w) l).
Qed.

Lemma COS_fetchRSS_permutes
      (w : World) (sortSlice : Sorter) (feeds : list string) (st : State) :
  Conforms sortSlice ->
  Permutation (elems (COS.fetchAll w feeds nil_slice st).1)
              (elems (COS.fetchRSS w sortSlice feeds st).1.1).
Proof.
  intros Hsort. unfold COS.fetchRSS. unfold_M.
  destruct (COS.fetchAll w feeds nil_slice st) as [[|l] st']; simpl;
    [reflexivity|].
  apply (Hsort COS.Article (COS.less w) l).
Qed.

(** C1 (as amended).  With a sorting function that keeps the contract of
    [sort.Slice], the articles [fetchRSS] returns are the collected
    articles in an order in which no article is followed by one of a later
    instant, the instant of an article being its date parsed again with
    the layout "January 2, 2006" and the zero time when the date does not
    parse; nothing fails.  The order among articles of equal instants is
    not fixed.  In the GitHub program this is what [fetchRSS] returns when
    it returns, and it returns whenever the store answers the calls of the
    logging. *)
Theorem fetchRSS_sorted_by_date
        (w : World) (sortSlice : Sorter) (feeds : list string) (st : State) :
  Conforms sortSlice ->
  (forall returned err st',
     Github.fetchRSS w sortSlice feeds st = (Returned (returned, err), st') ->
     exists collected,
       Github.fetchAll w feeds nil_slice st = (Returned collected, st')
       /\ let out := elems returned in
          Permutation (elems collected) out
          /\ (forall i j a b, (i < j)%nat -> out !! i = Some a ->
                out !! j = Some b ->
                time.After (instant w (Github.Date b))
                           (instant w (Github.Date a)) = false)
          /\ err = None)
  /\ (Answers w ->
      exists returned st',
        Github.fetchRSS w sortSlice feeds st
        = (Returned (returned, None), st'))
  /\ (let collected := elems (COS.fetchAll w feeds nil_slice st).1 in
      let out := elems (COS.fetchRSS w sortSlice feeds st).1.1 in
      Permutation collected out
      /\ (forall i j a b, (i < j)%nat -> out !! i = Some a ->
            out !! j = Some b ->
            time.After (instant w (COS.Date b)) (instant w (COS.Date a))
            = false)
      /\ (COS.fetchRSS w sortSlice feeds st).1.2 = None)
  /\ (forall date,
        (time.Parse (Local w) time.layoutDate date).2 <> None ->
        instant w date = time.zero).
Proof.
  intros Hsort.
  split; [|split; [apply Github_fetchRSS_returns|
                   split; [|apply instant_unparseable]]].
  - intros returned err st' Hrun.
    destruct (Github_fetchRSS_inv w sortSlice feeds st returned err st' Hrun)
      as (-> & collected & Hc & ->).
    exists collected. split; [exact Hc|]. cbv zeta.
    destruct collected as [|l]; simpl.
    + repeat split; auto. intros i j a b _ Hi. discriminate.
    + destruct (Hsort Github.Article (Github.less w) l) as [HP HS].
      split; [exact HP|]. split; [|reflexivity].
      intros i j a b Hij Ha Hb.
      apply (HS (After_StrictWeak (fun a => instant w (Github.Date a)))
                i j a b Hij Ha Hb).
  - unfold COS.fetchRSS. unfold_M.
    destruct (COS.fetchAll w feeds nil_slice st) as [[|l] st']; simpl.
    + repeat split; auto. intros i j a b _ Hi. discriminate.
    + destruct (Hsort COS.Article (COS.less w) l) as [HP HS].
      split; [exact HP|]. split; [|reflexivity].
      intros i j a b Hij Ha Hb.
      apply (HS (After_StrictWeak (fun a => instant w (COS.Date a)))
                i j a b Hij Ha Hb).
Qed.

(* The sort of the programs keeps the contract. *)
Lemma Slice_Conforms : Conforms (@sort.Slice).
Proof. intros A. apply sort_facts.Slice_Sorts. Qed.

Lemma table_world_Answers table : Answers (table_world table).
Proof. intros n f. discriminate. Qed.

Lemma fetchRSS_sorted_by_date_witness :
  Conforms (@sort.Slice)
  /\ exists returned st' collected,
       Github.fetchRSS (table_world thirteen) (@sort.Slice)
                       (map fst thirteen) st0
       = (Returned (returned, None), st')
       /\ Github.fetchAll (table_world thirteen) (map fst thirteen)
                          nil_slice st0 = (Returned collected, st')
       /\ Permutation (elems collected) (elems returned).
Proof.
  split; [exact Slice_Conforms|].
  destruct (fetchRSS_sorted_by_date (table_world thirteen) (@sort.Slice)
              (map fst thirteen) st0 Slice_Conforms) as (Hrun & Hret & _).
  destruct (Hret (table_world_Answers thirteen)) as (returned & st' & E).
  destruct (Hrun returned None st' E) as (collected & Hc & HP & _).
  exists returned, st', collected. auto.
Defined.

(** C1, as the specification states it, fails.  [sort.Slice] is not
    stable: of thirteen feeds, the first twelve with a post of the same
    day and the last with a later post, the article of the seventh feed
    comes out before the article of the first. *)
Lemma fetchRSS_not_stable :
  map fst thirteen
  = ["f00"; "f01"; "f02"; "f03"; "f04"; "f05"; "f06"; "f07"; "f08"; "f09";
     "f10"; "f11"; "f12"]
  /\ (exists returned err,
        (Github.fetchRSS (table_world thirteen) (@sort.Slice)
                         (map fst thirteen) st0).1
        = Returned (returned, err)
        /\ map (fun a => (Github.Name a, Github.Date a)) (elems returned)
           = [("f12", "July 27, 2024"); ("f06", "July 26, 2024");
              ("f02", "July 26, 2024"); ("f03", "July 26, 2024");
              ("f04", "July 26, 2024"); ("f05", "July 26, 2024");
              ("f00", "July 26, 2024"); ("f07", "July 26, 2024");
              ("f08", "July 26, 2024"); ("f09", "July 26, 2024");
              ("f10", "July 26, 2024"); ("f11", "July 26, 2024");
              ("f01", "July 26, 2024")])
  /\ map COS.Name
         (elems (COS.fetchRSS (table_world thirteen) (@sort.Slice)
                              (map fst thirteen) st0).1.1)
     = ["f12"; "f06"; "f02"; "f03"; "f04"; "f05"; "f00"; "f07"; "f08"; "f09";
        "f10"; "f11"; "f01"].
Proof.
  split; [reflexivity|]. split; [|vm_compute; reflexivity].
  eexists _, _. split; [vm_compute; reflexivity|].
  vm_compute. reflexivity.
Qed.

(** ** Feeds without entries *)

Lemma yield_Some w n feedURL feed item :
  yield w n feedURL = Some (feed, item) <->
  exists body items,
    http_Get w n feedURL = inl body
    /\ ParseString w (cleanXMLContent body) = inl feed
    /\ Items feed = item :: items.
Proof.
  unfold yield. split.
  - destruct (http_Get w n feedURL) as [body|]; [|discriminate].
    destruct (ParseString w _) as [f|] eqn:E; [|discriminate].
    destruct (Items f) as [|i items] eqn:Ei; [discriminate|].
    intros [= -> ->]. eauto.
  - intros (body & items & -> & -> & ->). reflexivity.
Qed.

(** C8 (as amended).  A feed that is fetched and parses but has no entry
    adds no article and no entry for the time of an article; the COS program
    logs nothing for it, and the GitHub program logs one "Extract domain
    error" entry for it when the link of the feed does not parse, and
    nothing otherwise.  The articles [fetchRSS] returns are, one for one
    and up to their order, the articles of the feeds of the list that were
    fetched, parsed and had an entry.  In the GitHub program the turn for
    a feed without entries is over at once when the link parses, and
    whenever the store answers the calls of the logging when it does
    not. *)
Theorem empty_feed_adds_no_article (w : World) :
  (forall feedURL body feed arts arts' st,
     http_Get w (length (requests st)) feedURL = inl body ->
     ParseString w (cleanXMLContent body) = inl feed ->
     Items feed = [] ->
     (forall u, url.Parse (FeedLink feed) = inl u ->
        exists st',
          Github.fetchOne w feedURL arts st = (Returned arts, st')
          /\ logged st' = logged st)
     /\ (forall err arts1 st',
           url.Parse (FeedLink feed) = inr err ->
           Github.fetchOne w feedURL arts st = (Returned arts1, st') ->
           arts1 = arts
           /\ logged st'
              = (logged st
                 ++ [entry w (stampAt w (ticks st)) "Extract domain error"
                           (FeedLink feed) err])%list)
     /\ (Answers w ->
         exists st', Github.fetchOne w feedURL arts st = (Returned arts, st'))
     /\ (COS.fetchOne w feedURL arts' st).1 = arts'
     /\ logged (COS.fetchOne w feedURL arts' st).2 = logged st)
  /\ (forall sortSlice feeds st,
        Conforms sortSlice ->
        (forall returned err st',
           Github.fetchRSS w sortSlice feeds st
           = (Returned (returned, err), st') ->
           exists collected,
             Permutation collected (elems returned)
             /\ Forall2 Github_article_of collected
                        (yields w (length (requests st)) feeds))
        /\ (Answers w ->
            exists returned st',
              Github.fetchRSS w sortSlice feeds st
              = (Returned (returned, None), st'))
        /\ (exists collected,
              Permutation collected
                          (elems (COS.fetchRSS w sortSlice feeds st).1.1)
              /\ Forall2 COS_article_of collected
                         (yields w (length (requests st)) feeds)))
  /\ (forall n feedURL feed item,
        yield w n feedURL = Some (feed, item) <->
        exists body items,
          http_Get w n feedURL = inl body
          /\ ParseString w (cleanXMLContent body) = inl feed
          /\ Items feed = item :: items).
Proof.
  split; [|split; [|apply yield_Some]].
  - intros feedURL body feed arts arts' st Hget Hparse Hitems.
    pose proof (COS_fetchOne_spec w feedURL arts' st) as [_ HC].
    rewrite Hget, Hparse, Hitems in HC.
    destruct HC as (HCa & _ & HCl).
    assert (HG : forall arts1 st',
               Github.fetchOne w feedURL arts st = (Returned arts1, st') ->
               arts1 = arts
               /\ logged st'
                  = (logged st
                     ++ domainLog w (ticks st) (FeedLink feed))%list).
    { intros arts1 st' Hrun.
      pose proof (Github_fetchOne_spec w feedURL arts st) as H.
      rewrite Hrun in H. destruct H as [_ H].
      rewrite Hget, Hparse, Hitems in H. cbv zeta in H. tauto. }
    split; [|split; [|split; [|split; assumption]]].
    + intros u Hu.
      assert (Hrun : exists st',
                 Github.fetchOne w feedURL arts st = (Returned arts, st')).
      { unfold Github.fetchOne, get. unfold_M. simpl.
        rewrite Hget. simpl. rewrite Hparse.
        rewrite (extractDomain_ok _ _ Hu). simpl. rewrite Hitems.
        eauto. }
      destruct Hrun as [st' Hrun]. exists st'. split; [exact Hrun|].
      destruct (HG arts st' Hrun) as [_ ->]. unfold domainLog.
      rewrite (extractDomain_ok _ _ Hu). simpl. apply app_nil_r.
    + intros err arts1 st' He Hrun.
      destruct (HG arts1 st' Hrun) as [-> ->]. split; [reflexivity|].
      unfold domainLog. now rewrite (extractDomain_err _ _ He).
    + intros HA.
      destruct (Github_fetchOne_returns w feedURL arts st HA)
        as (arts1 & st' & Hrun).
      destruct (HG arts1 st' Hrun) as [-> _]. eauto.
  - intros sortSlice feeds st Hsort.
    split; [|split; [apply Github_fetchRSS_returns|]].
    + intros returned err st' Hrun.
      destruct (Github_fetchRSS_permutes w sortSlice feeds st _ _ _
                                         Hsort Hrun)
        as (collected & Hc & HP).
      destruct (Github_fetchAll_yields w feeds nil_slice st _ _ Hc)
        as (new & Hn & Hf & _).
      simpl in Hn. rewrite Hn in HP. eauto.
    + pose proof (COS_fetchRSS_permutes w sortSlice feeds st Hsort) as HC.
      destruct (COS_fetchAll_yields w feeds nil_slice st)
        as (newC & HnC & HfC & _).
      simpl in HnC. rewrite HnC in HC. eauto.
Qed.

Lemma empty_feed_adds_no_article_witness :
  http_Get (table_world [("u", empty_feed)]) 0 "u" = inl "u"
  /\ ParseString (table_world [("u", empty_feed)]) (cleanXMLContent "u")
     = inl empty_feed
  /\ Items empty_feed = []
  /\ (exists st',
        Github.fetchOne (table_world [("u", empty_feed)]) "u" nil_slice st0
        = (Returned nil_slice, st'))
  /\ logged (COS.fetchOne (table_world [("u", empty_feed)]) "u" nil_slice
                          st0).2 = [].
Proof.
  split; [reflexivity|]. split; [reflexivity|]. split; [reflexivity|].
  destruct (empty_feed_adds_no_article (table_world [("u", empty_feed)]))
    as [H _].
  destruct (H "u" "u" empty_feed nil_slice nil_slice st0
              eq_refl eq_refl eq_refl) as (_ & _ & Ha & _ & Hc).
  split; [exact (Ha (table_world_Answers _)) | exact Hc].
Defined.

(** C8, as the specification states it, fails on the GitHub program: the
    link of a feed is examined before its entries are counted, so a feed
    without entries whose link does not parse leaves an entry in the log. *)
Lemma empty_feed_logs_domain_error :
  http_Get (table_world [("u", empty_feed)]) 0 "u" = inl "u"
  /\ ParseString (table_world [("u", empty_feed)]) (cleanXMLContent "u")
     = inl empty_feed
  /\ Items empty_feed = []
  /\ (Github.fetchOne (table_world [("u", empty_feed)]) "u" nil_slice st0).1
     = Returned nil_slice
  /\ logged (Github.fetchOne (table_world [("u", empty_feed)]) "u" nil_slice
                             st0).2
     = [entry (table_world [("u", empty_feed)]) "Fri Jul 26 18:00:2024"
              "Extract domain error" ":"
              (urlError "parse" ":" (errorString "missing protocol scheme"))]
  /\ logged (Github.fetchOne (table_world [("u", empty_feed)]) "u" nil_slice
                             st0).2 <> [].
Proof. repeat split; try (vm_compute; reflexivity). vm_compute. discriminate. Qed.

(** ** Publishing *)

Section Publish.
Context (w : World).

Lemma saveToGitHub_ok data st st' :
  Github.saveToGitHub w data st = (Returned None, st') ->
  objects st'
  = <["api/rss_data.json" := json.Marshal Github.jsonFields data]>
      (objects st).
Proof.
  unfold Github.saveToGitHub, Github.GetContents, Github.CreateFile,
    Github.UpdateFile, call.
  unfold_M. simpl. intros H.
  repeat (case_match; simpl in *; simplify_eq);
    try rewrite String.eqb_refl in *; simplify_eq; reflexivity.
Qed.

Lemma saveToCOS_ok data st :
  (COS.saveToCOS w data st).1 = None ->
  objects (COS.saveToCOS w data st).2
  = <["rss/rss_data.json" := json.Marshal COS.jsonFields data]>
      (objects st).
Proof.
  unfold COS.saveToCOS, COS.Put, call. unfold_M. simpl.
  destruct (fault w (calls st)); simpl; [discriminate|reflexivity].
Qed.

Lemma Forall2_nil_iff {A B} (R : A -> B -> Prop) l k :
  Forall2 R l k -> (l = [] <-> k = []).
Proof. destruct 1; split; congruence. Qed.

Lemma Github_fetchRSS_nil sortSlice feeds st returned err st' :
  Conforms sortSlice ->
  Github.fetchRSS w sortSlice feeds st = (Returned (returned, err), st') ->
  (yields w (length (requests st)) feeds = [] -> returned = nil_slice)
  /\ (yields w (length (requests st)) feeds <> [] ->
      exists a l, returned = mk_slice (a :: l)).
Proof.
  intros Hsort Hrun.
  destruct (Github_fetchRSS_inv w sortSlice feeds st _ _ _ Hrun)
    as (_ & collected & Hc & ->).
  destruct (Github_fetchAll_yields w feeds nil_slice st _ _ Hc)
    as (new & Hnew & Hall & Hnil).
  apply Forall2_nil_iff in Hall.
  destruct collected as [|l]; simpl in *.
  - split; [reflexivity|]. intros Hy. exfalso. apply Hy, Hall.
    now apply Hnil.
  - split.
    + intros Hy. apply Hall in Hy. destruct Hnil as [_ Hnil].
      now specialize (Hnil (conj eq_refl Hy)).
    + intros _. destruct (Hsort Github.Article (Github.less w) l) as [HP _].
      destruct (sortSlice Github.Article (Github.less w) l) as [|a l'] eqn:E;
        [|eauto].
      apply Permutation_sym, Permutation_nil in HP.
      destruct Hnil as [_ Hnil].
      assert (Hn : new = []) by congruence.
      now specialize (Hnil (conj eq_refl Hn)).
Qed.

Lemma COS_fetchRSS_nil sortSlice feeds st :
  Conforms sortSlice ->
  (yields w (length (requests st)) feeds = [] ->
   (COS.fetchRSS w sortSlice feeds st).1.1 = nil_slice)
  /\ (yields w (length (requests st)) feeds <> [] ->
      exists a l,
        (COS.fetchRSS w sortSlice feeds st).1.1 = mk_slice (a :: l)).
Proof.
  intros Hsort.
  destruct (COS_fetchAll_yields w feeds nil_slice st)
    as (new & Hnew & Hall & Hnil).
  apply Forall2_nil_iff in Hall.
  unfold COS.fetchRSS. unfold_M.
  destruct (COS.fetchAll w feeds nil_slice st) as [[|l] st']; simpl in *.
  - split; [reflexivity|]. intros Hy. exfalso. apply Hy, Hall.
    now apply Hnil.
  - split.
    + intros Hy. apply Hall in Hy. destruct Hnil as [_ Hnil].
      now specialize (Hnil (conj eq_refl Hy)).
    + intros _. destruct (Hsort COS.Article (COS.less w) l) as [HP _].
      destruct (sortSlice COS.Article (COS.less w) l) as [|a l'] eqn:E;
        [|eauto].
      apply Permutation_sym, Permutation_nil in HP.
      destruct Hnil as [_ Hnil].
      assert (Hn : new = []) by congruence.
      now specialize (Hnil (conj eq_refl Hn)).
Qed.

End Publish.

(** C3 (as amended).  What is published is the JSON text of the slice
    [fetchRSS] returns: an array of objects, one per article, with the
    fields in the order of the struct ([domainName] first in the GitHub
    program, then [name], [title], [link], [date]) when at least one feed
    had an entry, and the text [null] when none had, the slice being nil
    then.  A publish that succeeds leaves exactly this text at the path of
    the artifact, whatever was stored there before, and changes nothing
    else.  In the GitHub program the slice is the one [fetchRSS] returns
    when it returns, which it does whenever the store answers the calls of
    the logging, and a publish succeeds when [saveToGitHub] returns no
    error. *)
Theorem publish_replaces_artifact (w : World) :
  (forall sortSlice feeds st,
     Conforms sortSlice ->
     (yields w (length (requests st)) feeds = [] ->
      (forall returned err st',
         Github.fetchRSS w sortSlice feeds st
         = (Returned (returned, err), st') ->
         json.Marshal Github.jsonFields returned = "null")
      /\ json.Marshal COS.jsonFields
                      (COS.fetchRSS w sortSlice feeds st).1.1 = "null")
     /\ (yields w (length (requests st)) feeds <> [] ->
         (forall returned err st',
            Github.fetchRSS w sortSlice feeds st
            = (Returned (returned, err), st') ->
            exists a l,
              returned = mk_slice (a :: l)
              /\ json.Marshal Github.jsonFields returned
                 = "[" +:+ json.join ","
                             (map (fun a => json.encodeStruct
                                              (Github.jsonFields a)) (a :: l))
                       +:+ "]")
         /\ (exists a l,
               (COS.fetchRSS w sortSlice feeds st).1.1 = mk_slice (a :: l)
               /\ json.Marshal COS.jsonFields
                               (COS.fetchRSS w sortSlice feeds st).1.1
                  = "[" +:+ json.join ","
                              (map (fun a => json.encodeStruct
                                               (COS.jsonFields a)) (a :: l))
                        +:+ "]"))
     /\ (Answers w ->
         exists returned st',
           Github.fetchRSS w sortSlice feeds st
           = (Returned (returned, None), st')))
  /\ (forall a,
        map fst (Github.jsonFields a)
        = ["domainName"; "name"; "title"; "link"; "date"]
        /\ map snd (Github.jsonFields a)
           = [Github.DomainName a; Github.Name a; Github.Title a;
              Github.Link a; Github.Date a])
  /\ (forall a,
        map fst (COS.jsonFields a) = ["name"; "title"; "link"; "date"]
        /\ map snd (COS.jsonFields a)
           = [COS.Name a; COS.Title a; COS.Link a; COS.Date a])
  /\ (forall data st st',
        Github.saveToGitHub w data st = (Returned None, st') ->
        objects st'
        = <["api/rss_data.json" := json.Marshal Github.jsonFields data]>
            (objects st))
  /\ (forall data st,
        (COS.saveToCOS w data st).1 = None ->
        objects (COS.saveToCOS w data st).2
        = <["rss/rss_data.json" := json.Marshal COS.jsonFields data]>
            (objects st)).
Proof.
  split; [|split; [|split; [|split]]].
  - intros sortSlice feeds st Hsort.
    destruct (COS_fetchRSS_nil w sortSlice feeds st Hsort) as [HC0 HC1].
    split; [|split; [|apply Github_fetchRSS_returns]].
    + intros Hy. split; [|now rewrite (HC0 Hy)].
      intros returned err st' Hrun.
      destruct (Github_fetchRSS_nil w sortSlice feeds st _ _ _ Hsort Hrun)
        as [HG0 _].
      now rewrite (HG0 Hy).
    + intros Hy. destruct (HC1 Hy) as (a' & l' & ->). split; [|eauto].
      intros returned err st' Hrun.
      destruct (Github_fetchRSS_nil w sortSlice feeds st _ _ _ Hsort Hrun)
        as [_ HG1].
      destruct (HG1 Hy) as (a & l & ->). eauto.
  - intros a. split; reflexivity.
  - intros a. split; reflexivity.
  - apply saveToGitHub_ok.
  - apply saveToCOS_ok.
Qed.

Lemma publish_replaces_artifact_witness :
  Conforms (@sort.Slice)
  /\ yields (table_world []) 0 ["down"] = []
  /\ json.Marshal COS.jsonFields
                  (COS.fetchRSS (table_world []) (@sort.Slice) ["down"]
                                st0).1.1 = "null"
  /\ exists st',
       Github.saveToGitHub (table_world []) nil_slice
                           (st_with "api/rss_data.json" "[]")
       = (Returned None, st')
       /\ objects st'
          = <["api/rss_data.json" := "null"]>
              (objects (st_with "api/rss_data.json" "[]")).
Proof.
  destruct (publish_replaces_artifact (table_world []))
    as (Hnull & _ & _ & Hsave & _).
  split; [exact Slice_Conforms|]. split; [reflexivity|].
  split.
  - exact (proj2 (proj1 (Hnull (@sort.Slice) ["down"] st0
                               Slice_Conforms) eq_refl)).
  - eexists. split; [vm_compute; reflexivity|].
    apply (Hsave nil_slice (st_with "api/rss_data.json" "[]")).
    vm_compute. reflexivity.
Defined.

(** C3, as the specification states it, fails: with no article - here an
    empty list of feeds, and a list whose only feed cannot be reached - both
    programs publish the text [null], not an empty array. *)
Lemma publish_null_without_articles :
  objects (COS.saveToCOS (table_world [])
             (COS.fetchRSS (table_world []) (@sort.Slice) [] st0).1.1
             (COS.fetchRSS (table_world []) (@sort.Slice) [] st0).2).2
    !! "rss/rss_data.json" = Some "null"
  /\ (exists returned err st1,
        Github.fetchRSS (table_world []) (@sort.Slice) ["down"] st0
        = (Returned (returned, err), st1)
        /\ objects (Github.saveToGitHub (table_world []) returned st1).2
             !! "api/rss_data.json" = Some "null")
  /\ "null" <> "[]".
Proof.
  split; [vm_compute; reflexivity|]. split; [|discriminate].
  eexists _, _, _. split; [vm_compute; reflexivity|].
  vm_compute. reflexivity.
Qed.

(** * Further properties of the programs *)

(** ** The calendar *)

Lemma all_from_spec n f k0 k :
  all_from n k0 f = true -> k0 <= k < k0 + Z.of_nat n -> f k = true.
Proof.
  revert k0. induction n as [|n IH]; intros k0; simpl; [lia|].
  intros [Hn Hr]%andb_prop Hk.
  destruct (decide (k = k0)) as [->|Hne]; [exact Hn|].
  apply (IH (k0 + 1)); [exact Hr|lia].
Qed.

(* The year of the cycle of 400 years, counted from March, and the day of
   that year. *)
Lemma civil_yoe doe :
  0 <= doe < 146097 ->
  let yoe := (doe - doe / 1460 + doe / 36524 - doe / 146096) / 365 in
  let doy := doe - (365 * yoe + yoe / 4 - yoe / 100) in
  0 <= yoe < 400 /\ 0 <= doy <= 365
  /\ (doy = 365 ->
      (yoe + 1) mod 4 = 0 /\ ((yoe + 1) mod 100 <> 0 \/ yoe = 399)).
Proof.
  intros H yoe doy. unfold doy, yoe. clear yoe doy.
  Z.div_mod_to_equations. lia.
Qed.

(* The month, counted from March, and the day of the month. *)
Lemma civil_mp doy :
  0 <= doy <= 365 ->
  let mp := (5 * doy + 2) / 153 in
  let d := doy - (153 * mp + 2) / 5 + 1 in
  0 <= mp <= 11 /\ 1 <= d
  /\ d <= nth (Z.to_nat mp) [31; 30; 31; 30; 31; 31; 30; 31; 30; 31; 31; 29] 0
  /\ (mp = 11 -> d = 29 -> doy = 365).
Proof.
  intros H mp d.
  assert (Hmp : 0 <= mp <= 11) by (unfold mp; Z.div_mod_to_equations; lia).
  split; [exact Hmp|].
  assert (Hc : mp = 0 \/ mp = 1 \/ mp = 2 \/ mp = 3 \/ mp = 4 \/ mp = 5
               \/ mp = 6 \/ mp = 7 \/ mp = 8 \/ mp = 9 \/ mp = 10 \/ mp = 11)
    by lia.
  unfold d. unfold mp in Hc |- *. clear Hmp d mp.
  repeat destruct Hc as [Hc|Hc]; rewrite Hc; simpl;
    revert Hc; Z.div_mod_to_equations; lia.
Qed.

(** The date of a day exists, and is the date of this day only. *)
Lemma civil_spec days y m d :
  time.civil days = (y, m, d) ->
  1 <= m <= 12 /\ 1 <= d <= time.daysIn m y
  /\ time.daysSinceEpoch y m d = days.
Proof.
  unfold time.civil.
  set (z := days + 306). set (era := z / 146097).
  set (doe := z - era * 146097).
  assert (Hdoe : 0 <= doe < 146097).
  { unfold doe, era. pose proof (Z.div_mod z 146097 ltac:(lia)).
    pose proof (Z.mod_pos_bound z 146097 ltac:(lia)). lia. }
  pose proof (civil_yoe doe Hdoe) as Hy. cbv zeta in Hy.
  set (yoe := (doe - doe / 1460 + doe / 36524 - doe / 146096) / 365) in *.
  set (doy := doe - (365 * yoe + yoe / 4 - yoe / 100)) in *.
  destruct Hy as (Hyoe & Hdoy & Hleap).
  pose proof (civil_mp doy Hdoy) as Hm. cbv zeta in Hm.
  set (mp := (5 * doy + 2) / 153) in *.
  set (dd := doy - (153 * mp + 2) / 5 + 1) in *.
  destruct Hm as (Hmp & Hd1 & Hd2 & Hfeb).
  assert (Hera : (yoe + era * 400) / 400 = era).
  { rewrite Z.div_add by lia. rewrite Z.div_small by lia. lia. }
  assert (Hdoy' : (153 * mp + 2) / 5 + dd - 1 = doy) by (unfold dd; lia).
  assert (Hz : era * 146097 + doe - 306 = days) by (unfold doe, z; lia).
  assert (Hc : mp = 0 \/ mp = 1 \/ mp = 2 \/ mp = 3 \/ mp = 4 \/ mp = 5
               \/ mp = 6 \/ mp = 7 \/ mp = 8 \/ mp = 9 \/ mp = 10 \/ mp = 11)
    by lia.
  clearbody mp dd.
  destruct (Z.ltb_spec mp 10) as [H10|H10].
  - replace (mp + 3 <=? 2) with false by (symmetry; apply Z.leb_gt; lia).
    intros [= <- <- <-]. split; [lia|].
    unfold time.daysSinceEpoch.
    replace (mp + 3 <=? 2) with false by (symmetry; apply Z.leb_gt; lia).
    replace (2 <? mp + 3) with true by (symmetry; apply Z.ltb_lt; lia).
    rewrite Hera. replace (mp + 3 - 3) with mp by lia.
    replace (yoe + era * 400 - era * 400) with yoe by lia.
    rewrite Hdoy'. split; [|unfold doy; lia].
    split; [exact Hd1|]. unfold time.daysIn.
    replace (mp + 3 =? 2) with false by (symmetry; apply Z.eqb_neq; lia).
    cbn [andb].
    repeat destruct Hc as [Hc|Hc]; subst mp; try lia; exact Hd2.
  - replace (mp - 9 <=? 2) with true by (symmetry; apply Z.leb_le; lia).
    intros [= <- <- <-]. split; [lia|].
    unfold time.daysSinceEpoch.
    replace (mp - 9 <=? 2) with true by (symmetry; apply Z.leb_le; lia).
    replace (2 <? mp - 9) with false by (symmetry; apply Z.ltb_ge; lia).
    replace (yoe + era * 400 + 1 - 1) with (yoe + era * 400) by lia.
    rewrite Hera. replace (mp - 9 + 9) with mp by lia.
    replace (yoe + era * 400 - era * 400) with yoe by lia.
    rewrite Hdoy'. split; [|unfold doy; lia].
    split; [exact Hd1|]. unfold time.daysIn.
    assert (Hmp' : mp = 10 \/ mp = 11) by lia.
    destruct Hmp' as [->| ->]; [exact Hd2|].
    change (11 - 9 =? 2) with true. cbn [andb].
    change (Z.to_nat (11 - 9 - 1)) with 1%nat.
    change (Z.to_nat 11) with 11%nat in Hd2. cbn [nth] in Hd2 |- *.
    destruct (time.isLeap (yoe + era * 400 + 1)) eqn:El.
    + exact Hd2.
    + destruct (decide (dd = 29)) as [E29|N29]; [|lia].
      exfalso. destruct (Hleap (Hfeb eq_refl E29)) as [H4 H100].
      unfold time.isLeap in El.
      assert (E4 : (yoe + era * 400 + 1) mod 4 = 0)
        by (revert H4; Z.div_mod_to_equations; lia).
      rewrite E4 in El. cbn [Z.eqb andb] in El.
      apply orb_false_elim in El as [E100 E400].
      apply negb_false_iff, Z.eqb_eq in E100. apply Z.eqb_neq in E400.
      revert H100 E100 E400. Z.div_mod_to_equations. lia.
Qed.

(** ** A date is written and read back *)

Lemma formatTime_civil t y m d :
  time.civil (wallDay t) = (y, m, d) ->
  formatTime t =
    nth (Z.to_nat (m - 1)) time.longMonthNames EmptyString
      +:+ (" " +:+ (time.appendInt d 0
                      +:+ (", " +:+ (time.appendInt y 4 +:+ EmptyString)))).
Proof.
  intros H. unfold formatTime.
  change (time.Format time.layoutDate t)
    with (time.appendField time.stdLongMonth t
            +:+ (" " +:+ (time.appendField time.stdDay t
                            +:+ (", " +:+ (time.appendField time.stdLongYear t
                                             +:+ EmptyString))))).
  unfold time.appendField. fold (wallDay t). now rewrite H.
Qed.

Lemma lookup_from_skip i v tab val :
  time.matchFold (take_s (String.length v) val) v = false ->
  time.lookup_from i (v :: tab) val = time.lookup_from (i + 1) tab val.
Proof. intros H. cbn [time.lookup_from]. now rewrite H, andb_false_r. Qed.

Lemma lookup_from_hit i v tab r :
  time.matchFold v v = true ->
  time.lookup_from i (v :: tab) (v +:+ r) = Some (i, r).
Proof.
  intros H. cbn [time.lookup_from].
  rewrite take_app_s, drop_app_s, H, length_append_s.
  now replace (_ <=? _)%nat with true by (symmetry; apply Nat.leb_le; lia).
Qed.

(* The name of a month is read as its month, whatever follows. *)
Lemma lookup_longMonth m r :
  1 <= m <= 12 ->
  time.lookup time.longMonthNames
    (nth (Z.to_nat (m - 1)) time.longMonthNames EmptyString +:+ r)
  = Some (m - 1, r).
Proof.
  intros Hm.
  assert (Hc : m = 1 \/ m = 2 \/ m = 3 \/ m = 4 \/ m = 5 \/ m = 6 \/ m = 7
               \/ m = 8 \/ m = 9 \/ m = 10 \/ m = 11 \/ m = 12) by lia.
  unfold time.lookup, time.longMonthNames.
  repeat destruct Hc as [Hc|Hc]; subst m;
    match goal with
    | |- context [nth (Z.to_nat ?k) ?l ?d] =>
      let n := eval vm_compute in (nth (Z.to_nat k) l d) in
      change (nth (Z.to_nat k) l d) with n
    end;
    repeat (rewrite lookup_from_skip by (vm_compute; reflexivity));
    rewrite lookup_from_hit by reflexivity; reflexivity.
Qed.

(* The day of a month is read as it was written. *)
Lemma getnum_day d r :
  1 <= d <= 31 ->
  time.getnum (time.appendInt d 0 +:+ String "," r) false
  = Some (d, String "," r).
Proof.
  intros Hd.
  assert (Hc : In d (map Z.of_nat (seq 1 31))).
  { apply in_map_iff. exists (Z.to_nat d). split; [lia|].
    apply in_seq. lia. }
  simpl in Hc.
  repeat (destruct Hc as [<-|Hc]; [reflexivity|]). contradiction.
Qed.

Lemma year_cycle : all_from (Z.to_nat 10000) 0 year_ok = true.
Proof. vm_compute. reflexivity. Qed.

(* A year of four digits is read as it was written. *)
Lemma parseField_year y rest f :
  0 <= y <= 9999 ->
  time.cutspace (time.appendInt y 4 +:+ EmptyString) = time.appendInt y 4
  /\ time.parseField time.stdLongYear rest f (time.appendInt y 4)
     = inl (time.set_year y f, EmptyString).
Proof.
  intros Hy.
  pose proof (all_from_spec _ _ 0 y year_cycle ltac:(lia)) as H.
  unfold year_ok in H. cbv zeta in H.
  rewrite append_nil_r_s.
  set (ys := time.appendInt y 4) in *.
  apply andb_prop in H as [H Hdrop]. apply andb_prop in H as [H Hval].
  apply andb_prop in H as [H Hdig]. apply andb_prop in H as [Hcut Hlen].
  apply String.eqb_eq in Hcut, Hdrop. split; [exact Hcut|].
  unfold time.parseField.
  replace (String.length ys <? 4)%nat with false
    by (symmetry; apply Nat.ltb_ge; now apply Nat.leb_le).
  rewrite Hdig. cbn [orb negb].
  destruct (time.digitsVal (take_s 4 ys) 0) as [v|]; [|discriminate].
  apply Z.eqb_eq in Hval. now rewrite Hval, Hdrop.
Qed.

Lemma parseField_longMonth rest f m r :
  1 <= m <= 12 ->
  time.parseField time.stdLongMonth rest f
    (nth (Z.to_nat (m - 1)) time.longMonthNames EmptyString +:+ r)
  = inl (time.set_month m f, r).
Proof.
  intros Hm. unfold time.parseField. rewrite (lookup_longMonth m r Hm).
  now replace (m - 1 + 1) with m by lia.
Qed.

Lemma parseField_day rest f d r :
  1 <= d <= 31 ->
  time.cutspace (time.appendInt d 0 +:+ String "," r)
  = time.appendInt d 0 +:+ String "," r
  /\ time.parseField time.stdDay rest f
       (time.appendInt d 0 +:+ String "," r)
     = inl (time.set_day d f, String "," r).
Proof.
  intros Hd. unfold time.parseField. rewrite (getnum_day d r Hd).
  split; [|reflexivity].
  assert (Hc : In d (map Z.of_nat (seq 1 31))).
  { apply in_map_iff. exists (Z.to_nat d). split; [lia|].
    apply in_seq. lia. }
  simpl in Hc.
  repeat (destruct Hc as [<-|Hc]; [reflexivity|]). contradiction.
Qed.

Lemma daysIn_le m y : 1 <= m <= 12 -> 28 <= time.daysIn m y <= 31.
Proof.
  intros Hm. unfold time.daysIn. destruct (_ && _); [lia|].
  assert (Hc : m = 1 \/ m = 2 \/ m = 3 \/ m = 4 \/ m = 5 \/ m = 6
               \/ m = 7 \/ m = 8 \/ m = 9 \/ m = 10 \/ m = 11 \/ m = 12)
    by lia.
  repeat destruct Hc as [Hc|Hc]; subst m; simpl; lia.
Qed.

(** A date in the layout "January 2, 2006" is read as midnight, in UTC, of
    its day. *)
Lemma Parse_layoutDate local y m d :
  1 <= m <= 12 -> 1 <= d <= time.daysIn m y -> 0 <= y <= 9999 ->
  time.Parse local time.layoutDate
    (nth (Z.to_nat (m - 1)) time.longMonthNames EmptyString
       +:+ (" " +:+ (time.appendInt d 0
                       +:+ (", " +:+ (time.appendInt y 4 +:+ EmptyString)))))
  = (time.Date y m d 0 0 0 0 time.UTC, None).
Proof.
  intros Hm Hd Hy.
  pose proof (daysIn_le m y Hm) as H31.
  assert (Hd31 : 1 <= d <= 31) by lia.
  set (f1 := time.set_month m time.fields0).
  set (f2 := time.set_day d f1).
  destruct (parseField_year y [] f2 Hy) as [Hcut Hyear].
  set (ys := time.appendInt y 4) in *.
  destruct (parseField_day [time.Lit ", "; time.Field time.stdLongYear] f1 d
                           (String " " (ys +:+ EmptyString)) Hd31)
    as [Hdcut Hday].
  unfold time.Parse, time.layoutDate.
  change (time.parseChunks (?c :: ?rest) ?f ?v)
    with (match time.parseField time.stdLongMonth rest f v with
          | inl (f', v') => time.parseChunks rest f' v'
          | inr e => inr e
          end).
  rewrite (parseField_longMonth _ _ m _ Hm). fold f1.
  change (time.parseChunks (time.Lit " " :: ?rest) f1 (" " +:+ ?v))
    with (time.parseChunks rest f1 (time.cutspace v)).
  change (", " +:+ ?r) with (String "," (String " " r)).
  rewrite Hdcut.
  change (time.parseChunks (time.Field time.stdDay :: ?rest) ?f ?v)
    with (match time.parseField time.stdDay rest f v with
          | inl (f', v') => time.parseChunks rest f' v'
          | inr e => inr e
          end).
  rewrite Hday. fold f2.
  change (time.parseChunks (time.Lit ", " :: ?rest) f2
                           (String "," (String " " ?v)))
    with (time.parseChunks rest f2 (time.cutspace v)).
  rewrite Hcut.
  change (time.parseChunks [time.Field time.stdLongYear] f2 ys)
    with (match time.parseField time.stdLongYear [] f2 ys with
          | inl (f', v') => time.parseChunks [] f' v'
          | inr e => inr e
          end).
  rewrite Hyear. cbn [time.parseChunks String.length Nat.eqb].
  unfold time.resolve, f2, f1. cbn.
  replace (m <? 0) with false by (symmetry; apply Z.ltb_ge; lia).
  replace (d <? 0) with false by (symmetry; apply Z.ltb_ge; lia).
  replace (d <? 1) with false by (symmetry; apply Z.ltb_ge; lia).
  replace (time.daysIn m y <? d) with false
    by (symmetry; apply Z.ltb_ge; lia).
  reflexivity.
Qed.

Lemma formatTime_readable (w : World) (t : time.Time) :
  0 <= wallYear t <= 9999 ->
  time.Parse (Local w) time.layoutDate (formatTime t)
  = (midnight (wallDay t), None).
Proof.
  unfold wallYear. intros Hy.
  destruct (time.civil (wallDay t)) as [[y m] d] eqn:E. simpl in Hy.
  destruct (civil_spec _ _ _ _ E) as (Hm & Hd & Hinv).
  rewrite (formatTime_civil t y m d E).
  rewrite (Parse_layoutDate (Local w) y m d Hm Hd Hy).
  unfold time.Date, midnight. rewrite Hinv. simpl time.zoneOffset.
  f_equal. f_equal. lia.
Qed.

(** X1.  A date written by [formatTime] is read back by [time.Parse] with
    the layout "January 2, 2006", the layout of the comparison of
    [fetchRSS], without error: as midnight, in UTC, of the day the time
    shows in its own zone.  The year shown is one of four digits. *)
Theorem formatTime_reparsed (w : World) (t : time.Time) :
  0 <= wallYear t <= 9999 ->
  time.Parse (Local w) time.layoutDate (formatTime t)
  = (midnight (wallDay t), None).
Proof.
  unfold wallYear. intros Hy.
  destruct (time.civil (wallDay t)) as [[y m] d] eqn:E. simpl in Hy.
  destruct (civil_spec _ _ _ _ E) as (Hm & Hd & Hinv).
  rewrite (formatTime_civil t y m d E).
  rewrite (Parse_layoutDate (Local w) y m d Hm Hd Hy).
  unfold time.Date, midnight. rewrite Hinv. simpl time.zoneOffset.
  f_equal. f_equal. lia.
Qed.

Lemma formatTime_reparsed_witness :
  0 <= wallYear (sample_clock 0) <= 9999
  /\ formatTime (sample_clock 0) = "July 26, 2024"
  /\ time.Parse time.UTC time.layoutDate (formatTime (sample_clock 0))
     = (midnight (wallDay (sample_clock 0)), None).
Proof.
  split; [vm_compute; split; discriminate|].
  split; [reflexivity|].
  apply (formatTime_reparsed (table_world []) (sample_clock 0)).
  vm_compute. split; discriminate.
Defined.

Lemma After_midnight d1 d2 :
  time.After (midnight d1) (midnight d2) = (d2 <? d1).
Proof.
  unfold time.After, midnight, time.secondsPerDay. simpl.
  rewrite andb_false_r, orb_false_r.
  destruct (Z.ltb_spec d2 d1); [apply Z.ltb_lt|apply Z.ltb_ge]; lia.
Qed.

(** X2.  The comparison [fetchRSS] hands to [sort.Slice] puts an article
    before another exactly when its date shows a later day: of two
    articles whose dates were written by [formatTime], the first is less
    than the second if and only if the day the first time shows in its
    zone is after the day the second shows in its own.  The time of day
    plays no part. *)
Theorem less_by_day (w : World) (t1 t2 : time.Time) :
  0 <= wallYear t1 <= 9999 -> 0 <= wallYear t2 <= 9999 ->
  (forall a1 a2,
     Github.Date a1 = formatTime t1 -> Github.Date a2 = formatTime t2 ->
     Github.less w a1 a2 = (wallDay t2 <? wallDay t1))
  /\ (forall a1 a2,
        COS.Date a1 = formatTime t1 -> COS.Date a2 = formatTime t2 ->
        COS.less w a1 a2 = (wallDay t2 <? wallDay t1)).
Proof.
  intros H1 H2.
  split; intros a1 a2 E1 E2; unfold Github.less, COS.less, dateLess;
    rewrite E1, E2, (formatTime_readable w t1 H1),
      (formatTime_readable w t2 H2);
    apply After_midnight.
Qed.

Lemma less_by_day_witness :
  0 <= wallYear (sample_clock 0) <= 9999
  /\ 0 <= wallYear (sample_clock 59) <= 9999
  /\ COS.less (table_world [])
       {| COS.Name := "a"; COS.Title := "a"; COS.Link := "a";
          COS.Date := formatTime (sample_clock 0) |}
       {| COS.Name := "b"; COS.Title := "b"; COS.Link := "b";
          COS.Date := formatTime (sample_clock 59) |}
     = (wallDay (sample_clock 59) <? wallDay (sample_clock 0)).
Proof.
  assert (H0 : 0 <= wallYear (sample_clock 0) <= 9999)
    by (vm_compute; split; discriminate).
  assert (H1 : 0 <= wallYear (sample_clock 59) <= 9999)
    by (vm_compute; split; discriminate).
  split; [exact H0|]. split; [exact H1|].
  apply (less_by_day (table_world []) (sample_clock 0) (sample_clock 59)
                     H0 H1); reflexivity.
Defined.

(** X3.  The comparison of [fetchRSS] is the order of a key, as
    [sort.Slice] requires of it: no article is before itself, "before" is
    transitive, and so is "neither before the other" - whatever the dates
    of the articles are, readable or not. *)
Theorem less_StrictWeak (w : World) :
  sort.StrictWeak (Github.less w) /\ sort.StrictWeak (COS.less w).
Proof.
  split.
  - apply (After_StrictWeak (fun a => instant w (Github.Date a))).
  - apply (After_StrictWeak (fun a => instant w (COS.Date a))).
Qed.

(** ** The remote store *)

Lemma grows_refl o : grows o o.
Proof.
  destruct o as [c|]; simpl; [|exact I].
  exists EmptyString. now rewrite append_nil_r_s.
Qed.

Lemma grows_trans o1 o2 o3 : grows o1 o2 -> grows o2 o3 -> grows o1 o3.
Proof.
  destruct o1 as [c|]; simpl; [|auto].
  intros [s1 ->] [s2 ->]. exists (s1 +:+ s2). now rewrite append_assoc_s.
Qed.

Lemma Frame_refl path objs : Frame path objs objs.
Proof. intros p _. reflexivity. Qed.

Lemma Frame_trans path o1 o2 o3 :
  Frame path o1 o2 -> Frame path o2 o3 -> Frame path o1 o3.
Proof. intros F1 F2 p Hp. now rewrite F2, F1. Qed.

Lemma Frame_insert path objs text : Frame path objs (<[path := text]> objs).
Proof. intros p Hp. now rewrite lookup_insert_ne. Qed.

Lemma LogOnly_refl path objs : LogOnly path objs objs.
Proof. split; [apply Frame_refl|apply grows_refl]. Qed.

Lemma LogOnly_trans path o1 o2 o3 :
  LogOnly path o1 o2 -> LogOnly path o2 o3 -> LogOnly path o1 o3.
Proof.
  intros [F1 G1] [F2 G2]. split.
  - eapply Frame_trans; eassumption.
  - eapply grows_trans; eassumption.
Qed.

Lemma LogOnly_insert path objs text :
  LogOnly path objs
          (<[path := default EmptyString (objs !! path) +:+ text]> objs).
Proof.
  split.
  - apply Frame_insert.
  - rewrite lookup_insert_eq. destruct (objs !! path) as [c|]; simpl;
      [eauto|exact I].
Qed.

Section Effects.
Context (w : World).

(* What logError does to the store, whether it returns or not, and whether
   a call that fails has taken effect or not: nothing, or the new entry at
   the end of the log. *)
Lemma Github_logError_effect line st :
  objects (Github.logError w line st).2 = objects st
  \/ objects (Github.logError w line st).2
     = <["api/error.log" :=
           default EmptyString (objects st !! "api/error.log")
             +:+ (line +:+ nl +:+ nl)]> (objects st).
Proof.
  unfold Github.logError, Github.logMessage, Github.GetContents,
    Github.CreateFile, Github.UpdateFile, call, note, Print.
  unfold_M. simpl.
  change ("api/" +:+ "error.log") with "api/error.log".
  destruct (objects st !! "api/error.log") as [c|] eqn:E; simpl;
    repeat (case_match; simpl in *; simplify_eq; rewrite ?E in *;
            simpl in *; simplify_eq);
    try (rewrite String.eqb_refl in *; simplify_eq);
    first [now left|now right].
Qed.

(* In the COS program what comes before the new entry is what was read of
   the log. *)
Lemma COS_logError_effect line st :
  objects (COS.logError w line st).2 = objects st
  \/ objects (COS.logError w line st).2
     = <["rss/error.log" :=
           match objects st !! "rss/error.log" with
           | Some c =>
             (io.ReadAll {| io.content := c;
                            io.breaks := broken w (calls st) |}).1
           | None => EmptyString
           end +:+ (line +:+ nl +:+ nl)]> (objects st).
Proof.
  unfold COS.logError, COS.putLog, COS.Get, COS.Put, call, note, Print.
  unfold_M. simpl.
  destruct (fault w (calls st)); simpl;
    [destruct (landed w (calls st)); now left|].
  destruct (objects st !! "rss/error.log") as [c|] eqn:E; simpl.
  - destruct (io.ReadAll _) as [existingLog e]. simpl.
    destruct (fault w (S (calls st))); simpl;
      [destruct (landed w (S (calls st))); [now right|now left]
      |now right].
  - destruct (fault w (S (calls st))); simpl;
      [destruct (landed w (S (calls st))); [now right|now left]
      |now right].
Qed.

Lemma Github_logError_LogOnly line st :
  LogOnly "api/error.log" (objects st)
          (objects (Github.logError w line st).2).
Proof.
  destruct (Github_logError_effect line st) as [-> | ->];
    [apply LogOnly_refl|apply LogOnly_insert].
Qed.

Lemma COS_logError_Frame line st :
  Frame "rss/error.log" (objects st) (objects (COS.logError w line st).2).
Proof.
  destruct (COS_logError_effect line st) as [-> | ->];
    [apply Frame_refl|apply Frame_insert].
Qed.

Lemma COS_logError_LogOnly line st :
  ReadsWhole w ->
  LogOnly "rss/error.log" (objects st) (objects (COS.logError w line st).2).
Proof.
  intros HW.
  destruct (COS_logError_effect line st) as [-> | ->];
    [apply LogOnly_refl|].
  rewrite HW. unfold io.ReadAll. simpl.
  replace (match objects st !! "rss/error.log" with
           | Some c => c
           | None => EmptyString
           end)
    with (default EmptyString (objects st !! "rss/error.log"))
    by now destruct (objects st !! "rss/error.log").
  apply LogOnly_insert.
Qed.

End Effects.

(** X4.  A failure of the logging is reported on the standard output and
    goes no further.  In the GitHub program: when the reading of the log is
    answered with an error status other than "not found", or the content of
    the log cannot be decoded, [logError] prints one line for it, makes no
    second call and returns, the store being as it was; when the writing
    fails it prints one line for it and returns; when the reading gets no
    response it panics, and nothing is printed.  In the COS program: when
    the reading fails it prints one line, makes no second call and returns,
    the store being as it was; when the writing fails it prints one
    line. *)
Theorem logError_failures_reported (w : World) (st : State) (line : string) :
  (forall f code,
     fault w (calls st) = Some f -> status f = Some code ->
     code <> http.StatusNotFound ->
     exists st',
       Github.logError w line st = (Returned tt, st')
       /\ calls st' = S (calls st) /\ objects st' = objects st
       /\ stdout st'
          = (stdout st ++ ["error checking error.log in GitHub: "
                             +:+ errorText w (cause f) +:+ nl])%list)
  /\ (forall err C,
        fault w (calls st) = None ->
        objects st !! "api/error.log" = Some C ->
        undecodable w (calls st) = Some err ->
        exists st',
          Github.logError w line st = (Returned tt, st')
          /\ calls st' = S (calls st) /\ objects st' = objects st
          /\ stdout st'
             = (stdout st ++ ["error decoding error.log content: "
                                +:+ errorText w err +:+ nl])%list)
  /\ (forall f,
        fault w (calls st) = None ->
        objects st !! "api/error.log" = None
        \/ undecodable w (calls st) = None ->
        fault w (S (calls st)) = Some f ->
        exists st',
          Github.logError w line st = (Returned tt, st')
          /\ calls st' = S (S (calls st))
          /\ stdout st'
             = (stdout st
                ++ [match objects st !! "api/error.log" with
                    | Some _ => "error updating error.log in GitHub: "
                    | None => "error creating error.log in GitHub: "
                    end +:+ errorText w (cause f) +:+ nl])%list)
  /\ (forall f,
        fault w (calls st) = Some f -> status f = None ->
        exists st',
          Github.logError w line st = (Panicked, st')
          /\ calls st' = S (calls st) /\ objects st' = objects st
          /\ stdout st' = stdout st)
  /\ (forall f,
        fault w (calls st) = Some f ->
        let st' := (COS.logError w line st).2 in
        calls st' = S (calls st) /\ objects st' = objects st
        /\ stdout st'
           = (stdout st ++ ["error downloading error.log from COS: "
                              +:+ errorText w (cause f) +:+ nl])%list)
  /\ (forall f,
        fault w (calls st) = None -> fault w (S (calls st)) = Some f ->
        let st' := (COS.logError w line st).2 in
        calls st' = S (S (calls st))
        /\ stdout st'
           = (stdout st ++ ["error saving error log to COS: "
                              +:+ errorText w (cause f) +:+ nl])%list).
Proof.
  unfold Github.logError, Github.logMessage, Github.GetContents,
    Github.CreateFile, Github.UpdateFile, COS.logError, COS.putLog, COS.Get,
    COS.Put, call, note, Print.
  unfold_M. simpl.
  change ("api/" +:+ "error.log") with "api/error.log".
  split; [|split; [|split; [|split; [|split]]]].
  - intros f code -> -> Hc. simpl.
    apply Z.eqb_neq in Hc. rewrite Hc.
    eexists. split; [reflexivity|]. simpl.
    destruct (landed w (calls st)); auto.
  - intros err C -> -> ->. simpl. eexists. split; [reflexivity|]. auto.
  - intros f -> Hd H1. simpl.
    destruct (objects st !! "api/error.log") as [c|] eqn:E; simpl.
    + destruct Hd as [Hd| ->]; [discriminate|]. simpl. rewrite H1. simpl.
      eexists. split; [reflexivity|]. auto.
    + rewrite H1. simpl. eexists. split; [reflexivity|]. auto.
  - intros f -> ->. simpl. eexists. split; [reflexivity|]. simpl.
    destruct (landed w (calls st)); auto.
  - intros f ->. simpl. destruct (landed w (calls st)); auto.
  - intros f -> H1. simpl.
    destruct (objects st !! "rss/error.log") as [c|] eqn:E; simpl.
    + destruct (io.ReadAll _) as [existingLog e]. simpl. rewrite H1.
      simpl. auto.
    + rewrite H1. simpl. auto.
Qed.

Lemma logError_failures_reported_witness :
  fault (refusing_world 1) 0 = None
  /\ objects (st_with "api/error.log" "A") !! "api/error.log" = Some "A"
  /\ (exists f, fault (refusing_world 1) 1 = Some f)
  /\ exists st',
       Github.logError (refusing_world 1) "B" (st_with "api/error.log" "A")
       = (Returned tt, st')
       /\ stdout st'
          = ["error updating error.log in GitHub: 503 Service Unavailable"
               +:+ nl].
Proof.
  split; [reflexivity|]. split; [reflexivity|].
  split; [eexists; reflexivity|].
  destruct (logError_failures_reported (refusing_world 1)
              (st_with "api/error.log" "A") "B") as (_ & _ & H & _).
  destruct (H {| cause := errorString "503 Service Unavailable";
                 status := Some 503 |}
              eq_refl (or_intror eq_refl) eq_refl) as (st' & E & _ & Hs).
  exists st'. split; [exact E|exact Hs].
Defined.

(** X5.  A publish that reports no error has written the artifact, and a
    failure of the store is always reported.  [saveToGitHub] returns no
    error exactly when its second call succeeds after a first call that
    succeeded, or that was answered "not found" with no artifact there; the
    artifact is then the JSON text of the articles.  It panics exactly when
    its first call gets no response; otherwise it returns an error that
    names the step that failed - checking, creating or updating.
    [saveToCOS] returns no error exactly when the store answers its call
    without error, the artifact being then the JSON text, and otherwise an
    error that holds the error of the store. *)
Theorem publish_reports_failure (w : World) (st : State) :
  (forall data,
     let r := Github.saveToGitHub w data st in
     (r.1 = Returned None <->
      fault w (S (calls st)) = None
      /\ (fault w (calls st) = None
          \/ exists f,
               fault w (calls st) = Some f
               /\ status f = Some http.StatusNotFound
               /\ objects st !! "api/rss_data.json" = None))
     /\ (r.1 = Panicked <->
         exists f, fault w (calls st) = Some f /\ status f = None)
     /\ (r.1 = Returned None ->
         objects r.2
         = <["api/rss_data.json" := json.Marshal Github.jsonFields data]>
             (objects st))
     /\ (forall e, r.1 = Returned (Some e) ->
           exists step err,
             e = errorString ("error " +:+ step
                                +:+ " rss_data.json in GitHub: "
                                +:+ errorText w err)
             /\ (step = "checking" \/ step = "creating"
                 \/ step = "updating")))
  /\ (forall data,
        let r := COS.saveToCOS w data st in
        (r.1 = None <-> fault w (calls st) = None)
        /\ (r.1 = None ->
            objects r.2
            = <["rss/rss_data.json" := json.Marshal COS.jsonFields data]>
                (objects st))
        /\ (forall e, r.1 = Some e ->
              exists f,
                fault w (calls st) = Some f
                /\ e = errorString ("error saving data to COS: "
                                      +:+ errorText w (cause f)))).
Proof.
  split; intros data; cbv zeta.
  - split; [|split; [|split]].
    + unfold Github.saveToGitHub, Github.GetContents, Github.CreateFile,
        Github.UpdateFile, call.
      unfold_M. simpl.
      destruct (fault w (calls st)) as [[e0 [code|]]|] eqn:E0; simpl.
      * destruct (Z.eqb_spec code http.StatusNotFound) as [->|Hc]; simpl.
        -- replace (if landed w (calls st) then objects st else objects st)
             with (objects st) by now destruct (landed w (calls st)).
           destruct (fault w (S (calls st))) as [f1|] eqn:E1; simpl.
           ++ split; [discriminate|intros [[=] _]].
           ++ destruct (objects st !! "api/rss_data.json") as [c|] eqn:E;
                simpl.
              ** split; [discriminate|].
                 intros [_ [[=]|(f & _ & _ & [=])]].
              ** split; [|reflexivity]. intros _. split; [reflexivity|].
                 right. eexists. split; [reflexivity|]. auto.
        -- split; [discriminate|].
           intros [_ [[=]|(f & [= <-] & Hs & _)]]. simpl in Hs. congruence.
      * split; [discriminate|].
        intros [_ [[=]|(f & [= <-] & [=] & _)]].
      * destruct (objects st !! "api/rss_data.json") as [c|] eqn:E; simpl;
          (destruct (fault w (S (calls st))) as [f1|] eqn:E1; simpl;
           [split; [discriminate|intros [[=] _]]|]);
          rewrite E; simpl; rewrite ?String.eqb_refl; simpl;
          (split; [auto|reflexivity]).
    + unfold Github.saveToGitHub, Github.GetContents, call.
      unfold_M. simpl.
      destruct (fault w (calls st)) as [[e0 [code|]]|]; simpl.
      * split; [|intros (f & [= <-] & [=])].
        destruct (code =? http.StatusNotFound);
          [destruct (Github.CreateFile w _ _ _) as [[e|] s2]|];
          discriminate.
      * split; [eauto|reflexivity].
      * split; [|intros (f & [=] & _)].
        destruct (objects st !! "api/rss_data.json"); simpl;
          [destruct (Github.UpdateFile w _ _ _ _) as [[e|] s2]
          |destruct (Github.CreateFile w _ _ _) as [[e|] s2]];
          discriminate.
    + pose proof (saveToGitHub_ok w data st) as H.
      destruct (Github.saveToGitHub w data st) as [r s]. simpl.
      intros ->. now apply H.
    + unfold Github.saveToGitHub. unfold_M.
      destruct (Github.GetContents w _ _) as [[file|[code|] e0] st1].
      * destruct (Github.UpdateFile w _ _ _ st1) as [[e1|] st2]; simpl;
          [|discriminate].
        intros e [= <-]. exists "updating", e1. auto.
      * destruct (code =? http.StatusNotFound).
        -- destruct (Github.CreateFile w _ _ st1) as [[e1|] st2]; simpl;
             [|discriminate].
           intros e [= <-]. exists "creating", e1. auto.
        -- simpl. intros e [= <-]. exists "checking", e0. auto.
      * discriminate.
  - unfold COS.saveToCOS, COS.Put, call. unfold_M. simpl.
    destruct (fault w (calls st)) as [f0|]; simpl.
    + split; [split; discriminate|]. split; [discriminate|].
      intros e [= <-]. eauto.
    + split; [tauto|]. split; [reflexivity|discriminate].
Qed.

(** *** What the steps of a run do to the store *)

Section GithubFrames.
Context (w : World) (sortSlice : Sorter).

Ltac log_steps :=
  repeat match goal with
         | |- context [Github.logError w ?m ?s] =>
           let H := fresh "Hlog" in
           pose proof (Github_logError_LogOnly w m s) as H;
           destruct (Github.logError w m s) as [[[]|] ?]; simpl in *
         end;
  eauto using LogOnly_refl, LogOnly_trans.

Lemma Github_fetchOne_LogOnly feedURL arts st :
  LogOnly "api/error.log" (objects st)
          (objects (Github.fetchOne w feedURL arts st).2).
Proof.
  unfold Github.fetchOne, get, stamp, getBeijingTime, time_Now.
  unfold_M. simpl.
  destruct (http_Get w _ feedURL) as [body|err]; simpl; [|log_steps].
  destruct (ParseString w _) as [feed|err]; simpl; [|log_steps].
  destruct (extractDomain (FeedLink feed)) as [dom [derr|]]; simpl;
    (destruct (Items feed) as [|item items]; simpl;
     [|destruct (Github.itemTime w item) as [t [terr|]]; simpl]);
    log_steps.
Qed.

Lemma Github_fetchAll_LogOnly feeds arts st :
  LogOnly "api/error.log" (objects st)
          (objects (Github.fetchAll w feeds arts st).2).
Proof.
  revert arts st. induction feeds as [|f fs IH]; intros arts st;
    [apply LogOnly_refl|].
  cbn [Github.fetchAll]. unfold_M.
  pose proof (Github_fetchOne_LogOnly f arts st) as H1.
  destruct (Github.fetchOne w f arts st) as [[arts'|] st']; simpl in H1;
    [|exact H1].
  eapply LogOnly_trans; [exact H1|apply IH].
Qed.

Lemma Github_fetchRSS_LogOnly feeds st :
  LogOnly "api/error.log" (objects st)
          (objects (Github.fetchRSS w sortSlice feeds st).2).
Proof.
  unfold Github.fetchRSS. unfold_M.
  pose proof (Github_fetchAll_LogOnly feeds nil_slice st) as H.
  now destruct (Github.fetchAll w feeds nil_slice st) as [[arts|] st'].
Qed.

Lemma GetContents_objects filePath st :
  objects (Github.GetContents w filePath st).2 = objects st.
Proof.
  unfold Github.GetContents, call.
  destruct (fault w (calls st)) as [f|]; simpl;
    [now destruct (landed w (calls st))|].
  now destruct (objects st !! filePath).
Qed.

Lemma Github_readFeeds_LogOnly st :
  LogOnly "api/error.log" (objects st)
          (objects (Github.readFeedsFromGitHub w st).2).
Proof.
  unfold Github.readFeedsFromGitHub, stamp, getBeijingTime, time_Now.
  unfold_M.
  pose proof (GetContents_objects "api/rss_feeds.txt" st) as HO.
  destruct (Github.GetContents w _ st) as [[file|[code|] e] st1];
    simpl in HO |- *; rewrite <- HO.
  - destruct (Github.GetContent file); [|log_steps].
    destruct (bufio.ScanLines _); simpl; log_steps.
  - destruct (code =? http.StatusNotFound); log_steps.
  - apply LogOnly_refl.
Qed.

(* What saveToGitHub does to the store: nothing, or the JSON text of the
   articles at the path of the artifact. *)
Lemma saveToGitHub_effect data st :
  objects (Github.saveToGitHub w data st).2 = objects st
  \/ objects (Github.saveToGitHub w data st).2
     = <["api/rss_data.json" := json.Marshal Github.jsonFields data]>
         (objects st).
Proof.
  unfold Github.saveToGitHub, Github.GetContents, Github.CreateFile,
    Github.UpdateFile, call.
  unfold_M. simpl.
  destruct (objects st !! "api/rss_data.json") as [c|] eqn:E; simpl;
    repeat (case_match; simpl in *; simplify_eq; rewrite ?E in *;
            simpl in *; simplify_eq);
    try (rewrite String.eqb_refl in *; simplify_eq);
    first [now left|now right].
Qed.

End GithubFrames.

Section COSFrames.
Context (w : World) (sortSlice : Sorter).
Context (R : gmap string string -> gmap string string -> Prop).
Hypothesis R_refl : forall o, R o o.
Hypothesis R_trans : forall o1 o2 o3, R o1 o2 -> R o2 o3 -> R o1 o3.
Hypothesis R_log :
  forall line st, R (objects st) (objects (COS.logError w line st).2).

Ltac log_steps :=
  repeat match goal with
         | |- context [COS.logError w ?m ?s] =>
           let H := fresh "Hlog" in
           pose proof (R_log m s) as H;
           destruct (COS.logError w m s) as [[] ?]; simpl in *
         end;
  eauto.

Lemma COS_fetchOne_keeps feedURL arts st :
  R (objects st) (objects (COS.fetchOne w feedURL arts st).2).
Proof.
  unfold COS.fetchOne, get, stamp, getBeijingTime, time_Now.
  unfold_M. simpl.
  destruct (http_Get w _ feedURL) as [body|err]; simpl; [|log_steps].
  destruct (ParseString w _) as [feed|err]; simpl; [|log_steps].
  destruct (Items feed) as [|item items]; simpl;
    [|destruct (COS.itemTime w item) as [t [terr|]]; simpl];
    log_steps.
Qed.

Lemma COS_fetchRSS_keeps feeds st :
  R (objects st) (objects (COS.fetchRSS w sortSlice feeds st).2).
Proof.
  unfold COS.fetchRSS. unfold_M.
  assert (H : forall arts st,
             R (objects st) (objects (COS.fetchAll w feeds arts st).2)).
  { clear st. induction feeds as [|f fs IH]; intros arts st;
      [apply R_refl|].
    cbn [COS.fetchAll]. unfold_M.
    pose proof (COS_fetchOne_keeps f arts st) as H1.
    destruct (COS.fetchOne w f arts st) as [arts' st']. simpl in H1.
    eapply R_trans; [exact H1|apply IH]. }
  specialize (H nil_slice st).
  now destruct (COS.fetchAll w feeds nil_slice st).
Qed.

End COSFrames.

Lemma saveToCOS_effect w data st :
  objects (COS.saveToCOS w data st).2 = objects st
  \/ objects (COS.saveToCOS w data st).2
     = <["rss/rss_data.json" := json.Marshal COS.jsonFields data]>
         (objects st).
Proof.
  unfold COS.saveToCOS, COS.Put, call. unfold_M. simpl.
  destruct (fault w (calls st)); simpl;
    [destruct (landed w (calls st)); [now right|now left]|now right].
Qed.

Lemma run_frame log art new (o0 o1 o2 o3 : gmap string string) :
  log <> art ->
  Frame log o0 o1 -> (o2 = o1 \/ o2 = <[art := new]> o1) ->
  Frame log o2 o3 ->
  (forall p, p <> log -> p <> art -> o3 !! p = o0 !! p)
  /\ (o3 !! art = o0 !! art \/ o3 !! art = Some new).
Proof.
  intros Hne F1 H2 F3.
  assert (F2 : forall p, p <> art -> o2 !! p = o1 !! p).
  { intros p Hp. destruct H2 as [-> | ->]; [reflexivity|].
    now rewrite lookup_insert_ne. }
  split.
  - intros p Hl Ha. now rewrite F3, F2, F1.
  - rewrite F3 by congruence. destruct H2 as [-> | ->].
    + left. apply F1. congruence.
    + right. apply lookup_insert_eq.
Qed.

Lemma run_grows log art new (o0 o1 o2 o3 : gmap string string) :
  log <> art ->
  LogOnly log o0 o1 -> (o2 = o1 \/ o2 = <[art := new]> o1) ->
  LogOnly log o2 o3 ->
  grows (o0 !! log) (o3 !! log).
Proof.
  intros Hne [F1 G1] H2 [F3 G3].
  eapply grows_trans; [exact G1|].
  replace (o1 !! log) with (o2 !! log); [exact G3|].
  destruct H2 as [-> | ->]; [reflexivity|]. now rewrite lookup_insert_ne.
Qed.

(** X6.  A run never harms the store.  Whatever the feeds and the store
    answer, and also when the GitHub program panics, at the end of the run
    every object other than the log and the artifact is as it was, and the
    artifact is either as it was or the JSON text of the articles of this
    run.  In the GitHub program the log holds what it held, possibly with
    entries added at its end; in the COS program it does so when the bodies
    the store sends are read to their end. *)
Theorem run_keeps_store (w : World) (sortSlice : Sorter) (st : State) :
  (let after := objects (Github.main w sortSlice st).2 in
   (forall p, p <> "api/error.log" -> p <> "api/rss_data.json" ->
      after !! p = objects st !! p)
   /\ grows (objects st !! "api/error.log") (after !! "api/error.log")
   /\ (after !! "api/rss_data.json" = objects st !! "api/rss_data.json"
       \/ exists feeds st1 returned st2,
            Github.readFeedsFromGitHub w st = (Returned (feeds, None), st1)
            /\ Github.fetchRSS w sortSlice feeds st1
               = (Returned (returned, None), st2)
            /\ after !! "api/rss_data.json"
               = Some (json.Marshal Github.jsonFields returned)))
  /\ (let r1 := COS.readFeedsFromFile w "rss_feeds.txt" in
      let r2 := COS.fetchRSS w sortSlice r1.1 st in
      let after := objects (COS.main w sortSlice st).2 in
      (forall p, p <> "rss/error.log" -> p <> "rss/rss_data.json" ->
         after !! p = objects st !! p)
      /\ (ReadsWhole w ->
          grows (objects st !! "rss/error.log") (after !! "rss/error.log"))
      /\ (after !! "rss/rss_data.json" = objects st !! "rss/rss_data.json"
          \/ after !! "rss/rss_data.json"
             = Some (json.Marshal COS.jsonFields r2.1.1))).
Proof.
  split.
  - cbv zeta.
    assert (Hgo : forall new o1 o2 o3,
               LogOnly "api/error.log" (objects st) o1 ->
               (o2 = o1 \/ o2 = <["api/rss_data.json" := new]> o1) ->
               LogOnly "api/error.log" o2 o3 ->
               (forall p, p <> "api/error.log" -> p <> "api/rss_data.json" ->
                  o3 !! p = objects st !! p)
               /\ grows (objects st !! "api/error.log")
                        (o3 !! "api/error.log")
               /\ (o3 !! "api/rss_data.json"
                   = objects st !! "api/rss_data.json"
                   \/ o3 !! "api/rss_data.json" = Some new)).
    { intros new o1 o2 o3 H1 H2 H3.
      destruct (run_frame "api/error.log" "api/rss_data.json" new
                          (objects st) o1 o2 o3) as [HF HA];
        [discriminate|apply H1|exact H2|apply H3|].
      split; [exact HF|]. split; [|exact HA].
      apply (run_grows "api/error.log" "api/rss_data.json" new
                       (objects st) o1 o2 o3);
        [discriminate|exact H1|exact H2|exact H3]. }
    assert (Hkeep : forall o1,
               LogOnly "api/error.log" (objects st) o1 ->
               (forall p, p <> "api/error.log" -> p <> "api/rss_data.json" ->
                  o1 !! p = objects st !! p)
               /\ grows (objects st !! "api/error.log")
                        (o1 !! "api/error.log")
               /\ o1 !! "api/rss_data.json"
                  = objects st !! "api/rss_data.json").
    { intros o1 H1.
      destruct (Hgo EmptyString o1 o1 o1 H1 (or_introl eq_refl)
                    (LogOnly_refl _ _)) as (HF & HG & _).
      split; [exact HF|]. split; [exact HG|].
      apply (proj1 H1). discriminate. }
    unfold Github.main. unfold_M.
    pose proof (Github_readFeeds_LogOnly w st) as H1.
    destruct (Github.readFeedsFromGitHub w st) as [[[feeds [e1|]]|] st1]
      eqn:E1; simpl in H1 |- *.
    + unfold stamp, getBeijingTime, time_Now, Print. unfold_M. simpl.
      match goal with
      | |- context [Github.logError w ?m ?s] =>
        pose proof (Github_logError_LogOnly w m s) as H2;
          destruct (Github.logError w m s) as [[[]|] st2]
      end;
        simpl in H2 |- *;
        (destruct (Hkeep (objects st2)) as (HF & HG & HA);
         [eapply LogOnly_trans; eassumption|auto]).
    + pose proof (Github_fetchRSS_LogOnly w sortSlice feeds st1) as H2.
      pose proof (Github_fetchRSS_absorbs w sortSlice feeds st1) as He.
      destruct (Github.fetchRSS w sortSlice feeds st1)
        as [[[arts e]|] st2] eqn:E2; simpl in H2 |- *.
      2: { destruct (Hkeep (objects st2)) as (HF & HG & HA);
             [eapply LogOnly_trans; eassumption|auto]. }
      destruct He as [-> _].
      pose proof (saveToGitHub_effect w arts st2) as H3.
      assert (H12 : LogOnly "api/error.log" (objects st) (objects st2))
        by (eapply LogOnly_trans; eassumption).
      assert (Hend : forall o3,
                 LogOnly "api/error.log"
                         (objects (Github.saveToGitHub w arts st2).2) o3 ->
                 (forall p, p <> "api/error.log" ->
                    p <> "api/rss_data.json" -> o3 !! p = objects st !! p)
                 /\ grows (objects st !! "api/error.log")
                          (o3 !! "api/error.log")
                 /\ (o3 !! "api/rss_data.json"
                     = objects st !! "api/rss_data.json"
                     \/ exists feeds0 st0 returned st3,
                          (Returned (feeds, @None error), st1)
                          = (Returned (feeds0, None), st0)
                          /\ Github.fetchRSS w sortSlice feeds0 st0
                             = (Returned (returned, None), st3)
                          /\ o3 !! "api/rss_data.json"
                             = Some (json.Marshal Github.jsonFields
                                                  returned))).
      { intros o3 H4.
        destruct (Hgo _ _ _ o3 H12 H3 H4) as (HF & HG & [HA|HA]); auto.
        split; [exact HF|]. split; [exact HG|]. right.
        exists feeds, st1, arts, st2. auto. }
      destruct (Github.saveToGitHub w arts st2) as [[[e3|]|] st3];
        simpl in Hend |- *.
      * unfold stamp, getBeijingTime, time_Now, Print. unfold_M. simpl.
        match goal with
        | |- context [Github.logError w ?m ?s] =>
          pose proof (Github_logError_LogOnly w m s) as H4;
            destruct (Github.logError w m s) as [[[]|] st4]
        end;
          simpl in H4 |- *; apply Hend; exact H4.
      * apply Hend, LogOnly_refl.
      * apply Hend, LogOnly_refl.
    + destruct (Hkeep (objects st1) H1) as (HF & HG & HA). auto.
  - cbv zeta. unfold COS.main. unfold_M.
    assert (HFl : forall line s,
               Frame "rss/error.log" (objects s)
                     (objects (COS.logError w line s).2))
      by (intros; apply COS_logError_Frame).
    destruct (COS.readFeedsFromFile w "rss_feeds.txt") as [feeds [e1|]];
      simpl.
    + unfold stamp, getBeijingTime, time_Now, Print. unfold_M. simpl.
      match goal with
      | |- context [COS.logError w ?m ?s] =>
        pose proof (COS_logError_Frame w m s) as H2;
          pose proof (fun HW => COS_logError_LogOnly w m s HW) as H2';
          destruct (COS.logError w m s) as [[] st2]
      end.
      simpl in H2, H2' |- *.
      destruct (run_frame "rss/error.log" "rss/rss_data.json" EmptyString
                          (objects st) (objects st) (objects st)
                          (objects st2)) as [HF HA];
        [discriminate|apply Frame_refl|now left|exact H2|].
      split; [exact HF|]. split; [intros HW; apply (H2' HW)|].
      left. apply H2. discriminate.
    + pose proof (COS_fetchRSS_keeps w sortSlice _ (Frame_refl _)
                    (Frame_trans _) HFl feeds st) as H2.
      pose proof (fun HW =>
                    COS_fetchRSS_keeps w sortSlice _ (LogOnly_refl _)
                      (LogOnly_trans _)
                      (fun line s => COS_logError_LogOnly w line s HW)
                      feeds st) as H2'.
      pose proof (COS_fetchRSS_absorbs w sortSlice feeds st) as [He _].
      destruct (COS.fetchRSS w sortSlice feeds st) as [[arts e] st2].
      simpl in H2, H2', He |- *. subst e.
      pose proof (saveToCOS_effect w arts st2) as H3.
      destruct (COS.saveToCOS w arts st2) as [[e3|] st3];
        simpl in H3 |- *.
      * unfold stamp, getBeijingTime, time_Now, Print. unfold_M. simpl.
        match goal with
        | |- context [COS.logError w ?m ?s] =>
          pose proof (COS_logError_Frame w m s) as H4;
            pose proof (fun HW => COS_logError_LogOnly w m s HW) as H4';
            destruct (COS.logError w m s) as [[] st4]
        end.
        simpl in H4, H4' |- *.
        destruct (run_frame "rss/error.log" "rss/rss_data.json"
                            (json.Marshal COS.jsonFields arts)
                            (objects st) (objects st2) (objects st3)
                            (objects st4)) as [HF HA];
          [discriminate|exact H2|exact H3|exact H4|].
        split; [exact HF|]. split; [|exact HA].
        intros HW.
        apply (run_grows "rss/error.log" "rss/rss_data.json"
                         (json.Marshal COS.jsonFields arts)
                         (objects st) (objects st2) (objects st3)
                         (objects st4));
          [discriminate|exact (H2' HW)|exact H3|exact (H4' HW)].
      * destruct (run_frame "rss/error.log" "rss/rss_data.json"
                            (json.Marshal COS.jsonFields arts)
                            (objects st) (objects st2) (objects st3)
                            (objects st3)) as [HF HA];
          [discriminate|exact H2|exact H3|apply Frame_refl|].
        split; [exact HF|]. split; [|exact HA].
        intros HW.
        apply (run_grows "rss/error.log" "rss/rss_data.json"
                         (json.Marshal COS.jsonFields arts)
                         (objects st) (objects st2) (objects st3)
                         (objects st3));
          [discriminate|exact (H2' HW)|exact H3|apply LogOnly_refl].
Qed.

Lemma run_keeps_store_witness :
  ReadsWhole (table_world [])
  /\ grows (Some "A")
           (objects (COS.main (table_world []) (@sort.Slice)
                              (st_with "rss/error.log" "A")).2
              !! "rss/error.log").
Proof.
  assert (HW : ReadsWhole (table_world [])) by (intros n; reflexivity).
  split; [exact HW|].
  destruct (run_keeps_store (table_world []) (@sort.Slice)
              (st_with "rss/error.log" "A")) as (_ & _ & H & _).
  exact (H HW).
Defined.

(** ** A feed list that cannot be read *)

Lemma Github_readFeeds_failed (w : World) st feeds err st1 :
  Github.readFeedsFromGitHub w st = (Returned (feeds, Some err), st1) ->
  exists errMsg,
    err = errorString (Sprintf0 w errMsg)
    /\ logged st1
       = (logged st ++ ["[" +:+ stampAt w (ticks st)
                          +:+ "] [Read RSS file error] " +:+ errMsg])%list
    /\ ticks st1 = S (ticks st)
    /\ requests st1 = requests st.
Proof.
  unfold Github.readFeedsFromGitHub, stamp, getBeijingTime, time_Now.
  unfold_M.
  assert (HG : forall filePath,
             let s := (Github.GetContents w filePath st).2 in
             ticks s = ticks st /\ requests s = requests st
             /\ logged s = logged st).
  { intros filePath. unfold Github.GetContents, call.
    destruct (fault w (calls st)) as [f|]; simpl; auto. }
  specialize (HG "api/rss_feeds.txt").
  destruct (Github.GetContents w _ st) as [r s]. simpl in HG.
  destruct HG as (Ht & Hr & Hl).
  assert (Hfail : forall errMsg,
             match
               Github.logError w
                 ("[" +:+ time.Format time.layoutLog
                            (time.In (Now w (ticks s))
                                     (time.FixedZone "CST" (8 * 3600)))
                    +:+ "] [Read RSS file error] " +:+ errMsg)
                 {| ticks := S (ticks s); requests := requests s;
                    calls := calls s; objects := objects s;
                    logged := logged s; stdout := stdout s |}
             with
             | (Returned _, st2) =>
               (Returned (@nil string,
                          Some (errorString (Sprintf0 w errMsg))), st2)
             | (Panicked, st2) => (Panicked, st2)
             end = (Returned (feeds, Some err), st1) ->
             exists errMsg,
               err = errorString (Sprintf0 w errMsg)
               /\ logged st1
                  = (logged st ++ ["[" +:+ stampAt w (ticks st)
                                     +:+ "] [Read RSS file error] "
                                     +:+ errMsg])%list
               /\ ticks st1 = S (ticks st) /\ requests st1 = requests st).
  { intros errMsg.
    match goal with
    | |- context [Github.logError w ?m ?s] =>
      pose proof (Github_logError_obs w m s) as (H1 & H2 & H3 & _);
        destruct (Github.logError w m s) as [[[]|] st2]
    end; [|discriminate].
    simpl in H1, H2, H3. intros [= <- <- <-]. exists errMsg.
    unfold stampAt. rewrite H1, H2, H3, Ht, Hr, Hl. auto. }
  destruct r as [file|[code|] e]; simpl.
  - destruct (Github.GetContent file); [|apply Hfail].
    destruct (bufio.ScanLines _); simpl; [discriminate|apply Hfail].
  - destruct (code =? http.StatusNotFound); apply Hfail.
  - discriminate.
Qed.

(** X7.  When the feed list cannot be read the run stops there.  In the
    GitHub program: when the reading gets no response the program panics
    at once, and nothing is logged or printed; when [readFeedsFromGitHub]
    returns an error and the run goes on to its end, the failure is in the
    log twice, once from [readFeedsFromGitHub] and once from [main], and the
    last line printed reports it; in every case no feed is requested and
    the artifact is left as it was.  In the COS program the failure is
    logged once, the last line printed reports it, no feed is requested and
    the artifact is left as it was. *)
Theorem unreadable_list_stops_run (w : World) (sortSlice : Sorter)
        (st : State) :
  (forall f,
     fault w (calls st) = Some f -> status f = None ->
     exists st',
       Github.main w sortSlice st = (Panicked, st')
       /\ calls st' = S (calls st) /\ requests st' = requests st
       /\ objects st' = objects st /\ logged st' = logged st
       /\ stdout st' = stdout st)
  /\ (forall feeds err st1,
        Github.readFeedsFromGitHub w st = (Returned (feeds, Some err), st1) ->
        let st' := (Github.main w sortSlice st).2 in
        requests st' = requests st
        /\ objects st' !! "api/rss_data.json"
           = objects st !! "api/rss_data.json"
        /\ (exists errMsg,
              err = errorString (Sprintf0 w errMsg)
              /\ logged st'
                 = (logged st
                    ++ ["[" +:+ stampAt w (ticks st)
                          +:+ "] [Read RSS file error] " +:+ errMsg;
                        entry0 w (stampAt w (S (ticks st)))
                               "Read RSS feeds error" err])%list)
        /\ ((Github.main w sortSlice st).1 = Returned tt ->
            last (stdout st')
            = Some ("Error reading RSS feeds from GitHub: "
                      +:+ errorText w err +:+ nl)))
  /\ (forall err,
        (COS.readFeedsFromFile w "rss_feeds.txt").2 = Some err ->
        let st' := (COS.main w sortSlice st).2 in
        requests st' = requests st
        /\ objects st' !! "rss/rss_data.json"
           = objects st !! "rss/rss_data.json"
        /\ logged st'
           = (logged st ++ [entry0 w (stampAt w (ticks st))
                                   "Read RSS feeds error" err])%list
        /\ last (stdout st')
           = Some ("Error reading RSS feeds from file: " +:+ errorText w err
                     +:+ nl)).
Proof.
  split; [|split].
  - intros f Hf Hs.
    unfold Github.main, Github.readFeedsFromGitHub, Github.GetContents, call.
    unfold_M. simpl. rewrite Hf. simpl. rewrite Hs.
    eexists. split; [reflexivity|].
    simpl. destruct (landed w (calls st)); auto.
  - intros feeds err st1 Hread. cbv zeta.
    destruct (Github_readFeeds_failed w st feeds err st1 Hread)
      as (errMsg & He & Hl & Ht & Hr).
    pose proof (Github_readFeeds_LogOnly w st) as [F1 _].
    unfold Github.main. unfold_M. rewrite Hread in F1 |- *.
    simpl in F1 |- *.
    unfold stamp, getBeijingTime, time_Now, Print. unfold_M. simpl.
    match goal with
    | |- context [Github.logError w ?m ?s] =>
      pose proof (Github_logError_obs w m s) as H2;
        pose proof (Github_logError_LogOnly w m s) as [F2 _];
        destruct (Github.logError w m s) as [[[]|] st2]
    end;
      simpl in H2, F2 |- *; destruct H2 as (_ & H2r & H2l & _);
      (split; [congruence|]);
      (split; [rewrite F2, F1 by discriminate; reflexivity|]);
      (split;
       [exists errMsg; split; [exact He|];
        rewrite H2l, Hl, <- app_assoc; simpl; unfold stampAt;
        now rewrite Ht|]).
    + intros _. now rewrite last_snoc.
    + discriminate.
  - intros err Herr. cbv zeta. unfold COS.main. unfold_M.
    destruct (COS.readFeedsFromFile w "rss_feeds.txt") as [feeds e1].
    simpl in Herr. subst e1.
    unfold stamp, getBeijingTime, time_Now, Print. unfold_M. simpl.
    match goal with
    | |- context [COS.logError w ?m ?s] =>
      pose proof (COS_logError_obs w m s) as H2;
        pose proof (COS_logError_Frame w m s) as F2;
        destruct (COS.logError w m s) as [[] st2]
    end.
    simpl in H2, F2 |- *. destruct H2 as (_ & H2r & H2l).
    split; [exact H2r|]. split; [now apply F2|].
    split; [exact H2l|now rewrite last_snoc].
Qed.

Lemma unreadable_list_stops_run_witness :
  (exists st1,
     Github.readFeedsFromGitHub (table_world []) st0
     = (Returned ([],
                  Some (errorString
                          ("Error: api/rss_feeds.txt not found in GitHub "
                             +:+ "repository"))), st1))
  /\ requests (Github.main (table_world []) (@sort.Slice) st0).2 = []
  /\ length (logged (Github.main (table_world []) (@sort.Slice) st0).2)
     = 2%nat.
Proof.
  split; [eexists; vm_compute; reflexivity|].
  destruct (unreadable_list_stops_run (table_world []) (@sort.Slice) st0)
    as (_ & H & _).
  edestruct (H [] (errorString
                     ("Error: api/rss_feeds.txt not found in GitHub "
                        +:+ "repository")))
    as (Hr & _ & (m & _ & Hl) & _); [vm_compute; reflexivity|].
  split; [exact Hr|]. now rewrite Hl.
Defined.

(** ** The feed list *)

Lemma segments_line l rest :
  strings.ContainsByte l bufio.newline = false ->
  bufio.segments (l +:+ String bufio.newline rest)
  = l :: bufio.segments rest.
Proof.
  unfold strings.ContainsByte.
  induction l as [|c l IH]; rewrite ?append_cons_s, ?append_nil_s.
  - intros _. cbn [bufio.segments]. now rewrite Ascii.eqb_refl.
  - cbn [strings.IndexByte bufio.segments]. rewrite (Ascii.eqb_sym c).
    destruct (Ascii.eqb bufio.newline c); [discriminate|].
    intros H. rewrite IH; [reflexivity|].
    now destruct (strings.IndexByte l bufio.newline).
Qed.

Lemma segments_last tail :
  strings.ContainsByte tail bufio.newline = false ->
  bufio.segments tail = lastLine tail.
Proof.
  unfold strings.ContainsByte.
  induction tail as [|c l IH]; [reflexivity|].
  cbn [strings.IndexByte bufio.segments]. rewrite (Ascii.eqb_sym c).
  destruct (Ascii.eqb bufio.newline c); [discriminate|].
  intros H. rewrite IH by now destruct (strings.IndexByte l bufio.newline).
  now destruct l.
Qed.

Lemma dropCR_plain l :
  strings.HasSuffix l (String bufio.cr EmptyString) = false ->
  bufio.dropCR l = l.
Proof. unfold bufio.dropCR. now intros ->. Qed.

Lemma dropCR_cr l : bufio.dropCR (l +:+ String bufio.cr EmptyString) = l.
Proof.
  unfold bufio.dropCR, strings.HasSuffix.
  rewrite length_append_s. cbn [String.length].
  replace (String.length l + 1 - 1)%nat with (String.length l) by lia.
  rewrite drop_app_s, take_app_s.
  replace (1 <=? String.length l + 1)%nat with true
    by (symmetry; apply Nat.leb_le; lia).
  reflexivity.
Qed.

Lemma ScanLines_segments content lines :
  Forall2 (fun seg l =>
             (String.length seg < bufio.MaxScanTokenSize)%nat
             /\ bufio.dropCR seg = l) (bufio.segments content) lines ->
  bufio.ScanLines content = inl lines.
Proof.
  unfold bufio.ScanLines. generalize (bufio.segments content).
  intros segs H.
  replace (existsb _ segs) with false.
  - f_equal. induction H as [|seg l segs ls [_ <-] _ IH]; simpl;
      [reflexivity|now rewrite IH].
  - symmetry. induction H as [|seg l segs ls [Hlen _] _ IH];
      [reflexivity|].
    cbn [existsb]. rewrite IH, orb_false_r. now apply Nat.leb_gt.
Qed.

Lemma ScanLines_unlines eol lines tail :
  eol = nl \/ eol = crlf ->
  Forall (fun l => plain l = true) lines -> plain tail = true ->
  bufio.ScanLines (unlines eol lines +:+ tail)
  = inl (lines ++ lastLine tail)%list.
Proof.
  intros Heol Hlines Htail. apply ScanLines_segments.
  unfold plain in Htail.
  apply andb_prop in Htail as [[Hn Hc]%andb_prop Hl].
  apply negb_true_iff in Hn, Hc. apply Nat.ltb_lt in Hl.
  induction Hlines as [|l lines Hp _ IH].
  - unfold unlines. simpl. rewrite append_nil_s, (segments_last _ Hn).
    destruct tail; constructor; [|constructor].
    split; [lia|now apply dropCR_plain].
  - unfold plain in Hp.
    apply andb_prop in Hp as [[Hn' Hc']%andb_prop Hl'].
    apply negb_true_iff in Hn', Hc'. apply Nat.ltb_lt in Hl'.
    unfold unlines in *. cbn [map concat_s fold_right].
    fold (concat_s (map (fun l => l +:+ eol) lines)).
    destruct Heol as [-> | ->].
    + change nl with (String bufio.newline EmptyString) in *.
      rewrite !append_assoc_s, append_cons_s, append_nil_s.
      rewrite (segments_line l _ Hn'). simpl. constructor; [|exact IH].
      split; [lia|now apply dropCR_plain].
    + assert (E : forall rest,
                 (l +:+ crlf) +:+ rest
                 = (l +:+ String bufio.cr EmptyString)
                     +:+ String bufio.newline rest).
      { intros rest. unfold crlf. now rewrite !append_assoc_s. }
      rewrite append_assoc_s, E, segments_line.
      * simpl. constructor; [|exact IH].
        split; [rewrite length_append_s; simpl; lia|apply dropCR_cr].
      * rewrite ContainsByte_app, Hn'. reflexivity.
Qed.

(** X8.  A feed list whose lines end with a newline, or with a carriage
    return and a newline, is read back line for line - blank lines are feed
    URLs like the others - and text after the last end of line is one more
    line; by [readFeedsFromGitHub] from the object of the store, when the
    store answers the call and the content is decoded, and by
    [readFeedsFromFile] from the local file.  The lines have no newline
    inside and no carriage return at their end, and are shorter than the
    buffer of the Scanner. *)
Theorem feed_list_read_back (w : World) (eol : string)
        (lines : list string) (tail : string) :
  eol = nl \/ eol = crlf ->
  Forall (fun l => plain l = true) lines -> plain tail = true ->
  (forall st,
     fault w (calls st) = None ->
     undecodable w (calls st) = None ->
     objects st !! "api/rss_feeds.txt" = Some (unlines eol lines +:+ tail) ->
     (Github.readFeedsFromGitHub w st).1
     = Returned ((lines ++ lastLine tail)%list, None))
  /\ (readFile w "rss_feeds.txt" = inl (unlines eol lines +:+ tail) ->
      COS.readFeedsFromFile w "rss_feeds.txt"
      = ((lines ++ lastLine tail)%list, None)).
Proof.
  intros Heol Hlines Htail.
  pose proof (ScanLines_unlines eol lines tail Heol Hlines Htail) as HS.
  split.
  - intros st Hf Hd Ho.
    unfold Github.readFeedsFromGitHub, Github.GetContents, call.
    unfold_M. simpl. rewrite Hf. simpl. rewrite Ho. simpl. rewrite Hd.
    now rewrite HS.
  - intros Hr. unfold COS.readFeedsFromFile. now rewrite Hr, HS.
Qed.

Lemma feed_list_read_back_witness :
  Forall (fun l => plain l = true) ["https://a.example/feed"; EmptyString]
  /\ plain "https://b.example/rss" = true
  /\ (Github.readFeedsFromGitHub (table_world [])
        (st_with "api/rss_feeds.txt"
                 (unlines crlf ["https://a.example/feed"; EmptyString]
                    +:+ "https://b.example/rss"))).1
     = Returned
         (["https://a.example/feed"; EmptyString; "https://b.example/rss"],
          None).
Proof.
  assert (H1 : Forall (fun l => plain l = true)
                      ["https://a.example/feed"; EmptyString])
    by (repeat constructor).
  assert (H2 : plain "https://b.example/rss" = true) by reflexivity.
  split; [exact H1|]. split; [exact H2|].
  destruct (feed_list_read_back (table_world []) crlf
              ["https://a.example/feed"; EmptyString]
              "https://b.example/rss" (or_intror eq_refl) H1 H2) as [H _].
  apply H; reflexivity.
Defined.

(** ** Ties in a short list *)

Section Stable.
Context {A : Type} (less : A -> A -> bool) (Hless : sort.StrictWeak less).

Lemma Swap_adjacent (data : list A) j x y :
  data !! j = Some y -> data !! S j = Some x ->
  sort.Swap data (S j) j = (take j data ++ x :: y :: drop (S (S j)) data)%list
  /\ data = (take j data ++ y :: x :: drop (S (S j)) data)%list.
Proof.
  intros Hy Hx.
  assert (Hd : data = (take j data ++ y :: x :: drop (S (S j)) data)%list).
  { rewrite <- (take_drop_middle data j y Hy) at 1. do 2 f_equal.
    now apply drop_S. }
  split; [|exact Hd].
  unfold sort.Swap. rewrite Hx, Hy.
  assert (Hlen : length (take j data) = j).
  { apply length_take_le. apply lookup_lt_Some in Hy. lia. }
  rewrite Hd at 1.
  rewrite (insert_app_r_alt (take j data) _ j) by lia.
  rewrite Hlen, Nat.sub_diag. cbn [list_insert insert].
  rewrite (insert_app_r_alt (take j data) _ (S j)) by lia.
  rewrite Hlen. replace (S j - j)%nat with 1%nat by lia. reflexivity.
Qed.

Lemma filter_swap (P : A -> bool) pre x y post :
  (P x = true -> P y = false) ->
  List.filter P (pre ++ x :: y :: post)
  = List.filter P (pre ++ y :: x :: post).
Proof.
  intros H. rewrite !List.filter_app. f_equal. simpl.
  destruct (P x); [rewrite (H eq_refl)|]; reflexivity.
Qed.

Lemma insert_down_ties a0 data a j :
  List.filter (tied less a0) (sort.insert_down less data a j)
  = List.filter (tied less a0) data.
Proof.
  revert data. induction j as [|j IH]; intros data; [reflexivity|].
  cbn [sort.insert_down].
  destruct (_ && _) eqn:E; [|reflexivity].
  apply andb_prop in E as [_ E]. unfold sort.Less in E.
  destruct (data !! S j) as [x|] eqn:Hx; [|discriminate].
  destruct (data !! j) as [y|] eqn:Hy; [|discriminate].
  destruct (Swap_adjacent data j x y Hy Hx) as [Hs Hd].
  rewrite IH, Hs. rewrite Hd at 3. apply filter_swap.
  unfold tied. intros [Hax Hxa]%andb_prop.
  apply negb_true_iff in Hax, Hxa.
  destruct Hless as (_ & _ & Hneg).
  destruct (less a0 y) eqn:Hay; [reflexivity|].
  rewrite (Hneg x a0 y Hxa Hay) in E. discriminate.
Qed.

Lemma insertionSort_func_ties a0 data a b :
  List.filter (tied less a0) (sort.insertionSort_func less data a b)
  = List.filter (tied less a0) data.
Proof.
  unfold sort.insertionSort_func.
  assert (H : forall n d i,
             List.filter (tied less a0) (sort.insertionSort_from less n d a i)
             = List.filter (tied less a0) d).
  { induction n as [|n IH]; intros d i; [reflexivity|].
    cbn [sort.insertionSort_from]. rewrite IH. apply insert_down_ties. }
  apply H.
Qed.

Lemma Slice_short data :
  (length data <= 12)%nat ->
  sort.Slice less data = sort.insertionSort_func less data 0 (length data).
Proof.
  intros H. unfold sort.Slice, sort.pdqsort_func.
  cbn [sort.pdqsort_fuel]. unfold sort.maxInsertion.
  now replace (length data - 0 <=? 12)%nat with true
    by (symmetry; apply Nat.leb_le; lia).
Qed.

End Stable.

Lemma yields_length w n feeds :
  (length (yields w n feeds) <= length feeds)%nat.
Proof.
  revert n. induction feeds as [|f feeds IH]; intros n; simpl; [lia|].
  specialize (IH (S n)). destruct (yield w n f); simpl; lia.
Qed.

(** X10.  A list of at most twelve feeds is sorted without disturbing
    ties: [sort.Slice] sorts up to twelve elements by insertion, so among
    the articles that are neither before nor after a given article in the
    order of the dates, the order in which the feeds were read is kept. *)
Theorem short_list_keeps_ties (w : World) (feeds : list string)
        (st : State) :
  (length feeds <= 12)%nat ->
  (forall returned err st',
     Github.fetchRSS w (@sort.Slice) feeds st
     = (Returned (returned, err), st') ->
     exists collected,
       Github.fetchAll w feeds nil_slice st = (Returned collected, st')
       /\ forall a,
            List.filter (tied (Github.less w) a) (elems returned)
            = List.filter (tied (Github.less w) a) (elems collected))
  /\ (Answers w ->
      exists returned st',
        Github.fetchRSS w (@sort.Slice) feeds st
        = (Returned (returned, None), st'))
  /\ (forall a,
        List.filter (tied (COS.less w) a)
                    (elems (COS.fetchRSS w (@sort.Slice) feeds st).1.1)
        = List.filter (tied (COS.less w) a)
                      (elems (COS.fetchAll w feeds nil_slice st).1)).
Proof.
  intros Hlen. split; [|split; [apply Github_fetchRSS_returns|]].
  - intros returned err st' Hrun.
    destruct (Github_fetchRSS_inv w (@sort.Slice) feeds st _ _ _ Hrun)
      as (_ & collected & Hc & ->).
    exists collected. split; [exact Hc|]. intros a.
    destruct (Github_fetchAll_yields w feeds nil_slice st _ _ Hc)
      as (new & Hnew & Hall & _).
    apply Forall2_length in Hall.
    pose proof (yields_length w (length (requests st)) feeds) as Hy.
    destruct collected as [|l]; simpl in *; [reflexivity|].
    rewrite Slice_short by (subst l; lia).
    apply insertionSort_func_ties.
    apply (After_StrictWeak (fun a => instant w (Github.Date a))).
  - intros a.
    destruct (COS_fetchAll_yields w feeds nil_slice st)
      as (new & Hnew & Hall & _).
    apply Forall2_length in Hall.
    pose proof (yields_length w (length (requests st)) feeds) as Hy.
    unfold COS.fetchRSS. unfold_M.
    destruct (COS.fetchAll w feeds nil_slice st) as [[|l] st'];
      simpl in *; [reflexivity|].
    rewrite Slice_short by (subst l; lia).
    apply insertionSort_func_ties.
    apply (After_StrictWeak (fun a => instant w (COS.Date a))).
Qed.

Lemma short_list_keeps_ties_witness :
  (length (map fst (firstn 12 thirteen)) <= 12)%nat
  /\ List.filter
       (tied (COS.less (table_world thirteen))
             {| COS.Name := "f00"; COS.Title := "Post of f00";
                COS.Link := "https://f00/post";
                COS.Date := "July 26, 2024" |})
       (elems (COS.fetchRSS (table_world thirteen) (@sort.Slice)
                            (map fst (firstn 12 thirteen)) st0).1.1)
     = List.filter
         (tied (COS.less (table_world thirteen))
               {| COS.Name := "f00"; COS.Title := "Post of f00";
                  COS.Link := "https://f00/post";
                  COS.Date := "July 26, 2024" |})
         (elems (COS.fetchAll (table_world thirteen)
                              (map fst (firstn 12 thirteen)) nil_slice
                              st0).1).
Proof.
  split; [vm_compute; lia|].
  apply (proj2 (proj2 (short_list_keeps_ties (table_world thirteen)
                         (map fst (firstn 12 thirteen)) st0
                         ltac:(vm_compute; lia)))).
Defined.

(** ** The sanitizer on well-formed text *)

Lemma ValidString_runes_clean re s :
  utf8.ValidString s = true ->
  utf8.runes (regexp.ReplaceAllString_empty re s)
  = List.filter (fun u => negb (regexp.matchRune re u.1)) (utf8.runes s).
Proof.
  remember (String.length s) as n eqn:Hn. revert s Hn.
  induction n as [n IH] using lt_wf_ind. intros s Hn Hv.
  destruct s as [|c t]; [reflexivity|].
  destruct (utf8.DecodeRuneInString (String c t)) as [r k] eqn:E.
  assert (Hne : String c t <> EmptyString) by congruence.
  rewrite (sanitizer.ValidString_cons _ _ _ Hne E) in Hv.
  apply andb_prop in Hv as [Hu Hv]. apply negb_true_iff in Hu.
  apply utf8_facts.decode_width in E as Hw; [|congruence].
  assert (Hlt : (String.length (drop_s k (String c t)) < n)%nat)
    by (rewrite length_drop_s; simpl in *; lia).
  rewrite (regexp_facts.ReplaceAllString_empty_cons _ _ _ _ Hne E).
  rewrite (utf8_facts.runes_cons _ _ _ Hne E).
  cbn [List.filter fst].
  destruct (regexp.matchRune re r) eqn:Hm; cbn [negb].
  - apply (IH _ Hlt _ eq_refl Hv).
  - set (u := take_s k (String c t)).
    set (rest := regexp.ReplaceAllString_empty re (drop_s k (String c t))).
    assert (Hlen : String.length u = k) by (apply length_take_s; lia).
    assert (Hne' : u +:+ rest <> EmptyString).
    { destruct u; simpl in Hlen; [lia|]. rewrite append_cons_s. congruence. }
    pose proof (utf8_facts.decode_prefix _ _ _ rest Hne E Hu) as E'.
    fold u in E'.
    rewrite (utf8_facts.runes_cons _ _ _ Hne' E').
    rewrite <- Hlen at 1 2. rewrite take_app_s, drop_app_s.
    unfold rest. now rewrite (IH _ Hlt _ eq_refl Hv).
Qed.

Lemma forallb_filter {B} (p q : B -> bool) l :
  forallb p l = true -> forallb p (List.filter q l) = true.
Proof.
  induction l as [|x l IH]; simpl; [auto|].
  intros [Hx Hl]%andb_prop. destruct (q x); simpl; [rewrite Hx|]; auto.
Qed.

(** X11.  On well-formed UTF-8 the sanitizer does what it is there for:
    the characters of [cleanXMLContent x] are the characters of [x]
    without those in U+0000-U+001F and U+007F-U+009F, in their order, so
    that the output is well-formed UTF-8 again and holds none of these
    characters. *)
Theorem cleanXMLContent_well_formed (x : string) :
  utf8.ValidString x = true ->
  utf8.runes (cleanXMLContent x)
  = List.filter (fun u => negb (is_control_rune u.1)) (utf8.runes x)
  /\ utf8.ValidString (cleanXMLContent x) = true
  /\ forallb (fun u => negb (is_control_rune u.1))
             (utf8.runes (cleanXMLContent x)) = true.
Proof.
  intros Hv.
  assert (Hr : utf8.runes (cleanXMLContent x)
               = List.filter (fun u => negb (is_control_rune u.1))
                             (utf8.runes x)).
  { unfold cleanXMLContent. rewrite (ValidString_runes_clean _ _ Hv).
    apply sanitizer.filter_ext_runes. intros u.
    now rewrite sanitizer.matchRune_illegalChars. }
  split; [exact Hr|]. split.
  - unfold utf8.ValidString in *. rewrite Hr. now apply forallb_filter.
  - rewrite Hr. clear Hr.
    induction (utf8.runes x) as [|u l IH]; [reflexivity|].
    simpl. destruct (is_control_rune u.1) eqn:Eu; simpl; [exact IH|].
    now rewrite Eu, IH.
Qed.

Lemma cleanXMLContent_well_formed_witness :
  utf8.ValidString sample_text = true
  /\ map fst (utf8.runes (cleanXMLContent sample_text)) = [0x61; 0x4E2D; 0x62]
  /\ utf8.ValidString (cleanXMLContent sample_text) = true.
Proof.
  split; [reflexivity|]. split; [reflexivity|].
  apply (cleanXMLContent_well_formed sample_text). reflexivity.
Defined.

(** ** The bytes of the published text *)

Lemma allBytes_app p a b :
  allBytes p (a +:+ b) = allBytes p a && allBytes p b.
Proof.
  unfold allBytes.
  induction a as [|c a IH]; rewrite ?append_cons_s, ?append_nil_s;
    [reflexivity|].
  simpl. now rewrite IH, andb_assoc.
Qed.

Lemma allBytes_weaken (p q : ascii -> bool) s :
  (forall c, p c = true -> q c = true) ->
  allBytes p s = true -> allBytes q s = true.
Proof.
  intros H. unfold allBytes.
  induction (list_ascii_of_string s) as [|c l IH]; simpl; [auto|].
  intros [Hc Hl]%andb_prop. now rewrite (H c Hc), IH.
Qed.

(* The bytes of a rune of several bytes are all outside ASCII. *)
Lemma decode_high c0 t0 r k :
  utf8.DecodeRuneInString (String c0 t0) = (r, k) ->
  0x80 <= byteZ c0 ->
  (r =? utf8.RuneError) && (k =? 1)%nat = false ->
  allBytes (fun c => 0x80 <=? byteZ c) (take_s k (String c0 t0)) = true.
Proof.
  unfold utf8.DecodeRuneInString, allBytes.
  destruct (utf8_facts.first_cases (byteZ c0))
    as [H|[H|[H|[H|[H|[H|[H|[H|H]]]]]]]];
    rewrite H; cbv [utf8.as_ utf8.xx utf8.s1 utf8.s2 utf8.s3 utf8.s4
                    utf8.s5 utf8.s6 utf8.s7]; simpl;
    repeat match goal with
           | |- (utf8.RuneError, 1%nat) = _ -> _ =>
             intros [= <- <-] _ Hc; simpl in Hc; discriminate Hc
           | |- (if ?b then _ else _) = _ -> _ => destruct b eqn:?
           | |- match ?t with EmptyString => _ | String _ _ => _ end = _
                -> _ => destruct t
           end;
    intros [= <- <-] Hb _; simpl;
    repeat match goal with
           | E : (_ || _) = false |- _ =>
             apply orb_false_elim in E as [?%Z.ltb_ge ?%Z.ltb_ge]
           end;
    unfold utf8.locb, utf8.hicb in *;
    repeat (apply andb_true_intro; split); try reflexivity;
    apply Z.leb_le; lia.
Qed.

Lemma asciiChunk_plain c :
  (byteZ c <? utf8.RuneSelf) = true ->
  allBytes htmlPlain (asciiChunk c) = true.
Proof.
  destruct c as [b0 b1 b2 b3 b4 b5 b6 b7].
  destruct b0, b1, b2, b3, b4, b5, b6, b7; vm_compute; intros H;
    first [reflexivity | discriminate H].
Qed.

Lemma appendString_fuel_plain fuel s :
  allBytes htmlPlain (json.appendString_fuel fuel s) = true.
Proof.
  revert s. induction fuel as [|fuel IH]; intros s; [reflexivity|].
  cbn [json.appendString_fuel]. destruct s as [|c t]; [reflexivity|].
  destruct (byteZ c <? utf8.RuneSelf) eqn:Hc.
  - rewrite allBytes_app, IH, andb_true_r.
    apply (asciiChunk_plain c Hc).
  - destruct (utf8.DecodeRuneInString (String c t)) as [r size] eqn:E.
    rewrite allBytes_app, IH, andb_true_r.
    destruct ((r =? utf8.RuneError) && (size =? 1)%nat) eqn:Herr;
      [reflexivity|].
    destruct ((r =? 0x2028) || (r =? 0x2029)) eqn:Hsep.
    + apply orb_prop in Hsep as [->%Z.eqb_eq | ->%Z.eqb_eq]; reflexivity.
    + apply Z.ltb_ge in Hc. unfold utf8.RuneSelf in Hc.
      apply (allBytes_weaken (fun c => 0x80 <=? byteZ c)).
      * intros d Hd. apply Z.leb_le in Hd. unfold htmlPlain.
        repeat (apply andb_true_intro; split);
          [apply Z.leb_le; lia| | |];
          apply negb_true_iff, Z.eqb_neq; lia.
      * apply (decode_high c t r size E Hc Herr).
Qed.

Lemma encodeString_plain s : allBytes htmlPlain (json.encodeString s) = true.
Proof.
  unfold json.encodeString.
  now rewrite !allBytes_app, appendString_fuel_plain.
Qed.

Lemma join_plain sep l :
  allBytes htmlPlain sep = true ->
  forallb (allBytes htmlPlain) l = true ->
  allBytes htmlPlain (json.join sep l) = true.
Proof.
  intros Hsep. induction l as [|x l IH]; [reflexivity|].
  cbn [forallb]. intros [Hx Hl]%andb_prop.
  destruct l as [|y l]; [exact Hx|].
  cbn [json.join] in *. now rewrite !allBytes_app, Hx, Hsep, (IH Hl).
Qed.

Lemma encodeStruct_plain fields :
  allBytes htmlPlain (json.encodeStruct fields) = true.
Proof.
  unfold json.encodeStruct. rewrite !allBytes_app.
  rewrite join_plain; [reflexivity|reflexivity|].
  induction fields as [|[name v] fields IH]; [reflexivity|].
  cbn [map forallb]. rewrite IH, andb_true_r.
  now rewrite !allBytes_app, !encodeString_plain.
Qed.

(** X12.  The text that is published holds no control byte and none of
    the bytes <, > and &, whatever the titles, names and links of the
    feeds hold - ill-formed UTF-8 included: [json.Marshal] writes these
    bytes as escapes. *)
Theorem published_text_is_plain :
  (forall data : slice Github.Article,
     allBytes htmlPlain (json.Marshal Github.jsonFields data) = true)
  /\ (forall data : slice COS.Article,
        allBytes htmlPlain (json.Marshal COS.jsonFields data) = true).
Proof.
  split; intros data; unfold json.Marshal; destruct data as [|l];
    try reflexivity;
    rewrite !allBytes_app; (rewrite join_plain; [reflexivity|reflexivity|]);
    (induction l as [|a l IH]; [reflexivity|]);
    cbn [map forallb]; now rewrite IH, encodeStruct_plain.
Qed.

Lemma appendString_fuel_verbatim n :
  forall s fuel,
    String.length s = n -> (String.length s <= fuel)%nat ->
    verbatim s = true -> json.appendString_fuel fuel s = s.
Proof.
  induction n as [n IH] using lt_wf_ind. intros s fuel Hn Hf Hv.
  destruct s as [|c t]; [now destruct fuel|].
  destruct fuel as [|fuel]; [simpl in Hf; lia|].
  destruct (utf8.DecodeRuneInString (String c t)) as [r k] eqn:E.
  assert (Hne : String c t <> EmptyString) by congruence.
  unfold verbatim in Hv. rewrite (utf8_facts.runes_cons _ _ _ Hne E) in Hv.
  cbn [forallb] in Hv. apply andb_prop in Hv as [Hu Hv].
  unfold jsonVerbatim in Hu. cbn [fst snd] in Hu.
  apply andb_prop in Hu as [[Hill Hsep]%andb_prop Hsafe].
  apply negb_true_iff in Hill, Hsep.
  apply utf8_facts.decode_width in E as Hw; [|congruence].
  assert (Hrec : json.appendString_fuel fuel (drop_s k (String c t))
                 = drop_s k (String c t)).
  { apply (IH (String.length (drop_s k (String c t)))); auto;
      rewrite length_drop_s; simpl in *; lia. }
  cbn [json.appendString_fuel].
  destruct (byteZ c <? utf8.RuneSelf) eqn:Hc.
  - assert (E' : utf8.DecodeRuneInString (String c t) = (byteZ c, 1%nat)).
    { unfold utf8.DecodeRuneInString, utf8.first.
      unfold utf8.RuneSelf in Hc. rewrite Hc. reflexivity. }
    rewrite E in E'. injection E' as -> ->.
    rewrite Hc in Hsafe. cbn [negb orb] in Hsafe. rewrite Hsafe.
    cbn [drop_s] in Hrec. now rewrite Hrec.
  - rewrite E.
    assert (Hk : String.length (take_s k (String c t)) = k)
      by (apply length_take_s; lia).
    unfold utf8.ill_formed in Hill. cbn [fst snd] in Hill.
    rewrite Hk in Hill. rewrite Hill, Hsep, Hrec. apply take_drop_s.
Qed.

(** X13.  Text that needs no escape is published as it is: a field of
    well-formed UTF-8 - Chinese titles for instance - without control
    characters, quotes, backslashes, <, >, & and the line separators
    U+2028 and U+2029 is written between two quotes, byte for byte; so an
    article of the COS program with such fields is written with its four
    fields in the order name, title, link, date. *)
Theorem plain_fields_verbatim :
  (forall s,
     verbatim s = true ->
     json.encodeString s = json.dquote +:+ s +:+ json.dquote)
  /\ (forall a,
        verbatim (COS.Name a) = true -> verbatim (COS.Title a) = true ->
        verbatim (COS.Link a) = true -> verbatim (COS.Date a) = true ->
        json.Marshal COS.jsonFields (mk_slice [a])
        = "[{" +:+ json.dquote +:+ "name" +:+ json.dquote +:+ ":"
            +:+ json.dquote +:+ COS.Name a +:+ json.dquote +:+ ","
            +:+ json.dquote +:+ "title" +:+ json.dquote +:+ ":"
            +:+ json.dquote +:+ COS.Title a +:+ json.dquote +:+ ","
            +:+ json.dquote +:+ "link" +:+ json.dquote +:+ ":"
            +:+ json.dquote +:+ COS.Link a +:+ json.dquote +:+ ","
            +:+ json.dquote +:+ "date" +:+ json.dquote +:+ ":"
            +:+ json.dquote +:+ COS.Date a +:+ json.dquote +:+ "}]").
Proof.
  assert (H : forall s,
             verbatim s = true ->
             json.encodeString s = json.dquote +:+ s +:+ json.dquote).
  { intros s Hs. unfold json.encodeString.
    now rewrite (appendString_fuel_verbatim _ s _ eq_refl (le_n _) Hs). }
  split; [exact H|].
  intros a Hn Ht Hl Hd. unfold json.Marshal, json.encodeStruct,
    COS.jsonFields.
  cbn [map json.join].
  rewrite (H _ Hn), (H _ Ht), (H _ Hl), (H _ Hd).
  change (json.encodeString "name")
    with (json.dquote +:+ "name" +:+ json.dquote).
  change (json.encodeString "title")
    with (json.dquote +:+ "title" +:+ json.dquote).
  change (json.encodeString "link")
    with (json.dquote +:+ "link" +:+ json.dquote).
  change (json.encodeString "date")
    with (json.dquote +:+ "date" +:+ json.dquote).
  rewrite !append_assoc_s. reflexivity.
Qed.

Lemma plain_fields_verbatim_witness :
  verbatim (bytes_to_string [0xE4; 0xB8; 0xAD; 0xE6; 0x96; 0x87]) = true
  /\ json.encodeString (bytes_to_string [0xE4; 0xB8; 0xAD; 0xE6; 0x96; 0x87])
     = json.dquote +:+ bytes_to_string [0xE4; 0xB8; 0xAD; 0xE6; 0x96; 0x87]
         +:+ json.dquote.
Proof.
  split; [reflexivity|].
  apply (proj1 plain_fields_verbatim). reflexivity.
Defined.

(** ** Timestamps of RFC 3339 *)

Lemma two_cycle : all_from 100 0 two_ok = true.
Proof. vm_compute. reflexivity. Qed.

Lemma zone_cycle : all_from (Z.to_nat 2879) (-1439) zone_ok = true.
Proof. vm_compute. reflexivity. Qed.

Lemma getnum_two v fixed r :
  0 <= v <= 99 ->
  time.getnum (time.appendInt v 2 +:+ r) fixed = Some (v, r).
Proof.
  intros Hv.
  pose proof (all_from_spec _ _ 0 v two_cycle ltac:(lia)) as H.
  unfold two_ok in H.
  destruct (time.appendInt v 2) as [|c0 [|c1 [|c2 s]]]; try discriminate.
  apply andb_prop in H as [[H0 H1]%andb_prop Hval].
  apply Z.eqb_eq in Hval.
  rewrite !append_cons_s, append_nil_s. cbn [time.getnum].
  now rewrite H0, H1, Hval.
Qed.

Lemma parseField_year_rest y rest f r :
  0 <= y <= 9999 ->
  time.parseField time.stdLongYear rest f (time.appendInt y 4 +:+ r)
  = inl (time.set_year y f, r).
Proof.
  intros Hy.
  pose proof (all_from_spec _ _ 0 y year_cycle ltac:(lia)) as H.
  unfold year_ok in H. cbv zeta in H.
  set (ys := time.appendInt y 4) in *.
  apply andb_prop in H as [H Hdrop]. apply andb_prop in H as [H Hval].
  apply andb_prop in H as [H Hdig]. apply andb_prop in H as [Hcut Hlen].
  apply String.eqb_eq in Hdrop. apply Nat.leb_le in Hlen.
  assert (Hl4 : String.length ys = 4%nat).
  { pose proof (length_drop_s 4 ys) as Hd. rewrite Hdrop in Hd.
    simpl in Hd. lia. }
  unfold time.parseField.
  rewrite length_append_s.
  replace (String.length ys + String.length r <? 4)%nat with false
    by (symmetry; apply Nat.ltb_ge; lia).
  assert (Hd0 : time.isDigit (ys +:+ r) 0 = true).
  { unfold time.isDigit in *. destruct ys; [discriminate|].
    now rewrite append_cons_s. }
  rewrite Hd0. cbn [orb negb].
  rewrite <- Hl4, take_app_s, drop_app_s.
  destruct (time.digitsVal ys 0) as [v|] eqn:Ev.
  - rewrite <- (take_app_s ys EmptyString), append_nil_r_s, Hl4 in Ev.
    rewrite Ev in Hval. apply Z.eqb_eq in Hval. now subst v.
  - rewrite <- (take_app_s ys EmptyString), append_nil_r_s, Hl4 in Ev.
    now rewrite Ev in Hval.
Qed.

Section Fields.
Context (rest : time.Layout) (f : time.fields) (r : string).

Lemma parseField_zeroMonth m :
  1 <= m <= 12 ->
  time.parseField time.stdZeroMonth rest f (time.appendInt m 2 +:+ r)
  = inl (time.set_month m f, r).
Proof.
  intros H. unfold time.parseField. rewrite getnum_two by lia.
  replace (m <=? 0) with false by (symmetry; apply Z.leb_gt; lia).
  now replace (12 <? m) with false by (symmetry; apply Z.ltb_ge; lia).
Qed.

Lemma parseField_zeroDay d :
  0 <= d <= 99 ->
  time.parseField time.stdZeroDay rest f (time.appendInt d 2 +:+ r)
  = inl (time.set_day d f, r).
Proof. intros H. unfold time.parseField. now rewrite getnum_two by lia. Qed.

Lemma parseField_hour h :
  0 <= h < 24 ->
  time.parseField time.stdHour rest f (time.appendInt h 2 +:+ r)
  = inl (time.set_hour h f, r).
Proof.
  intros H. unfold time.parseField. rewrite getnum_two by lia.
  now replace (24 <=? h) with false by (symmetry; apply Z.leb_gt; lia).
Qed.

Lemma parseField_zeroMinute mi :
  0 <= mi < 60 ->
  time.parseField time.stdZeroMinute rest f (time.appendInt mi 2 +:+ r)
  = inl (time.set_min mi f, r).
Proof.
  intros H. unfold time.parseField. rewrite getnum_two by lia.
  now replace (60 <=? mi) with false by (symmetry; apply Z.leb_gt; lia).
Qed.

Lemma parseField_zeroSecond s :
  0 <= s < 60 ->
  match r with
  | String c _ => time.commaOrPeriod c = false
  | EmptyString => True
  end ->
  time.parseField time.stdZeroSecond rest f (time.appendInt s 2 +:+ r)
  = inl (time.set_sec s f, r).
Proof.
  intros H Hr. unfold time.parseField. rewrite getnum_two by lia.
  replace (60 <=? s) with false by (symmetry; apply Z.leb_gt; lia).
  destruct r as [|c r']; [reflexivity|].
  now rewrite Hr, andb_false_r.
Qed.

End Fields.

(* The zone of a timestamp: Z for UTC, the offset otherwise. *)
Lemma parseField_zone rest f o :
  o mod 60 = 0 -> -86400 < o < 86400 ->
  let zone := if o =? 0 then "Z"
              else time.appendZone o true in
  match zone with
  | String c _ => time.commaOrPeriod c = false
  | EmptyString => True
  end
  /\ exists f',
       time.parseField time.stdISO8601ColonTZ rest f zone
       = inl (f', EmptyString)
       /\ f' = (if o =? 0 then time.set_z (Some time.UTC) f
                else time.set_zoneOffset o f).
Proof.
  intros Hm Ho zone. unfold zone.
  destruct (Z.eqb_spec o 0) as [->|Hne].
  { split; [reflexivity|]. eexists. split; reflexivity. }
  assert (Hk : o = 60 * (o / 60)).
  { pose proof (Z.div_mod o 60 ltac:(lia)). lia. }
  pose proof (all_from_spec _ _ (-1439) (o / 60) zone_cycle
                            ltac:(lia)) as H.
  unfold zone_ok in H. cbv zeta in H. rewrite <- Hk in H.
  replace (o / 60 =? 0) with false in H
    by (symmetry; apply Z.eqb_neq; lia).
  cbn [orb] in H.
  apply andb_prop in H as [[Hp Hz]%andb_prop Hc].
  apply negb_true_iff in Hz.
  split.
  - destruct (time.appendZone o true); [exact I|].
    now apply negb_true_iff in Hc.
  - unfold time.parseField. rewrite Hz.
    destruct (time.parseNumTZ true (time.appendZone o true))
      as [[off rest']|]; [|discriminate].
    apply andb_prop in Hp as [->%Z.eqb_eq ->%String.eqb_eq].
    eexists. split; reflexivity.
Qed.

Lemma Format_RFC3339 t y m d :
  time.civil (wallDay t) = (y, m, d) ->
  time.Format time.RFC3339 t
  = time.appendInt y 4
      +:+ ("-" +:+ (time.appendInt m 2
      +:+ ("-" +:+ (time.appendInt d 2
      +:+ ("T" +:+ (time.appendInt (wallSecs t / 3600) 2
      +:+ (":" +:+ (time.appendInt (wallSecs t mod 3600 / 60) 2
      +:+ (":" +:+ (time.appendInt (wallSecs t mod 60) 2
      +:+ ((if time.zoneOffset (time.loc t) =? 0 then "Z"
            else time.appendZone (time.zoneOffset (time.loc t)) true)
           +:+ EmptyString))))))))))).
Proof.
  intros H.
  change (time.Format time.RFC3339 t)
    with (time.appendField time.stdLongYear t
      +:+ ("-" +:+ (time.appendField time.stdZeroMonth t
      +:+ ("-" +:+ (time.appendField time.stdZeroDay t
      +:+ ("T" +:+ (time.appendField time.stdHour t
      +:+ (":" +:+ (time.appendField time.stdZeroMinute t
      +:+ (":" +:+ (time.appendField time.stdZeroSecond t
      +:+ (time.appendField time.stdISO8601ColonTZ t
           +:+ EmptyString)))))))))))).
  unfold time.appendField. fold (wallDay t). fold (wallSecs t).
  now rewrite H.
Qed.

Ltac field_step lem :=
  lazymatch goal with
  | |- context [time.parseChunks (time.Field ?std :: ?rest) ?f ?v] =>
    change (time.parseChunks (time.Field std :: rest) f v)
      with (match time.parseField std rest f v with
            | inl (f', v') => time.parseChunks rest f' v'
            | inr e => inr e
            end);
    rewrite lem
  end.

Ltac lit_step :=
  lazymatch goal with
  | |- context [time.parseChunks (time.Lit ?p :: ?rest) ?f (?p +:+ ?v)] =>
    change (time.parseChunks (time.Lit p :: rest) f (p +:+ v))
      with (time.parseChunks rest f v)
  end.

(* A timestamp of RFC 3339 is read as the instant it denotes. *)
Lemma Parse_RFC3339 local t :
  0 <= wallYear t <= 9999 ->
  time.zoneOffset (time.loc t) mod 60 = 0 ->
  -86400 < time.zoneOffset (time.loc t) < 86400 ->
  exists t',
    time.Parse local time.RFC3339 (time.Format time.RFC3339 t) = (t', None)
    /\ time.abs t' = time.abs t /\ time.nsec t' = 0
    /\ time.zoneOffset (time.loc t') = time.zoneOffset (time.loc t).
Proof.
  unfold wallYear. intros Hy Hm60 Ho.
  destruct (time.civil (wallDay t)) as [[y m] d] eqn:E. simpl in Hy.
  destruct (civil_spec _ _ _ _ E) as (Hm & Hd & Hinv).
  pose proof (daysIn_le m y Hm) as H31.
  set (o := time.zoneOffset (time.loc t)) in *.
  assert (Hsecs : 0 <= wallSecs t < 86400)
    by (unfold wallSecs, time.secondsPerDay; apply Z.mod_pos_bound; lia).
  set (secs := wallSecs t) in *.
  assert (Hh : 0 <= secs / 3600 < 24) by (Z.div_mod_to_equations; lia).
  assert (Hmi : 0 <= secs mod 3600 / 60 < 60)
    by (Z.div_mod_to_equations; lia).
  assert (Hs : 0 <= secs mod 60 < 60) by (Z.div_mod_to_equations; lia).
  assert (Hclock : secs / 3600 * 3600 + secs mod 3600 / 60 * 60
                   + secs mod 60 = secs)
    by (Z.div_mod_to_equations; lia).
  assert (Hwall : time.abs t + o = wallDay t * 86400 + secs).
  { unfold secs, wallSecs, wallDay, time.secondsPerDay. fold o.
    pose proof (Z.div_mod (time.abs t + o) 86400 ltac:(lia)). lia. }
  rewrite (Format_RFC3339 t y m d E). fold o. fold secs.
  set (zone := if o =? 0 then "Z" else time.appendZone o true).
  set (f1 := time.set_year y time.fields0).
  set (f2 := time.set_month m f1).
  set (f3 := time.set_day d f2).
  set (f4 := time.set_hour (secs / 3600) f3).
  set (f5 := time.set_min (secs mod 3600 / 60) f4).
  set (f6 := time.set_sec (secs mod 60) f5).
  destruct (parseField_zone [] f6 o Hm60 Ho) as (Hc & f7 & Hz & Hf7).
  fold zone in Hc, Hz.
  unfold time.Parse, time.RFC3339.
  field_step parseField_year_rest; [|exact Hy]. fold f1.
  lit_step. field_step parseField_zeroMonth; [|exact Hm]. fold f2.
  lit_step. field_step parseField_zeroDay; [|lia]. fold f3.
  lit_step. field_step parseField_hour; [|exact Hh]. fold f4.
  lit_step. field_step parseField_zeroMinute; [|exact Hmi]. fold f5.
  lit_step. field_step parseField_zeroSecond; [|exact Hs|].
  2: { rewrite append_nil_r_s. exact Hc. }
  fold f6. rewrite append_nil_r_s.
  field_step Hz. cbn [time.parseChunks String.length Nat.eqb].
  unfold time.resolve.
  assert (Hfm : time.f_month f7 = m) by (subst f7; now destruct (o =? 0)).
  assert (Hfd : time.f_day f7 = d) by (subst f7; now destruct (o =? 0)).
  assert (Hfy : time.f_year f7 = y) by (subst f7; now destruct (o =? 0)).
  assert (Hfh : time.f_hour f7 = secs / 3600)
    by (subst f7; now destruct (o =? 0)).
  assert (Hfi : time.f_min f7 = secs mod 3600 / 60)
    by (subst f7; now destruct (o =? 0)).
  assert (Hfs : time.f_sec f7 = secs mod 60)
    by (subst f7; now destruct (o =? 0)).
  assert (Hfn : time.f_nsec f7 = 0) by (subst f7; now destruct (o =? 0)).
  rewrite Hfm, Hfd, Hfy, Hfh, Hfi, Hfs, Hfn.
  replace (m <? 0) with false by (symmetry; apply Z.ltb_ge; lia).
  replace (d <? 0) with false by (symmetry; apply Z.ltb_ge; lia).
  replace (d <? 1) with false by (symmetry; apply Z.ltb_ge; lia).
  replace (time.daysIn m y <? d) with false
    by (symmetry; apply Z.ltb_ge; lia).
  cbn [orb].
  assert (Hdate : forall l,
             time.abs (time.Date y m d (secs / 3600) (secs mod 3600 / 60)
                                 (secs mod 60) 0 l)
             = time.abs t + o - time.zoneOffset l).
  { intros l. unfold time.Date, time.secondsPerDay. cbn [time.abs].
    rewrite Hinv. lia. }
  destruct (Z.eqb_spec o 0) as [Ho0|Ho0].
  - subst f7. cbn [time.f_z time.set_z].
    eexists. split; [reflexivity|]. split; [|split; [reflexivity|]].
    + rewrite Hdate. cbn. lia.
    + cbn. lia.
  - subst f7. cbn [time.f_z time.f_zoneOffset time.f_zoneName
                   time.set_zoneOffset f6 f5 f4 f3 f2 f1 time.set_sec
                   time.set_min time.set_hour time.set_day time.set_month
                   time.set_year time.fields0].
    replace (o =? -1) with false
      by (symmetry; apply Z.eqb_neq; intros Heq; rewrite Heq in Hm60;
          discriminate Hm60).
    cbn [negb].
    destruct (_ && _) eqn:El; eexists; (split; [reflexivity|]);
      (split; [|split; [reflexivity|]]);
      cbn [time.abs time.setLoc time.addSec time.loc time.zoneOffset
           time.FixedZone];
      rewrite ?Hdate; cbn; lia.
Qed.

Lemma wallDay_format t1 t2 : wallDay t1 = wallDay t2 ->
  formatTime t1 = formatTime t2.
Proof.
  intros H.
  destruct (time.civil (wallDay t1)) as [[y m] d] eqn:E.
  rewrite (formatTime_civil t1 y m d E).
  rewrite H in E. now rewrite (formatTime_civil t2 y m d E).
Qed.

(** X14.  A timestamp of RFC 3339, as Go writes it - date, time to the
    second and Z or the offset from UTC in hours and minutes - is accepted
    by [parseTime], as the instant it denotes; and the date [formatTime]
    then gives the article is the day written in the timestamp, in the
    zone of the timestamp, not the day in the zone of the host. *)
Theorem rfc3339_read_back (w : World) (t : time.Time) :
  0 <= wallYear t <= 9999 ->
  time.zoneOffset (time.loc t) mod 60 = 0 ->
  -86400 < time.zoneOffset (time.loc t) < 86400 ->
  let r := parseTime w (time.Format time.RFC3339 t) in
  r.2 = None /\ time.abs r.1 = time.abs t /\ time.nsec r.1 = 0
  /\ formatTime r.1 = formatTime t.
Proof.
  intros Hy Hm Ho.
  destruct (Parse_RFC3339 (Local w) t Hy Hm Ho)
    as (t' & HP & Ha & Hn & Hz).
  cbv zeta. unfold parseTime, formats. cbn [parseTime_range].
  rewrite HP. cbn [fst snd].
  split; [reflexivity|]. split; [exact Ha|]. split; [exact Hn|].
  apply wallDay_format. unfold wallDay. now rewrite Ha, Hz.
Qed.

Lemma rfc3339_read_back_witness :
  0 <= wallYear (time.Date 2024 7 26 23 30 0 0
                           (time.FixedZone "CST" (8 * 3600))) <= 9999
  /\ time.Format time.RFC3339
        (time.Date 2024 7 26 23 30 0 0 (time.FixedZone "CST" (8 * 3600)))
     = "2024-07-26T23:30:00+08:00"
  /\ formatTime
       (parseTime (table_world [])
          (time.Format time.RFC3339
             (time.Date 2024 7 26 23 30 0 0
                        (time.FixedZone "CST" (8 * 3600))))).1
     = formatTime (time.Date 2024 7 26 23 30 0 0
                             (time.FixedZone "CST" (8 * 3600))).
Proof.
  split; [vm_compute; split; discriminate|].
  split; [reflexivity|].
  apply (rfc3339_read_back (table_world [])
           (time.Date 2024 7 26 23 30 0 0
                      (time.FixedZone "CST" (8 * 3600)))).
  - vm_compute. split; discriminate.
  - reflexivity.
  - vm_compute. split; reflexivity.
Defined.

(** ** What stops a run, and what does not *)

(** X15.  The GitHub program panics only in a call of the store that got
    no response: when [main] panics, the last call that was made is one the
    store did not answer; and when the store answers every call - be it
    with an error - [main] returns. *)
Theorem Github_panics_only_unanswered (w : World) (sortSlice : Sorter)
        (st : State) :
  (forall st',
     Github.main w sortSlice st = (Panicked, st') ->
     exists n f, calls st' = S n /\ fault w n = Some f /\ status f = None)
  /\ ((forall n f, fault w n = Some f -> status f <> None) ->
      exists st', Github.main w sortSlice st = (Returned tt, st')).
Proof.
  split.
  - intros st' H. exact (Github_main_Panicked w sortSlice st st' H).
  - intros HA. exact (Github_main_returns w sortSlice st HA).
Qed.

Lemma Github_panics_only_unanswered_witness :
  (forall n f, fault (table_world thirteen) n = Some f -> status f <> None)
  /\ exists st',
       Github.main (table_world thirteen) (@sort.Slice) st0
       = (Returned tt, st').
Proof.
  split; [intros n f; discriminate|].
  apply (proj2 (Github_panics_only_unanswered (table_world thirteen)
                  (@sort.Slice) st0)).
  intros n f. discriminate.
Defined.

(** X16.  The failures of single feeds do not end the fetching.  In the
    COS program [fetchRSS] returns no error and has requested every feed of
    the list, in order, whatever the feeds and the store answer, and the
    run reaches its closing message exactly when the reading of the feed
    list and the publishing return no error.  In the GitHub program
    [fetchRSS], when it returns, returns no error and has requested every
    feed; it does not return only when a call of the store got no
    response; and the run reaches its closing message exactly when the
    reading of the list, the fetching and the publishing return, without
    error. *)
Theorem per_feed_errors_absorbed (w : World) (sortSlice : Sorter)
        (feeds : list string) (st : State) :
  (COS.fetchRSS w sortSlice feeds st).1.2 = None
  /\ requests (COS.fetchRSS w sortSlice feeds st).2
     = (requests st ++ feeds)%list
  /\ (let r1 := COS.readFeedsFromFile w "rss_feeds.txt" in
      let r2 := COS.fetchRSS w sortSlice r1.1 st in
      let r3 := COS.saveToCOS w r2.1.1 r2.2 in
      COS_completes w sortSlice st <-> r1.2 = None /\ r3.1 = None)
  /\ (forall returned err st',
        Github.fetchRSS w sortSlice feeds st
        = (Returned (returned, err), st') ->
        err = None /\ requests st' = (requests st ++ feeds)%list)
  /\ (forall st',
        Github.fetchRSS w sortSlice feeds st = (Panicked, st') ->
        exists n f, calls st' = S n /\ fault w n = Some f /\ status f = None)
  /\ (Github_completes w sortSlice st <->
      exists feeds st1 arts st2 st3,
        Github.readFeedsFromGitHub w st = (Returned (feeds, None), st1)
        /\ Github.fetchRSS w sortSlice feeds st1
           = (Returned (arts, None), st2)
        /\ Github.saveToGitHub w arts st2 = (Returned None, st3)).
Proof.
  pose proof (Github_fetchRSS_absorbs w sortSlice feeds st) as HG.
  split; [apply COS_fetchRSS_absorbs|].
  split; [apply COS_fetchRSS_absorbs|].
  split; [apply COS_main_completes|].
  split; [|split; [|apply Github_main_completes]].
  - intros returned err st' Hrun. now rewrite Hrun in HG.
  - intros st' Hrun. now rewrite Hrun in HG.
Qed.

(** X17.  When the store answers the two calls of [logError] and the log
    that is there is read as it is - its content decoded in the GitHub
    program, its body read to its end in the COS program - a log that was
    absent is created with the line and two newlines, a log with content
    [C] becomes [C], the line and two newlines, and no other object
    changes. *)
Theorem logError_appends (w : World) (st : State) (line : string) :
  fault w (calls st) = None -> fault w (S (calls st)) = None ->
  (undecodable w (calls st) = None ->
   exists st',
     Github.logError w line st = (Returned tt, st')
     /\ (objects st !! "api/error.log" = None ->
         objects st' !! "api/error.log" = Some (line +:+ nl +:+ nl))
     /\ (forall C, objects st !! "api/error.log" = Some C ->
         objects st' !! "api/error.log" = Some (C +:+ line +:+ nl +:+ nl))
     /\ (forall path, path <> "api/error.log" ->
         objects st' !! path = objects st !! path))
  /\ (broken w (calls st) = None ->
      let after_cos := objects (COS.logError w line st).2 in
      (objects st !! "rss/error.log" = None ->
       after_cos !! "rss/error.log" = Some (line +:+ nl +:+ nl))
      /\ (forall C, objects st !! "rss/error.log" = Some C ->
          after_cos !! "rss/error.log" = Some (C +:+ line +:+ nl +:+ nl))
      /\ (forall path, path <> "rss/error.log" ->
          after_cos !! path = objects st !! path)).
Proof.
  intros H0 H1. split.
  - intros Hd.
    destruct (Github_logError_appends w line st H0 H1 Hd) as (st' & E & Ho).
    exists st'. split; [exact E|]. rewrite Ho. repeat split.
    + intros E0. rewrite lookup_insert_eq, E0. reflexivity.
    + intros C E0. rewrite lookup_insert_eq, E0. reflexivity.
    + intros path Hp. now rewrite lookup_insert_ne.
  - intros Hb after_cos. subst after_cos.
    rewrite COS_logError_appends by assumption. repeat split.
    + intros E0. rewrite lookup_insert_eq, E0. reflexivity.
    + intros C E0. rewrite lookup_insert_eq, E0. reflexivity.
    + intros path Hp. now rewrite lookup_insert_ne.
Qed.

Lemma logError_appends_witness :
  fault (table_world []) 0 = None /\ fault (table_world []) 1 = None
  /\ (exists st',
        Github.logError (table_world []) "B"
          (st_with "api/error.log" ("A" +:+ nl +:+ nl)) = (Returned tt, st')
        /\ objects st' !! "api/error.log"
           = Some ("A" +:+ nl +:+ nl +:+ "B" +:+ nl +:+ nl))
  /\ objects (COS.logError (table_world []) "B" st0).2 !! "rss/error.log"
       = Some ("B" +:+ nl +:+ nl).
Proof.
  split; [reflexivity|]. split; [reflexivity|].
  pose proof (logError_appends (table_world [])
                (st_with "api/error.log" ("A" +:+ nl +:+ nl)) "B"
                eq_refl eq_refl) as (Hg & _).
  pose proof (logError_appends (table_world []) st0 "B" eq_refl eq_refl)
    as (_ & Hc).
  split.
  - destruct (Hg eq_refl) as (st' & E & _ & HC & _).
    exists st'. split; [exact E|]. apply (HC ("A" +:+ nl +:+ nl)).
    reflexivity.
  - destruct (Hc eq_refl) as (Ha & _). apply Ha. reflexivity.
Defined.
